(** * Real-time voice session orchestrator: a shallow embedding

    The development embeds three pieces of the repository:
    - [Connection]: the hook [useRealtimeConnection] (peer transport manager,
      event dispatcher, tool bridge and hint channel);
    - [Coordinator]: the provider [VoiceAgentProvider] built on top of it;
    - [Audition]: the hook [useAuditionSession].

    JavaScript runs handlers to completion and suspends an [async] function
    at every [await].  Synchronous code is written in a state-and-exception
    monad; an [async] function is cut at its [await]s into segments, and an
    in-flight call is a task that the environment resumes by settling the
    promise it waits for.  Browser objects (peer connections, data channels,
    media streams, audio elements, timers) live in a store and are referred
    to by index, so that a ref that is overwritten or nulled does not make
    the object disappear.  Every externally visible action is appended to a
    chronological trace. *)

From Stdlib Require Import ZArith NArith String Ascii DecimalString Lia.
From stdpp Require Import base tactics option list strings.

Local Open Scope string_scope.

(** ** Strings and JSON *)

Module Json.

(** The double-quote character, and a string between double quotes. *)
Definition dq : string := String (ascii_of_nat 34) EmptyString.
Definition quoted (s : string) : string := dq +:+ s +:+ dq.

Definition hex_digit (n : nat) : ascii :=
  if Nat.ltb n 10 then ascii_of_nat (48 + n) else ascii_of_nat (87 + n).

(** Escaping of one character by JSON.stringify. *)
Definition escape_char (c : ascii) : string :=
  let n := nat_of_ascii c in
  if Nat.eqb n 34 then "\" +:+ dq
  else if Nat.eqb n 92 then "\\"
  else if Nat.eqb n 8 then "\b"
  else if Nat.eqb n 9 then "\t"
  else if Nat.eqb n 10 then "\n"
  else if Nat.eqb n 12 then "\f"
  else if Nat.eqb n 13 then "\r"
  else if Nat.ltb n 32 then
    "\u00" +:+ String (hex_digit (n / 16)) (String (hex_digit (n mod 16)) EmptyString)
  else String c EmptyString.

Fixpoint escape (s : string) : string :=
  match s with
  | EmptyString => EmptyString
  | String c rest => escape_char c +:+ escape rest
  end.

(** The values that occur in the objects the hooks serialise. *)
Inductive Value :=
| JBool (b : bool)
| JString (s : string).

Definition stringify_value (v : Value) : string :=
  match v with
  | JBool true => "true"
  | JBool false => "false"
  | JString s => quoted (escape s)
  end.

Definition stringify_field (f : string * Value) : string :=
  quoted (escape (fst f)) +:+ ":" +:+ stringify_value (snd f).

Fixpoint join_fields (fs : list (string * Value)) : string :=
  match fs with
  | [] => ""
  | [f] => stringify_field f
  | f :: rest => stringify_field f +:+ "," +:+ join_fields rest
  end.

(** JSON.stringify of an object literal with the given fields, in order. *)
Definition stringify (fs : list (string * Value)) : string :=
  "{" +:+ join_fields fs +:+ "}".

(** Template-literal conversion of a non-negative integer. *)
Definition of_N (n : N) : string := NilZero.string_of_uint (N.to_uint n).

End Json.

(** ** Wire protocol (types.ts) *)

Inductive ConnectionStatus := disconnected | connecting | connected.

#[global] Instance ConnectionStatus_eq_dec : EqDecision ConnectionStatus.
Proof. solve_decision. Defined.

Inductive Role := user | assistant | system.

Inductive ContentPart :=
| input_text (text : string).

(** Conversation items the client creates.  [call_id] is optional in the
    item type and is dropped by JSON.stringify when undefined. *)
Inductive ConversationItem :=
| message (role : Role) (content : list ContentPart)
| function_call_output (call_id : option string) (output : string).

(** Client -> server events, as the objects handed to JSON.stringify. *)
Inductive ClientEvent :=
| session_update (instructions : string)
| conversation_item_create (item : ConversationItem)
| response_create.

Inductive OutputItemType := item_message | item_function_call.

#[global] Instance OutputItemType_eq_dec : EqDecision OutputItemType.
Proof. solve_decision. Defined.

(** An entry of [response.output]; name, call_id and arguments are optional. *)
Record OutputItem := {
  item_id : string;
  item_type : OutputItemType;
  item_name : option string;
  item_call_id : option string;
  item_arguments : option string;
}.

(** Server -> client events, one constructor per [type] discriminator; the
    last constructor stands for every other discriminator. *)
Inductive ServerEvent :=
| session_created (session_id : string)
| session_updated
| conversation_item_created
| response_output_item_done (item : OutputItem)
| response_done (output : list OutputItem)
| response_audio_delta (delta : string)
| response_audio_done
| response_audio_transcript_delta (delta : string)
| response_audio_transcript_done (transcript : string)
| input_audio_buffer_speech_started
| input_audio_buffer_speech_stopped
| input_audio_transcription_completed (transcript : string)
| error_event (error_message : string)
| other_event (type : string).

Inductive VoiceOption :=
| alloy | ash | ballad | coral | echo | sage | shimmer | verse | marin | cedar.

(** tools.ts *)
Module TOOL_NAMES.
Definition GO_TO_NEXT_SLIDE : string := "goToNextSlide".
Definition GO_TO_PREVIOUS_SLIDE : string := "goToPreviousSlide".
End TOOL_NAMES.

(** ** JavaScript completions and the effect monad *)

(** A thrown value or rejection reason: an [Error] with its message, or
    something that is not an instance of [Error]. *)
Inductive Thrown :=
| JsError (msg : string)
| NonError.

Inductive Completion (A : Type) :=
| Normal (a : A)
| Abrupt (e : Thrown).
Arguments Normal {A} a.
Arguments Abrupt {A} e.

Definition Eff (S A : Type) : Type := S -> Completion A * S.

Definition eff_ret {S A} (a : A) : Eff S A := fun s => (Normal a, s).

Definition eff_bind {S A B} (m : Eff S A) (k : A -> Eff S B) : Eff S B :=
  fun s =>
    match m s with
    | (Normal a, s') => k a s'
    | (Abrupt e, s') => (Abrupt e, s')
    end.

Definition throw {S A} (e : Thrown) : Eff S A := fun s => (Abrupt e, s).

(** try { body } catch (err) { handler err } *)
Definition try_catch {S A} (body : Eff S A) (handler : Thrown -> Eff S A) : Eff S A :=
  fun s =>
    match body s with
    | (Normal a, s') => (Normal a, s')
    | (Abrupt e, s') => handler e s'
    end.

Definition gets {S A} (f : S -> A) : Eff S A := fun s => (Normal (f s), s).
Definition modify {S} (f : S -> S) : Eff S unit := fun s => (Normal tt, f s).

Definition when {S} (b : bool) (m : Eff S unit) : Eff S unit :=
  if b then m else eff_ret tt.

(** array.forEach(f) *)
Fixpoint for_each {S A} (l : list A) (f : A -> Eff S unit) : Eff S unit :=
  match l with
  | [] => eff_ret tt
  | x :: rest => eff_bind (f x) (fun _ => for_each rest f)
  end.

(** The state in which a computation ends, whichever way it completes. *)
Definition exec_state {S A} (m : Eff S A) (s : S) : S := snd (m s).
Definition completion {S A} (m : Eff S A) (s : S) : Completion A := fst (m s).

Arguments eff_ret {S A} a s /.
Arguments eff_bind {S A B} m k s /.
Arguments throw {S A} e s /.
Arguments try_catch {S A} body handler s /.
Arguments gets {S A} f s /.
Arguments modify {S} f s /.
Arguments when {S} b m /.
Arguments exec_state {S A} m s /.
Arguments completion {S A} m s /.

Declare Scope eff_scope.
Delimit Scope eff_scope with eff.
Notation "x <- m ;; k" := (eff_bind m (fun x => k))
  (at level 100, m at next level, right associativity) : eff_scope.
Notation "m ;; k" := (eff_bind m (fun _ => k))
  (at level 100, right associativity) : eff_scope.

(** ** instructions.ts: modes and personas *)

Inductive InteractionMode := presenter | dialogue | assistant_mode.
Inductive PersonaType := guide | coach | expert | peer.

Record PersonaConfig := {
  persona_name : string;
  voice : VoiceOption;
  greetingStyle : string;
}.

(** The [personas] table, with the fields the hooks read. *)
Definition getPersonaConfig (p : PersonaType) : PersonaConfig :=
  match p with
  | guide => {| persona_name := "Sophie"; voice := sage; greetingStyle := "warmly" |}
  | coach => {| persona_name := "Marcus"; voice := verse; greetingStyle := "directly" |}
  | expert => {| persona_name := "Claire"; voice := shimmer; greetingStyle := "professionally" |}
  | peer => {| persona_name := "Sam"; voice := verse; greetingStyle := "casually" |}
  end.

(** ** The browser: WebRTC objects, timers and the trace of actions *)

Module Browser.

(** RTCDataChannel.readyState *)
Inductive ReadyState := rs_connecting | rs_open | rs_closing | rs_closed.

#[global] Instance ReadyState_eq_dec : EqDecision ReadyState.
Proof. solve_decision. Defined.

(** RTCPeerConnection.connectionState *)
Inductive PcState :=
| pc_new | pc_connecting | pc_connected | pc_disconnected | pc_failed | pc_closed.

#[global] Instance PcState_eq_dec : EqDecision PcState.
Proof. solve_decision. Defined.

(** What a pending timer does when it fires: reject the promise an
    in-flight negotiation waits on, or send a response trigger on a
    channel if it is open. *)
Inductive TimerAction :=
| reject_task (task : nat)
| trigger_response (dc : nat).

Record Timer := {
  timer_delay : N;
  timer_pending : bool;
  timer_action : TimerAction;
}.

(** A peer connection: whether close() was called, its connection state,
    the audio element its ontrack handler feeds, and the
    connectionstatechange listeners (task and timer of the negotiation
    that registered each). *)
Record PeerConnection := {
  pc_isClosed : bool;
  connectionState : PcState;
  ontrack : option nat;
  listeners : list (nat * nat);
}.

Record AudioElement := {
  autoplay : bool;
  srcObject : option nat;
}.

(** Every externally visible action, in the order it happens. *)
Inductive Effect :=
| console_log (label : string)
| console_warn (label : string)
| console_error (label : string)
| fetch (url : string)
| get_user_media
| create_offer (pc : nat)
| set_local_description (pc : nat)
| set_remote_description (pc : nat)
| channel_send (dc : nat) (ev : ClientEvent)
| channel_close (dc : nat)
| track_stop (stream track : nat)
| peer_close (pc : nat)
| sink_detach (audio : nat)
| set_timeout (timer : nat) (ms : N)
| clear_timeout (timer : nat)
| set_status (s : ConnectionStatus)
| set_is_agent_speaking (b : bool)
| set_error (e : option Thrown)
| set_active_persona (p : option PersonaType)
| on_transcript (transcript : string) (isFinal : bool)
| on_user_transcript (transcript : string)
| on_error (e : Thrown)
| go_to_next
| go_to_previous.

(** A media stream is the list of its tracks; [true] means live. *)
Record Store := {
  peers : list PeerConnection;
  channels : list ReadyState;
  streams : list (list bool);
  audios : list AudioElement;
  timers : list Timer;
  trace : list Effect;
}.

Definition empty : Store :=
  {| peers := []; channels := []; streams := []; audios := []; timers := []; trace := [] |}.

Definition with_peers (v : list PeerConnection) (b : Store) : Store :=
  {| peers := v; channels := channels b; streams := streams b;
     audios := audios b; timers := timers b; trace := trace b |}.
Definition with_channels (v : list ReadyState) (b : Store) : Store :=
  {| peers := peers b; channels := v; streams := streams b;
     audios := audios b; timers := timers b; trace := trace b |}.
Definition with_streams (v : list (list bool)) (b : Store) : Store :=
  {| peers := peers b; channels := channels b; streams := v;
     audios := audios b; timers := timers b; trace := trace b |}.
Definition with_audios (v : list AudioElement) (b : Store) : Store :=
  {| peers := peers b; channels := channels b; streams := streams b;
     audios := v; timers := timers b; trace := trace b |}.
Definition with_timers (v : list Timer) (b : Store) : Store :=
  {| peers := peers b; channels := channels b; streams := streams b;
     audios := audios b; timers := v; trace := trace b |}.
Definition with_trace (v : list Effect) (b : Store) : Store :=
  {| peers := peers b; channels := channels b; streams := streams b;
     audios := audios b; timers := timers b; trace := v |}.

Definition invalid_state : Thrown := JsError "InvalidStateError".

Local Open Scope eff_scope.

Definition emit (e : Effect) : Eff Store unit :=
  modify (fun b => with_trace (trace b ++ [e]) b).

(** new RTCPeerConnection() *)
Definition new_peer_connection : Eff Store nat :=
  fun b =>
    (Normal (length (peers b)),
     with_peers (peers b ++ [{| pc_isClosed := false; connectionState := pc_new;
                                ontrack := None; listeners := [] |}]) b).

Definition peer_is_closed (pc : nat) (b : Store) : bool :=
  match peers b !! pc with
  | Some p => pc_isClosed p
  | None => true
  end.

Definition update_peer (pc : nat) (f : PeerConnection -> PeerConnection) : Eff Store unit :=
  modify (fun b => with_peers (alter f pc (peers b)) b).

(** pc.ontrack = handler feeding [audio] *)
Definition set_ontrack (pc audio : nat) : Eff Store unit :=
  update_peer pc (fun p =>
    {| pc_isClosed := pc_isClosed p; connectionState := connectionState p;
       ontrack := Some audio; listeners := listeners p |}).

(** pc.addEventListener("connectionstatechange", ...) *)
Definition add_state_listener (pc task timer : nat) : Eff Store unit :=
  update_peer pc (fun p =>
    {| pc_isClosed := pc_isClosed p; connectionState := connectionState p;
       ontrack := ontrack p; listeners := listeners p ++ [(task, timer)] |}).

(** pc.addTrack: throws on a closed connection. *)
Definition add_track (pc stream track : nat) : Eff Store unit :=
  closed <- gets (peer_is_closed pc) ;;
  if closed : bool then throw invalid_state else eff_ret tt.

(** pc.createDataChannel: throws on a closed connection. *)
Definition create_data_channel (pc : nat) : Eff Store nat :=
  closed <- gets (peer_is_closed pc) ;;
  if closed : bool then throw invalid_state
  else fun b => (Normal (length (channels b)), with_channels (channels b ++ [rs_connecting]) b).

(** pc.close() *)
Definition close_peer (pc : nat) : Eff Store unit :=
  emit (peer_close pc) ;;
  update_peer pc (fun p =>
    {| pc_isClosed := true; connectionState := pc_closed;
       ontrack := ontrack p; listeners := listeners p |}).

Definition ready_state (dc : nat) (b : Store) : ReadyState :=
  default rs_closed (channels b !! dc).

Definition set_ready_state (dc : nat) (r : ReadyState) : Eff Store unit :=
  modify (fun b => with_channels (<[dc := r]> (channels b)) b).

(** dc.send: throws unless the channel is open. *)
Definition send (dc : nat) (ev : ClientEvent) : Eff Store unit :=
  r <- gets (ready_state dc) ;;
  match r with
  | rs_open => emit (channel_send dc ev)
  | _ => throw invalid_state
  end.

(** dc.close(): starts the closing procedure unless already closing or closed. *)
Definition close_channel (dc : nat) : Eff Store unit :=
  emit (channel_close dc) ;;
  r <- gets (ready_state dc) ;;
  match r with
  | rs_closing | rs_closed => eff_ret tt
  | _ => set_ready_state dc rs_closing
  end.

(** document.createElement("audio") *)
Definition create_audio : Eff Store nat :=
  fun b =>
    (Normal (length (audios b)),
     with_audios (audios b ++ [{| autoplay := false; srcObject := None |}]) b).

Definition set_autoplay (audio : nat) (v : bool) : Eff Store unit :=
  modify (fun b => with_audios
    (alter (fun a => {| autoplay := v; srcObject := srcObject a |}) audio (audios b)) b).

Definition set_src_object (audio : nat) (v : option nat) : Eff Store unit :=
  modify (fun b => with_audios
    (alter (fun a => {| autoplay := autoplay a; srcObject := v |}) audio (audios b)) b).

(** A stream granted by getUserMedia, with [n] live tracks. *)
Definition new_stream (n : nat) : Eff Store nat :=
  fun b => (Normal (length (streams b)), with_streams (streams b ++ [replicate n true]) b).

(** stream.getTracks(), as track indices *)
Definition get_tracks (stream : nat) (b : Store) : list nat :=
  seq 0 (length (default [] (streams b !! stream))).

(** track.stop() *)
Definition stop_track (stream track : nat) : Eff Store unit :=
  emit (track_stop stream track) ;;
  modify (fun b => with_streams (alter (fun ts => <[track := false]> ts) stream (streams b)) b).

(** setTimeout / clearTimeout *)
Definition set_timer (ms : N) (a : TimerAction) : Eff Store nat :=
  fun b =>
    let id := length (timers b) in
    (Normal id,
     with_trace (trace b ++ [set_timeout id ms])
       (with_timers (timers b ++ [{| timer_delay := ms; timer_pending := true;
                                     timer_action := a |}]) b)).

Definition retire_timer (t : Timer) : Timer :=
  {| timer_delay := timer_delay t; timer_pending := false; timer_action := timer_action t |}.

Definition clear_timer (timer : nat) : Eff Store unit :=
  emit (clear_timeout timer) ;;
  modify (fun b => with_timers (alter retire_timer timer (timers b)) b).

Arguments emit e s /.
Arguments new_peer_connection b /.
Arguments update_peer pc f s /.
Arguments set_ontrack pc audio s /.
Arguments add_state_listener pc task timer s /.
Arguments add_track pc stream track s /.
Arguments create_data_channel pc s /.
Arguments close_peer pc s /.
Arguments set_ready_state dc r s /.
Arguments send dc ev s /.
Arguments close_channel dc s /.
Arguments create_audio b /.
Arguments set_autoplay audio v s /.
Arguments set_src_object audio v s /.
Arguments new_stream n b /.
Arguments stop_track stream track s /.
Arguments set_timer ms a b /.
Arguments clear_timer timer s /.
Arguments ready_state : simpl never.
Arguments peer_is_closed : simpl never.
Arguments get_tracks : simpl never.

(** Observations on the store. *)
Definition channel_is_open (r : ReadyState) : bool :=
  match r with rs_open => true | _ => false end.

(** A channel on which close() was not called and which did not close. *)
Definition channel_is_live (r : ReadyState) : bool :=
  match r with rs_connecting | rs_open => true | _ => false end.

Definition open_channels (b : Store) : nat :=
  length (filter (fun r => channel_is_open r = true) (channels b)).
Definition live_channels (b : Store) : nat :=
  length (filter (fun r => channel_is_live r = true) (channels b)).
Definition live_tracks (b : Store) : nat :=
  length (filter (fun t => t = true) (concat (streams b))).
Definition open_peers (b : Store) : nat :=
  length (filter (fun p => pc_isClosed p = false) (peers b)).
Definition attached_sinks (b : Store) : nat :=
  length (filter (fun a => is_Some (srcObject a)) (audios b)).

(** The events sent on any channel, in order. *)
Definition sent_of (e : Effect) : list ClientEvent :=
  match e with
  | channel_send _ ev => [ev]
  | _ => []
  end.
Definition sent (t : list Effect) : list ClientEvent := concat (map sent_of t).

End Browser.

(** ** Negotiation: the awaits shared by connect and startAudition

    Both functions await the same sequence of promises: the token request,
    its body, the microphone, the offer, the local description, the SDP
    exchange, its body, the remote description, and finally a promise that
    a connectionstatechange listener or a deadline settles. *)

Module Negotiation.
Import Browser.

(** Where an in-flight negotiation is suspended, with the locals it keeps. *)
Inductive Stage :=
| awaiting_token_response
| awaiting_error_body
| awaiting_token_body
| awaiting_user_media (pc : nat)
| awaiting_offer (pc : nat)
| awaiting_local_description (pc : nat)
| awaiting_sdp_response (pc : nat)
| awaiting_answer_text (pc : nat)
| awaiting_remote_description (pc : nat)
| awaiting_connection (pc timer : nat)
| finished (failure : option Thrown).

(** How the environment settles the promise a task waits on. *)
Inductive Settlement :=
| fetch_response (ok : bool) (http_status : N)
| json_error_body (error_field : option string)
| json_token_body (token : string)
| media_granted (n_tracks : nat)
| answer_text (sdp : string)
| fulfilled
| rejected (reason : Thrown).

(** err instanceof Error ? err : new Error("Connection failed") *)
Definition as_error (err : Thrown) : Thrown :=
  match err with
  | JsError m => JsError m
  | NonError => JsError "Connection failed"
  end.

(** errorData.error || "Failed to get token" *)
Definition error_or_default (f : option string) : string :=
  match f with
  | Some m => if decide (m = "") then "Failed to get token" else m
  | None => "Failed to get token"
  end.

Definition is_waiting (stage : Stage) : bool :=
  match stage with
  | awaiting_connection _ _ => true
  | _ => false
  end.

Definition pc_state_name (st : PcState) : string :=
  match st with
  | pc_new => "new"
  | pc_connecting => "connecting"
  | pc_connected => "connected"
  | pc_disconnected => "disconnected"
  | pc_failed => "failed"
  | pc_closed => "closed"
  end.

End Negotiation.

(** ** useRealtimeConnection *)

Module Connection.
Import Browser Negotiation.
Local Open Scope eff_scope.

Definition OPENAI_REALTIME_URL : string := "https://api.openai.com/v1/realtime".
Definition MODEL : string := "gpt-realtime".

(** Which of the optional observers the caller supplied. *)
Record Options := {
  has_onTranscript : bool;
  has_onUserTranscript : bool;
  has_onError : bool;
}.

(** The host's navigation callbacks: an opaque object of the application. *)
Inductive NavigationCallbacks := host_callbacks.

Record State := {
  status : ConnectionStatus;
  isAgentSpeaking : bool;
  error : option Thrown;
  peerConnectionRef : option nat;
  dataChannelRef : option nat;
  localStreamRef : option nat;
  audioElementRef : option nat;
  navigationCallbacksRef : option NavigationCallbacks;
  options : Options;
  tasks : list Stage;
  browser : Store;
}.

(** The hook as first rendered. *)
Definition initial (o : Options) : State :=
  {| status := disconnected; isAgentSpeaking := false; error := None;
     peerConnectionRef := None; dataChannelRef := None; localStreamRef := None;
     audioElementRef := None; navigationCallbacksRef := None; options := o;
     tasks := []; browser := Browser.empty |}.

Definition with_status v s :=
  {| status := v; isAgentSpeaking := isAgentSpeaking s; error := error s;
     peerConnectionRef := peerConnectionRef s; dataChannelRef := dataChannelRef s;
     localStreamRef := localStreamRef s; audioElementRef := audioElementRef s;
     navigationCallbacksRef := navigationCallbacksRef s; options := options s;
     tasks := tasks s; browser := browser s |}.
Definition with_isAgentSpeaking v s :=
  {| status := status s; isAgentSpeaking := v; error := error s;
     peerConnectionRef := peerConnectionRef s; dataChannelRef := dataChannelRef s;
     localStreamRef := localStreamRef s; audioElementRef := audioElementRef s;
     navigationCallbacksRef := navigationCallbacksRef s; options := options s;
     tasks := tasks s; browser := browser s |}.
Definition with_error v s :=
  {| status := status s; isAgentSpeaking := isAgentSpeaking s; error := v;
     peerConnectionRef := peerConnectionRef s; dataChannelRef := dataChannelRef s;
     localStreamRef := localStreamRef s; audioElementRef := audioElementRef s;
     navigationCallbacksRef := navigationCallbacksRef s; options := options s;
     tasks := tasks s; browser := browser s |}.
Definition with_peerConnectionRef v s :=
  {| status := status s; isAgentSpeaking := isAgentSpeaking s; error := error s;
     peerConnectionRef := v; dataChannelRef := dataChannelRef s;
     localStreamRef := localStreamRef s; audioElementRef := audioElementRef s;
     navigationCallbacksRef := navigationCallbacksRef s; options := options s;
     tasks := tasks s; browser := browser s |}.
Definition with_dataChannelRef v s :=
  {| status := status s; isAgentSpeaking := isAgentSpeaking s; error := error s;
     peerConnectionRef := peerConnectionRef s; dataChannelRef := v;
     localStreamRef := localStreamRef s; audioElementRef := audioElementRef s;
     navigationCallbacksRef := navigationCallbacksRef s; options := options s;
     tasks := tasks s; browser := browser s |}.
Definition with_localStreamRef v s :=
  {| status := status s; isAgentSpeaking := isAgentSpeaking s; error := error s;
     peerConnectionRef := peerConnectionRef s; dataChannelRef := dataChannelRef s;
     localStreamRef := v; audioElementRef := audioElementRef s;
     navigationCallbacksRef := navigationCallbacksRef s; options := options s;
     tasks := tasks s; browser := browser s |}.
Definition with_audioElementRef v s :=
  {| status := status s; isAgentSpeaking := isAgentSpeaking s; error := error s;
     peerConnectionRef := peerConnectionRef s; dataChannelRef := dataChannelRef s;
     localStreamRef := localStreamRef s; audioElementRef := v;
     navigationCallbacksRef := navigationCallbacksRef s; options := options s;
     tasks := tasks s; browser := browser s |}.
Definition with_navigationCallbacksRef v s :=
  {| status := status s; isAgentSpeaking := isAgentSpeaking s; error := error s;
     peerConnectionRef := peerConnectionRef s; dataChannelRef := dataChannelRef s;
     localStreamRef := localStreamRef s; audioElementRef := audioElementRef s;
     navigationCallbacksRef := v; options := options s;
     tasks := tasks s; browser := browser s |}.
Definition with_tasks v s :=
  {| status := status s; isAgentSpeaking := isAgentSpeaking s; error := error s;
     peerConnectionRef := peerConnectionRef s; dataChannelRef := dataChannelRef s;
     localStreamRef := localStreamRef s; audioElementRef := audioElementRef s;
     navigationCallbacksRef := navigationCallbacksRef s; options := options s;
     tasks := v; browser := browser s |}.
Definition with_browser v s :=
  {| status := status s; isAgentSpeaking := isAgentSpeaking s; error := error s;
     peerConnectionRef := peerConnectionRef s; dataChannelRef := dataChannelRef s;
     localStreamRef := localStreamRef s; audioElementRef := audioElementRef s;
     navigationCallbacksRef := navigationCallbacksRef s; options := options s;
     tasks := tasks s; browser := v |}.

(** Run a browser action on the hook's store. *)
Definition lift {A} (m : Eff Store A) : Eff State A :=
  fun s => let '(c, b) := m (browser s) in (c, with_browser b s).

Definition setStatus (v : ConnectionStatus) : Eff State unit :=
  lift (emit (set_status v)) ;; modify (with_status v).
Definition setIsAgentSpeaking (v : bool) : Eff State unit :=
  lift (emit (set_is_agent_speaking v)) ;; modify (with_isAgentSpeaking v).
Definition setError (v : option Thrown) : Eff State unit :=
  lift (emit (set_error v)) ;; modify (with_error v).

(** onTranscript?.(...), onUserTranscript?.(...), onError?.(...) *)
Definition onTranscript (t : string) (isFinal : bool) : Eff State unit :=
  o <- gets options ;; when (has_onTranscript o) (lift (emit (on_transcript t isFinal))).
Definition onUserTranscript (t : string) : Eff State unit :=
  o <- gets options ;; when (has_onUserTranscript o) (lift (emit (on_user_transcript t))).
Definition onError (e : Thrown) : Eff State unit :=
  o <- gets options ;; when (has_onError o) (lift (emit (on_error e))).

Definition setNavigationCallbacks (callbacks : NavigationCallbacks) : Eff State unit :=
  modify (with_navigationCallbacksRef (Some callbacks)).

(** sendEvent: writes to the channel held by the ref if it is open,
    warns otherwise. *)
Definition sendEvent (event : ClientEvent) : Eff State unit :=
  ref <- gets dataChannelRef ;;
  match ref with
  | Some dc =>
      r <- gets (fun s => ready_state dc (browser s)) ;;
      if decide (r = rs_open) then lift (send dc event)
      else lift (emit (console_warn "Data channel not open, cannot send event:"))
  | None => lift (emit (console_warn "Data channel not open, cannot send event:"))
  end.

(** The text of [name] inside a template literal. *)
Definition name_text (name : option string) : string := default "undefined" name.

Definition navigated_next : string :=
  Json.stringify [("success", Json.JBool true); ("action", Json.JString "navigated_next")].
Definition navigated_previous : string :=
  Json.stringify [("success", Json.JBool true); ("action", Json.JString "navigated_previous")].
Definition navigation_not_available : string :=
  Json.stringify [("success", Json.JBool false); ("error", Json.JString "Navigation not available")].
Definition unknown_function (name : option string) : string :=
  Json.stringify [("error", Json.JString ("Unknown function: " +:+ name_text name))].

(** handleFunctionCall, lines 136-183. *)
Definition handleFunctionCall (name callId args : option string) : Eff State unit :=
  lift (emit (console_log "Function call:")) ;;
  result <-
    (if decide (name = Some TOOL_NAMES.GO_TO_NEXT_SLIDE) then
       cb <- gets navigationCallbacksRef ;;
       match cb with
       | Some _ => lift (emit go_to_next) ;; eff_ret navigated_next
       | None => eff_ret navigation_not_available
       end
     else if decide (name = Some TOOL_NAMES.GO_TO_PREVIOUS_SLIDE) then
       cb <- gets navigationCallbacksRef ;;
       match cb with
       | Some _ => lift (emit go_to_previous) ;; eff_ret navigated_previous
       | None => eff_ret navigation_not_available
       end
     else eff_ret (unknown_function name)) ;;
  sendEvent (conversation_item_create (function_call_output callId result)) ;;
  sendEvent response_create.

(** handleServerEvent, lines 69-133. *)
Definition handleServerEvent (event : ServerEvent) : Eff State unit :=
  match event with
  | session_created _ => lift (emit (console_log "Session created:"))
  | session_updated => lift (emit (console_log "Session updated"))
  | response_audio_delta _ => setIsAgentSpeaking true
  | response_audio_done => setIsAgentSpeaking false
  | response_audio_transcript_delta delta => onTranscript delta false
  | response_audio_transcript_done transcript => onTranscript transcript true
  | input_audio_transcription_completed transcript => onUserTranscript transcript
  | input_audio_buffer_speech_started => setIsAgentSpeaking false
  | response_output_item_done _ => eff_ret tt
  | response_done output =>
      setIsAgentSpeaking false ;;
      for_each output (fun item =>
        if decide (item_type item = item_function_call)
        then handleFunctionCall (item_name item) (item_call_id item) (item_arguments item)
        else eff_ret tt)
  | error_event m =>
      lift (emit (console_error "Realtime API error:")) ;;
      setError (Some (JsError m)) ;;
      onError (JsError m)
  | conversation_item_created
  | input_audio_buffer_speech_stopped
  | other_event _ => lift (emit (console_log "Unhandled event:"))
  end.

(** cleanup, lines 323-347. *)
Definition cleanup : Eff State unit :=
  dc <- gets dataChannelRef ;;
  match dc with
  | Some dc => lift (close_channel dc) ;; modify (with_dataChannelRef None)
  | None => eff_ret tt
  end ;;
  ls <- gets localStreamRef ;;
  match ls with
  | Some stream =>
      ts <- gets (fun s => get_tracks stream (browser s)) ;;
      for_each ts (fun t => lift (stop_track stream t)) ;;
      modify (with_localStreamRef None)
  | None => eff_ret tt
  end ;;
  pc <- gets peerConnectionRef ;;
  match pc with
  | Some pc => lift (close_peer pc) ;; modify (with_peerConnectionRef None)
  | None => eff_ret tt
  end ;;
  au <- gets audioElementRef ;;
  match au with
  | Some audio =>
      lift (emit (sink_detach audio)) ;;
      lift (set_src_object audio None) ;;
      modify (with_audioElementRef None)
  | None => eff_ret tt
  end.

(** disconnect, lines 350-355. *)
Definition disconnect : Eff State unit :=
  cleanup ;;
  setStatus disconnected ;;
  setIsAgentSpeaking false ;;
  setError None.

(** sendTextMessage, lines 358-379. *)
Definition sendTextMessage (text : string) : Eff State unit :=
  st <- gets status ;;
  if decide (st <> connected) then lift (emit (console_warn "Not connected"))
  else
    sendEvent (conversation_item_create (message user [input_text text])) ;;
    sendEvent response_create.

Definition CONTEXT_UPDATE : string := "[Context Update] ".

(** sendHint, lines 382-403. *)
Definition sendHint (msg : string) : Eff State unit :=
  st <- gets status ;;
  if decide (st <> connected) then eff_ret tt
  else
    sendEvent (conversation_item_create
                 (message user [input_text (CONTEXT_UPDATE +:+ msg)])).

(** updateInstructions, lines 406-419. *)
Definition updateInstructions (instructions : string) : Eff State unit :=
  st <- gets status ;;
  if decide (st <> connected) then lift (emit (console_warn "Not connected"))
  else sendEvent (session_update instructions).

(** *** connect, lines 186-320 *)

Definition CONNECTION_TIMEOUT_MS : N := 10000.

Definition set_stage (task : nat) (st : Stage) : Eff State unit :=
  modify (fun s => with_tasks (<[task := st]> (tasks s)) s).

Definition stage_of (task : nat) (s : State) : Stage :=
  default (finished None) (tasks s !! task).

(** The catch block, lines 309-317; the negotiation [task] ends there. *)
Definition connect_catch (task : nat) (err : Thrown) : Eff State unit :=
  lift (emit (console_error "Connection error:")) ;;
  setError (Some (as_error err)) ;;
  onError (as_error err) ;;
  setStatus disconnected ;;
  cleanup ;;
  set_stage task (finished (Some (as_error err))).

(** A segment of the try block: an abrupt completion enters the catch block. *)
Definition in_try (task : nat) (body : Eff State unit) : Eff State unit :=
  try_catch body (connect_catch task).

(** The call itself: the guard, then the code up to the first await. *)
Definition connect (instructions : string) (voice : VoiceOption) : Eff State unit :=
  st <- gets status ;;
  if decide (st <> disconnected)
  then lift (emit (console_warn "Already connected or connecting"))
  else
    setStatus connecting ;;
    setError None ;;
    task <- gets (fun s => length (tasks s)) ;;
    modify (fun s => with_tasks (tasks s ++ [awaiting_token_response]) s) ;;
    in_try task (lift (emit (fetch "/api/realtime-token"))).

(** The code between the await at which [task] is suspended and the next
    one, once the awaited promise settles with [v]. *)
Definition resume (task : nat) (stage : Stage) (v : Settlement) : Eff State unit :=
  match stage, v with
  | finished _, _ => eff_ret tt
  | awaiting_connection _ _, _ => eff_ret tt
  | _, rejected reason => connect_catch task reason
  | awaiting_token_response, fetch_response ok _ =>
      set_stage task (if ok then awaiting_token_body else awaiting_error_body)
  | awaiting_error_body, json_error_body f =>
      in_try task (throw (JsError (error_or_default f)))
  | awaiting_token_body, json_token_body token =>
      in_try task (
        pc <- lift new_peer_connection ;;
        modify (with_peerConnectionRef (Some pc)) ;;
        audio <- lift create_audio ;;
        lift (set_autoplay audio true) ;;
        modify (with_audioElementRef (Some audio)) ;;
        lift (set_ontrack pc audio) ;;
        lift (emit get_user_media) ;;
        set_stage task (awaiting_user_media pc))
  | awaiting_user_media pc, media_granted n =>
      in_try task (
        stream <- lift (new_stream n) ;;
        modify (with_localStreamRef (Some stream)) ;;
        ts <- gets (fun s => get_tracks stream (browser s)) ;;
        for_each ts (fun t => lift (add_track pc stream t)) ;;
        dc <- lift (create_data_channel pc) ;;
        modify (with_dataChannelRef (Some dc)) ;;
        lift (emit (create_offer pc)) ;;
        set_stage task (awaiting_offer pc))
  | awaiting_offer pc, fulfilled =>
      in_try task (
        lift (emit (set_local_description pc)) ;;
        set_stage task (awaiting_local_description pc))
  | awaiting_local_description pc, fulfilled =>
      in_try task (
        lift (emit (fetch (OPENAI_REALTIME_URL +:+ "?model=" +:+ MODEL))) ;;
        set_stage task (awaiting_sdp_response pc))
  | awaiting_sdp_response pc, fetch_response ok code =>
      in_try task (
        if ok then set_stage task (awaiting_answer_text pc)
        else throw (JsError ("SDP exchange failed: " +:+ Json.of_N code)))
  | awaiting_answer_text pc, answer_text sdp =>
      in_try task (
        lift (emit (set_remote_description pc)) ;;
        set_stage task (awaiting_remote_description pc))
  | awaiting_remote_description pc, fulfilled =>
      in_try task (
        timer <- lift (set_timer CONNECTION_TIMEOUT_MS (reject_task task)) ;;
        lift (add_state_listener pc task timer) ;;
        set_stage task (awaiting_connection pc timer))
  | _, _ => eff_ret tt
  end.

(** The connectionstatechange listener, lines 294-305, registered by the
    negotiation [task] whose deadline is [timer].  resolve and reject
    have no effect once the promise is settled. *)
Definition on_connection_state_change (st : PcState) (l : nat * nat) : Eff State unit :=
  stage <- gets (stage_of (fst l)) ;;
  match st with
  | pc_connected =>
      lift (clear_timer (snd l)) ;;
      when (is_waiting stage) (
        lift (emit (console_log "WebRTC connection established")) ;;
        set_stage (fst l) (finished None))
  | pc_failed | pc_disconnected =>
      lift (clear_timer (snd l)) ;;
      when (is_waiting stage)
        (connect_catch (fst l) (JsError ("Connection failed: " +:+ pc_state_name st)))
  | _ => eff_ret tt
  end.

(** The deadline of lines 290-292 fires. *)
Definition on_timeout (task : nat) : Eff State unit :=
  stage <- gets (stage_of task) ;;
  when (is_waiting stage) (connect_catch task (JsError "Connection timeout")).

(** The data channel listeners, lines 241-258. *)
Definition on_channel_open : Eff State unit :=
  lift (emit (console_log "Data channel opened")) ;;
  setStatus connected.

(** [None] is a payload that JSON.parse rejects. *)
Definition on_channel_message (data : option ServerEvent) : Eff State unit :=
  try_catch
    match data with
    | Some ev => handleServerEvent ev
    | None => throw (JsError "SyntaxError")
    end
    (fun _ => lift (emit (console_error "Failed to parse server event:"))).

Definition on_channel_close : Eff State unit :=
  lift (emit (console_log "Data channel closed")) ;;
  setStatus disconnected.

(** *** The event loop *)

(** What can happen to the hook: the host calls one of the returned
    functions, or the browser runs a continuation or a listener. *)
Inductive Event :=
| call_connect (instructions : string) (voice : VoiceOption)
| call_disconnect
| call_sendTextMessage (text : string)
| call_sendHint (msg : string)
| call_updateInstructions (instructions : string)
| call_setNavigationCallbacks (callbacks : NavigationCallbacks)
| settle (task : nat) (v : Settlement)
| timer_fired (timer : nat)
| connection_state_change (pc : nat) (st : PcState)
| channel_opened (dc : nat)
| channel_message (dc : nat) (data : option ServerEvent)
| channel_closed (dc : nat)
| track_received (pc stream : nat).

Definition set_connection_state (st : PcState) (p : PeerConnection) : PeerConnection :=
  {| pc_isClosed := pc_isClosed p; connectionState := st;
     ontrack := ontrack p; listeners := listeners p |}.

(** One turn of the event loop.  The browser only delivers what the state
    of its objects allows: a channel opens once, from "connecting";
    messages arrive on an open channel; a channel closes once; a pending
    timer fires once; a closed peer connection is silent. *)
Definition step (e : Event) : Eff State unit :=
  match e with
  | call_connect instructions voice => connect instructions voice
  | call_disconnect => disconnect
  | call_sendTextMessage text => sendTextMessage text
  | call_sendHint msg => sendHint msg
  | call_updateInstructions instructions => updateInstructions instructions
  | call_setNavigationCallbacks callbacks => setNavigationCallbacks callbacks
  | settle task v =>
      stage <- gets (stage_of task) ;;
      resume task stage v
  | timer_fired timer =>
      t <- gets (fun s => timers (browser s) !! timer) ;;
      match t with
      | Some t =>
          if timer_pending t then
            lift (modify (fun b => with_timers (alter retire_timer timer (timers b)) b)) ;;
            match timer_action t with
            | reject_task task => on_timeout task
            | trigger_response _ => eff_ret tt
            end
          else eff_ret tt
      | None => eff_ret tt
      end
  | connection_state_change pc st =>
      p <- gets (fun s => peers (browser s) !! pc) ;;
      match p with
      | Some p =>
          if pc_isClosed p then eff_ret tt
          else
            lift (update_peer pc (set_connection_state st)) ;;
            for_each (listeners p) (on_connection_state_change st)
      | None => eff_ret tt
      end
  | channel_opened dc =>
      r <- gets (fun s => channels (browser s) !! dc) ;;
      match r with
      | Some rs_connecting => lift (set_ready_state dc rs_open) ;; on_channel_open
      | _ => eff_ret tt
      end
  | channel_message dc data =>
      r <- gets (fun s => channels (browser s) !! dc) ;;
      match r with
      | Some rs_open => on_channel_message data
      | _ => eff_ret tt
      end
  | channel_closed dc =>
      r <- gets (fun s => channels (browser s) !! dc) ;;
      match r with
      | Some rs_closed | None => eff_ret tt
      | Some _ => lift (set_ready_state dc rs_closed) ;; on_channel_close
      end
  | track_received pc stream =>
      p <- gets (fun s => peers (browser s) !! pc) ;;
      match p with
      | Some p =>
          match pc_isClosed p, ontrack p with
          | false, Some audio => lift (set_src_object audio (Some stream))
          | _, _ => eff_ret tt
          end
      | None => eff_ret tt
      end
  end.

Definition run (evs : list Event) (s : State) : State :=
  foldl (fun s e => exec_state (step e) s) s evs.

(** *** Observations *)

(** The actions a computation adds to the trace. *)
Definition effects_of {A} (m : Eff State A) (s : State) : list Effect :=
  drop (length (trace (browser s))) (trace (browser (exec_state m s))).

(** The state [s] after the actions [l], and nothing else, happened. *)
Definition log (l : list Effect) (s : State) : State :=
  with_browser (with_trace (trace (browser s) ++ l) (browser s)) s.

(** The ref holds an open channel. *)
Definition channel_of (s : State) : option nat :=
  match dataChannelRef s with
  | Some dc => if decide (ready_state dc (browser s) = rs_open) then Some dc else None
  | None => None
  end.

Definition is_navigation (e : Effect) : bool :=
  match e with
  | go_to_next | go_to_previous => true
  | _ => false
  end.

Definition is_trigger (ev : ClientEvent) : bool :=
  match ev with
  | response_create => true
  | _ => false
  end.

Definition is_call_output (ev : ClientEvent) : bool :=
  match ev with
  | conversation_item_create (function_call_output _ _) => true
  | _ => false
  end.

Definition is_function_call (item : OutputItem) : bool :=
  bool_decide (item_type item = item_function_call).



(** What handleFunctionCall answers and which callback it invokes, as
    functions of the callbacks ref and of the tool name. *)
Definition tool_result (cb : option NavigationCallbacks) (name : option string) : string :=
  if decide (name = Some TOOL_NAMES.GO_TO_NEXT_SLIDE) then
    match cb with Some _ => navigated_next | None => navigation_not_available end
  else if decide (name = Some TOOL_NAMES.GO_TO_PREVIOUS_SLIDE) then
    match cb with Some _ => navigated_previous | None => navigation_not_available end
  else unknown_function name.

Definition tool_action (cb : option NavigationCallbacks) (name : option string) : list Effect :=
  if decide (name = Some TOOL_NAMES.GO_TO_NEXT_SLIDE) then
    match cb with Some _ => [go_to_next] | None => [] end
  else if decide (name = Some TOOL_NAMES.GO_TO_PREVIOUS_SLIDE) then
    match cb with Some _ => [go_to_previous] | None => [] end
  else [].

(** The two events that answer one function-call item. *)
Definition answer (cb : option NavigationCallbacks) (item : OutputItem) : list ClientEvent :=
  if is_function_call item then
    [conversation_item_create
       (function_call_output (item_call_id item) (tool_result cb (item_name item)));
     response_create]
  else [].

(** Events the browser delivers, as opposed to calls of the host. *)
Definition is_host_call (e : Event) : bool :=
  match e with
  | call_connect _ _ | call_disconnect | call_sendTextMessage _ | call_sendHint _
  | call_updateInstructions _ | call_setNavigationCallbacks _ => true
  | _ => false
  end.

(** A response.done message delivered on a channel. *)
Definition is_response_done (e : Event) : bool :=
  match e with
  | channel_message _ (Some (response_done _)) => true
  | _ => false
  end.

(** *** Ownership of the browser objects *)

Definition refs_none (s : State) : Prop :=
  peerConnectionRef s = None /\ dataChannelRef s = None
  /\ localStreamRef s = None /\ audioElementRef s = None.

(** Every channel on which close() was not called is the one in the ref. *)
Definition channels_owned (s : State) : Prop :=
  forall i r, channels (browser s) !! i = Some r ->
    channel_is_live r = true -> dataChannelRef s = Some i.

(** Every stream with a live track is the one in the ref. *)
Definition streams_owned (s : State) : Prop :=
  forall i ts, streams (browser s) !! i = Some ts ->
    true ∈ ts -> localStreamRef s = Some i.

(** Every peer connection that is not closed is the one in the ref; it
    feeds the audio element in the ref, and its listeners belong to the
    negotiation [t]. *)
Definition peers_owned (t : nat) (s : State) : Prop :=
  forall i p, peers (browser s) !! i = Some p -> pc_isClosed p = false ->
    peerConnectionRef s = Some i
    /\ (forall a, ontrack p = Some a -> audioElementRef s = Some a)
    /\ (forall l, l ∈ listeners p -> fst l = t).

(** Every audio element with a source is the one in the ref. *)
Definition audios_owned (s : State) : Prop :=
  forall i a, audios (browser s) !! i = Some a ->
    is_Some (srcObject a) -> audioElementRef s = Some i.

Definition refs_own_store (t : nat) (s : State) : Prop :=
  channels_owned s /\ streams_owned s /\ peers_owned t s /\ audios_owned s.

(** No negotiation but [t] is in flight. *)
Definition others_finished (t : nat) (s : State) : Prop :=
  forall t', t' <> t -> exists f, stage_of t' s = finished f.

(** What holds while the negotiation [t] is at stage [st]: the refs that
    are still empty, the deadline it armed, and what a failure leaves. *)
Definition facts_at (t : nat) (st : Stage) (s : State) : Prop :=
  match st with
  | awaiting_token_response | awaiting_error_body | awaiting_token_body => refs_none s
  | awaiting_user_media _ => dataChannelRef s = None /\ localStreamRef s = None
  | awaiting_connection _ timer =>
      timers (browser s) !! timer
      = Some {| timer_delay := CONNECTION_TIMEOUT_MS; timer_pending := true;
                timer_action := reject_task t |}
  | finished (Some err) =>
      refs_none s /\ status s = disconnected /\ error s = Some err
  | _ => True
  end.

Definition stage_facts (t : nat) (s : State) : Prop := facts_at t (stage_of t s) s.

Definition negotiating (t : nat) (s : State) : Prop :=
  refs_own_store t s /\ others_finished t s /\ stage_facts t s
  /\ t < length (tasks s).

(** A hook at rest: disconnected, no negotiation in flight, nothing held
    and nothing left open. *)
Definition idle (s : State) : Prop :=
  status s = disconnected
  /\ refs_none s
  /\ (forall t, exists f, stage_of t s = finished f)
  /\ live_channels (browser s) = 0
  /\ live_tracks (browser s) = 0
  /\ open_peers (browser s) = 0
  /\ attached_sinks (browser s) = 0.

(** The actions by which the catch block surfaces [err], in order. *)
Definition surfacing (has_observer : bool) (err : Thrown) : list Effect :=
  [console_error "Connection error:"; set_error (Some err)]
  ++ (if has_observer then [on_error err] else [])
  ++ [set_status disconnected].

Arguments lift {A} m s /.
Arguments setStatus v s /.
Arguments setIsAgentSpeaking v s /.
Arguments setError v s /.
Arguments set_stage task st s /.
Arguments sendEvent : simpl never.
Arguments handleFunctionCall : simpl never.
Arguments handleServerEvent : simpl never.
Arguments cleanup : simpl never.
Arguments connect_catch : simpl never.
Arguments sendTextMessage : simpl never.
Arguments sendHint : simpl never.
Arguments updateInstructions : simpl never.
Arguments stage_of : simpl never.

End Connection.

(** ** VoiceAgentProvider *)

Module Coordinator.
Import Browser.
Local Open Scope eff_scope.

(** Slide numbers are modelled as integers. *)
Record SlideMetadata := {
  id : string;
  title : string;
  slideNumber : Z;
  totalSlides : Z;
}.

Definition of_Z (z : Z) : string := NilZero.string_of_int (Z.to_int z).

Record State := {
  currentSlideRef : option SlideMetadata;
  slideOverviewRef : list (string * string);
  modeRef : InteractionMode;
  personaRef : PersonaType;
  hasGreetedRef : bool;
  conn : Connection.State;
}.

(** The provider passes all three observers to the hook. *)
Definition provider_options : Connection.Options :=
  {| Connection.has_onTranscript := true;
     Connection.has_onUserTranscript := true;
     Connection.has_onError := true |}.

Definition initial : State :=
  {| currentSlideRef := None; slideOverviewRef := []; modeRef := dialogue;
     personaRef := guide; hasGreetedRef := false;
     conn := Connection.initial provider_options |}.

Definition with_currentSlideRef v s :=
  {| currentSlideRef := v; slideOverviewRef := slideOverviewRef s; modeRef := modeRef s;
     personaRef := personaRef s; hasGreetedRef := hasGreetedRef s; conn := conn s |}.
Definition with_slideOverviewRef v s :=
  {| currentSlideRef := currentSlideRef s; slideOverviewRef := v; modeRef := modeRef s;
     personaRef := personaRef s; hasGreetedRef := hasGreetedRef s; conn := conn s |}.
Definition with_modeRef v s :=
  {| currentSlideRef := currentSlideRef s; slideOverviewRef := slideOverviewRef s; modeRef := v;
     personaRef := personaRef s; hasGreetedRef := hasGreetedRef s; conn := conn s |}.
Definition with_personaRef v s :=
  {| currentSlideRef := currentSlideRef s; slideOverviewRef := slideOverviewRef s; modeRef := modeRef s;
     personaRef := v; hasGreetedRef := hasGreetedRef s; conn := conn s |}.
Definition with_hasGreetedRef v s :=
  {| currentSlideRef := currentSlideRef s; slideOverviewRef := slideOverviewRef s; modeRef := modeRef s;
     personaRef := personaRef s; hasGreetedRef := v; conn := conn s |}.
Definition with_conn v s :=
  {| currentSlideRef := currentSlideRef s; slideOverviewRef := slideOverviewRef s; modeRef := modeRef s;
     personaRef := personaRef s; hasGreetedRef := hasGreetedRef s; conn := v |}.

(** Run a function of the hook on the provider's hook instance. *)
Definition hook {A} (m : Eff Connection.State A) : Eff State A :=
  fun s => let '(c, k) := m (conn s) in (c, with_conn k s).

Definition status (s : State) : ConnectionStatus := Connection.status (conn s).
Definition trace (s : State) : list Effect := Browser.trace (Connection.browser (conn s)).

Definition WAITING_INSTRUCTIONS : string :=
  "You are a helpful presentation assistant. Wait for the presentation to load.".

Definition greetingPrompt (slide : SlideMetadata) (mode : InteractionMode)
    (config : PersonaConfig) : string :=
  match mode with
  | presenter =>
      "You've just connected to present. The user is on slide " +:+ of_Z (slideNumber slide)
      +:+ ": " +:+ Json.quoted (title slide) +:+ ". "
      +:+ "Greet them " +:+ greetingStyle config +:+ ", then begin presenting this slide."
  | dialogue =>
      "You've just connected for a conversation. The user is on slide "
      +:+ of_Z (slideNumber slide) +:+ ": " +:+ Json.quoted (title slide) +:+ ". "
      +:+ "Greet them " +:+ greetingStyle config
      +:+ ", then start a conversation about this slide - ask them a question to kick things off. "
      +:+ "Remember: this is a dialogue, not a presentation. Draw out their thinking."
  | assistant_mode =>
      "You've just connected as an assistant. The user is on slide "
      +:+ of_Z (slideNumber slide) +:+ ": " +:+ Json.quoted (title slide) +:+ ". "
      +:+ "Greet them " +:+ greetingStyle config
      +:+ " and let them know you're here if they have any questions. "
      +:+ "Don't start explaining - wait for them to ask or comment."
  end.

Definition navigated_to (metadata : SlideMetadata) : string :=
  "User navigated to slide " +:+ of_Z (slideNumber metadata) +:+ " of "
  +:+ of_Z (totalSlides metadata) +:+ ": " +:+ Json.quoted (title metadata) +:+ ". ".

Definition slideChangeHint (metadata : SlideMetadata) (mode : InteractionMode) : string :=
  match mode with
  | presenter =>
      navigated_to metadata +:+ "Transition smoothly to presenting this new slide."
  | dialogue =>
      navigated_to metadata
      +:+ "Continue the conversation naturally - perhaps connect this to what you were just discussing, or ask what catches their eye."
  | assistant_mode =>
      navigated_to metadata
      +:+ "They're exploring. Don't explain unless they ask - just acknowledge briefly if at all."
  end.

Section WithInstructions.

(** The instruction synthesizer of instructions.ts, applied to the slide
    context it looks up for the slide: an opaque text producer. *)
Variable buildInstructions :
  SlideMetadata -> list (string * string) -> InteractionMode -> PersonaType -> string.

(** buildCurrentInstructions, lines 91-103. *)
Definition buildCurrentInstructions (s : State) : string :=
  match currentSlideRef s, slideOverviewRef s with
  | Some slide, _ :: _ =>
      buildInstructions slide (slideOverviewRef s) (modeRef s) (personaRef s)
  | _, _ => WAITING_INSTRUCTIONS
  end.

(** setMode, lines 106-116. *)
Definition setMode (newMode : InteractionMode) : Eff State unit :=
  modify (with_modeRef newMode) ;;
  st <- gets status ;;
  if decide (st = connected) then
    instructions <- gets buildCurrentInstructions ;;
    hook (Connection.updateInstructions instructions)
  else eff_ret tt.

(** setPersona, lines 119-129. *)
Definition setPersona (newPersona : PersonaType) : Eff State unit :=
  modify (with_personaRef newPersona) ;;
  st <- gets status ;;
  if decide (st = connected) then
    instructions <- gets buildCurrentInstructions ;;
    hook (Connection.updateInstructions instructions)
  else eff_ret tt.

(** startSession, lines 132-137; nothing follows the awaited connect. *)
Definition startSession : Eff State unit :=
  instructions <- gets buildCurrentInstructions ;;
  persona <- gets personaRef ;;
  modify (with_hasGreetedRef false) ;;
  hook (Connection.connect instructions (voice (getPersonaConfig persona))).

(** endSession, lines 140-143. *)
Definition endSession : Eff State unit :=
  hook Connection.disconnect ;;
  modify (with_hasGreetedRef false).

(** The greeting effect, lines 146-169. *)
Definition greeting_effect : Eff State unit :=
  st <- gets status ;;
  greeted <- gets hasGreetedRef ;;
  if bool_decide (st = connected) && negb greeted then
    modify (with_hasGreetedRef true) ;;
    currentSlide <- gets currentSlideRef ;;
    mode <- gets modeRef ;;
    persona <- gets personaRef ;;
    match currentSlide with
    | Some slide =>
        hook (Connection.sendTextMessage
                (greetingPrompt slide mode (getPersonaConfig persona)))
    | None => eff_ret tt
    end
  else eff_ret tt.

(** setCurrentSlide, lines 172-199. *)
Definition setCurrentSlide (metadata : SlideMetadata) : Eff State unit :=
  previousSlide <- gets currentSlideRef ;;
  modify (with_currentSlideRef (Some metadata)) ;;
  st <- gets status ;;
  if decide (st = connected) then
    instructions <- gets buildCurrentInstructions ;;
    hook (Connection.updateInstructions instructions) ;;
    match previousSlide with
    | Some previous =>
        if decide (slideNumber previous <> slideNumber metadata) then
          mode <- gets modeRef ;;
          hook (Connection.sendHint (slideChangeHint metadata mode))
        else eff_ret tt
    | None => eff_ret tt
    end
  else eff_ret tt.

(** setSlideOverview, lines 202-204. *)
Definition setSlideOverview (slides : list (string * string)) : Eff State unit :=
  modify (with_slideOverviewRef slides).

(** registerNavigationCallbacks, lines 207-212. *)
Definition registerNavigationCallbacks (callbacks : Connection.NavigationCallbacks)
  : Eff State unit :=
  hook (Connection.setNavigationCallbacks callbacks).

(** The wrapped sendHint and sendTextMessage, lines 215-232. *)
Definition sendHint (msg : string) : Eff State unit :=
  st <- gets status ;;
  if decide (st = connected) then hook (Connection.sendHint msg) else eff_ret tt.

Definition sendTextMessage (text : string) : Eff State unit :=
  st <- gets status ;;
  if decide (st = connected) then hook (Connection.sendTextMessage text) else eff_ret tt.

(** What can happen to the provider: a call through the context value,
    or something the browser delivers to the hook. *)
Inductive Event :=
| call_startSession
| call_endSession
| call_setMode (mode : InteractionMode)
| call_setPersona (persona : PersonaType)
| call_setCurrentSlide (metadata : SlideMetadata)
| call_setSlideOverview (slides : list (string * string))
| call_registerNavigationCallbacks (callbacks : Connection.NavigationCallbacks)
| call_sendHint (msg : string)
| call_sendTextMessage (text : string)
| settle (task : nat) (v : Negotiation.Settlement)
| timer_fired (timer : nat)
| connection_state_change (pc : nat) (st : PcState)
| channel_opened (dc : nat)
| channel_message (dc : nat) (data : option ServerEvent)
| channel_closed (dc : nat)
| track_received (pc stream : nat).

Definition handle (e : Event) : Eff State unit :=
  match e with
  | call_startSession => startSession
  | call_endSession => endSession
  | call_setMode mode => setMode mode
  | call_setPersona persona => setPersona persona
  | call_setCurrentSlide metadata => setCurrentSlide metadata
  | call_setSlideOverview slides => setSlideOverview slides
  | call_registerNavigationCallbacks callbacks => registerNavigationCallbacks callbacks
  | call_sendHint msg => sendHint msg
  | call_sendTextMessage text => sendTextMessage text
  | settle task v => hook (Connection.step (Connection.settle task v))
  | timer_fired timer => hook (Connection.step (Connection.timer_fired timer))
  | connection_state_change pc st =>
      hook (Connection.step (Connection.connection_state_change pc st))
  | channel_opened dc => hook (Connection.step (Connection.channel_opened dc))
  | channel_message dc data => hook (Connection.step (Connection.channel_message dc data))
  | channel_closed dc => hook (Connection.step (Connection.channel_closed dc))
  | track_received pc stream => hook (Connection.step (Connection.track_received pc stream))
  end.

(** The render that follows a handler: the greeting effect depends on
    [status] and on the hook's sendTextMessage, whose identity changes
    exactly when [status] does, so it runs when [status] changed. *)
Definition commit (before : ConnectionStatus) : Eff State unit :=
  st <- gets status ;;
  if decide (st = before) then eff_ret tt else greeting_effect.

Definition turn (e : Event) (s : State) : State :=
  exec_state (commit (status s)) (exec_state (handle e) s).

Definition run (evs : list Event) (s : State) : State := foldl (fun s e => turn e s) s evs.



(** The actions a computation adds to the trace. *)
Definition effects_of {A} (m : Eff State A) (s : State) : list Effect :=
  drop (length (trace s)) (trace (exec_state m s)).

End WithInstructions.


(** The state [s] after the hook emitted [l], and nothing else happened. *)
Definition logged (l : list Effect) (s : State) : State :=
  with_conn (Connection.log l (conn s)) s.

(** The control channel the hook would write to. *)
Definition channel_of (s : State) : option nat := Connection.channel_of (conn s).


Arguments hook {A} m s /.
Arguments status s /.
Arguments trace s /.
Arguments channel_of s /.

End Coordinator.

(** ** useAuditionSession *)

Module Audition.
Import Browser Negotiation.
Local Open Scope eff_scope.

Record State := {
  status : ConnectionStatus;
  activePersona : option PersonaType;
  isAgentSpeaking : bool;
  error : option Thrown;
  peerConnectionRef : option nat;
  dataChannelRef : option nat;
  localStreamRef : option nat;
  audioElementRef : option nat;
  tasks : list Stage;
  browser : Store;
}.

Definition initial : State :=
  {| status := disconnected; activePersona := None; isAgentSpeaking := false;
     error := None; peerConnectionRef := None; dataChannelRef := None;
     localStreamRef := None; audioElementRef := None; tasks := [];
     browser := Browser.empty |}.

Definition with_status v s :=
  {| status := v; activePersona := activePersona s; isAgentSpeaking := isAgentSpeaking s;
     error := error s; peerConnectionRef := peerConnectionRef s;
     dataChannelRef := dataChannelRef s; localStreamRef := localStreamRef s;
     audioElementRef := audioElementRef s; tasks := tasks s; browser := browser s |}.
Definition with_activePersona v s :=
  {| status := status s; activePersona := v; isAgentSpeaking := isAgentSpeaking s;
     error := error s; peerConnectionRef := peerConnectionRef s;
     dataChannelRef := dataChannelRef s; localStreamRef := localStreamRef s;
     audioElementRef := audioElementRef s; tasks := tasks s; browser := browser s |}.
Definition with_isAgentSpeaking v s :=
  {| status := status s; activePersona := activePersona s; isAgentSpeaking := v;
     error := error s; peerConnectionRef := peerConnectionRef s;
     dataChannelRef := dataChannelRef s; localStreamRef := localStreamRef s;
     audioElementRef := audioElementRef s; tasks := tasks s; browser := browser s |}.
Definition with_error v s :=
  {| status := status s; activePersona := activePersona s; isAgentSpeaking := isAgentSpeaking s;
     error := v; peerConnectionRef := peerConnectionRef s;
     dataChannelRef := dataChannelRef s; localStreamRef := localStreamRef s;
     audioElementRef := audioElementRef s; tasks := tasks s; browser := browser s |}.
Definition with_peerConnectionRef v s :=
  {| status := status s; activePersona := activePersona s; isAgentSpeaking := isAgentSpeaking s;
     error := error s; peerConnectionRef := v;
     dataChannelRef := dataChannelRef s; localStreamRef := localStreamRef s;
     audioElementRef := audioElementRef s; tasks := tasks s; browser := browser s |}.
Definition with_dataChannelRef v s :=
  {| status := status s; activePersona := activePersona s; isAgentSpeaking := isAgentSpeaking s;
     error := error s; peerConnectionRef := peerConnectionRef s;
     dataChannelRef := v; localStreamRef := localStreamRef s;
     audioElementRef := audioElementRef s; tasks := tasks s; browser := browser s |}.
Definition with_localStreamRef v s :=
  {| status := status s; activePersona := activePersona s; isAgentSpeaking := isAgentSpeaking s;
     error := error s; peerConnectionRef := peerConnectionRef s;
     dataChannelRef := dataChannelRef s; localStreamRef := v;
     audioElementRef := audioElementRef s; tasks := tasks s; browser := browser s |}.
Definition with_audioElementRef v s :=
  {| status := status s; activePersona := activePersona s; isAgentSpeaking := isAgentSpeaking s;
     error := error s; peerConnectionRef := peerConnectionRef s;
     dataChannelRef := dataChannelRef s; localStreamRef := localStreamRef s;
     audioElementRef := v; tasks := tasks s; browser := browser s |}.
Definition with_tasks v s :=
  {| status := status s; activePersona := activePersona s; isAgentSpeaking := isAgentSpeaking s;
     error := error s; peerConnectionRef := peerConnectionRef s;
     dataChannelRef := dataChannelRef s; localStreamRef := localStreamRef s;
     audioElementRef := audioElementRef s; tasks := v; browser := browser s |}.
Definition with_browser v s :=
  {| status := status s; activePersona := activePersona s; isAgentSpeaking := isAgentSpeaking s;
     error := error s; peerConnectionRef := peerConnectionRef s;
     dataChannelRef := dataChannelRef s; localStreamRef := localStreamRef s;
     audioElementRef := audioElementRef s; tasks := tasks s; browser := v |}.

Definition lift {A} (m : Eff Store A) : Eff State A :=
  fun s => let '(c, b) := m (browser s) in (c, with_browser b s).

Definition setStatus (v : ConnectionStatus) : Eff State unit :=
  lift (emit (set_status v)) ;; modify (with_status v).
Definition setActivePersona (v : option PersonaType) : Eff State unit :=
  lift (emit (set_active_persona v)) ;; modify (with_activePersona v).
Definition setIsAgentSpeaking (v : bool) : Eff State unit :=
  lift (emit (set_is_agent_speaking v)) ;; modify (with_isAgentSpeaking v).
Definition setError (v : option Thrown) : Eff State unit :=
  lift (emit (set_error v)) ;; modify (with_error v).

(** handleServerEvent, lines 30-50: a switch without default. *)
Definition handleServerEvent (event : ServerEvent) : Eff State unit :=
  match event with
  | session_created _ => lift (emit (console_log "Audition session created:"))
  | response_audio_delta _ => setIsAgentSpeaking true
  | response_audio_done
  | response_done _ => setIsAgentSpeaking false
  | input_audio_buffer_speech_started => setIsAgentSpeaking false
  | error_event m =>
      lift (emit (console_error "Audition error:")) ;;
      setError (Some (JsError m))
  | _ => eff_ret tt
  end.

(** cleanup, lines 52-69. *)
Definition cleanup : Eff State unit :=
  dc <- gets dataChannelRef ;;
  match dc with
  | Some dc => lift (close_channel dc) ;; modify (with_dataChannelRef None)
  | None => eff_ret tt
  end ;;
  ls <- gets localStreamRef ;;
  match ls with
  | Some stream =>
      ts <- gets (fun s => get_tracks stream (browser s)) ;;
      for_each ts (fun t => lift (stop_track stream t)) ;;
      modify (with_localStreamRef None)
  | None => eff_ret tt
  end ;;
  pc <- gets peerConnectionRef ;;
  match pc with
  | Some pc => lift (close_peer pc) ;; modify (with_peerConnectionRef None)
  | None => eff_ret tt
  end ;;
  au <- gets audioElementRef ;;
  match au with
  | Some audio =>
      lift (emit (sink_detach audio)) ;;
      lift (set_src_object audio None) ;;
      modify (with_audioElementRef None)
  | None => eff_ret tt
  end.

Definition OPENAI_REALTIME_URL : string := "https://api.openai.com/v1/realtime".
Definition MODEL : string := "gpt-realtime".
Definition CONNECTION_TIMEOUT_MS : N := 10000.
Definition KICKOFF_DELAY_MS : N := 100.

Definition set_stage (task : nat) (st : Stage) : Eff State unit :=
  modify (fun s => with_tasks (<[task := st]> (tasks s)) s).

Definition stage_of (task : nat) (s : State) : Stage :=
  default (finished None) (tasks s !! task).

(** The catch block, lines 187-194. *)
Definition audition_catch (task : nat) (err : Thrown) : Eff State unit :=
  lift (emit (console_error "Audition connection error:")) ;;
  setError (Some (as_error err)) ;;
  setStatus disconnected ;;
  setActivePersona None ;;
  cleanup ;;
  set_stage task (finished (Some (as_error err))).

Definition in_try (task : nat) (body : Eff State unit) : Eff State unit :=
  try_catch body (audition_catch task).

(** startAudition, lines 71-195: the call itself, up to the first await. *)
Definition startAudition (persona : PersonaType) : Eff State unit :=
  st <- gets status ;;
  (if decide (st <> disconnected) then cleanup else eff_ret tt) ;;
  setStatus connecting ;;
  setActivePersona (Some persona) ;;
  setError None ;;
  task <- gets (fun s => length (tasks s)) ;;
  modify (fun s => with_tasks (tasks s ++ [awaiting_token_response]) s) ;;
  in_try task (lift (emit (fetch "/api/realtime-token"))).

(** The code between two awaits of startAudition. *)
Definition resume (task : nat) (stage : Stage) (v : Settlement) : Eff State unit :=
  match stage, v with
  | finished _, _ => eff_ret tt
  | awaiting_connection _ _, _ => eff_ret tt
  | _, rejected reason => audition_catch task reason
  | awaiting_token_response, fetch_response ok _ =>
      set_stage task (if ok then awaiting_token_body else awaiting_error_body)
  | awaiting_error_body, json_error_body f =>
      in_try task (throw (JsError (error_or_default f)))
  | awaiting_token_body, json_token_body token =>
      in_try task (
        pc <- lift new_peer_connection ;;
        modify (with_peerConnectionRef (Some pc)) ;;
        audio <- lift create_audio ;;
        lift (set_autoplay audio true) ;;
        modify (with_audioElementRef (Some audio)) ;;
        lift (set_ontrack pc audio) ;;
        lift (emit get_user_media) ;;
        set_stage task (awaiting_user_media pc))
  | awaiting_user_media pc, media_granted n =>
      in_try task (
        stream <- lift (new_stream n) ;;
        modify (with_localStreamRef (Some stream)) ;;
        ts <- gets (fun s => get_tracks stream (browser s)) ;;
        for_each ts (fun t => lift (add_track pc stream t)) ;;
        dc <- lift (create_data_channel pc) ;;
        modify (with_dataChannelRef (Some dc)) ;;
        lift (emit (create_offer pc)) ;;
        set_stage task (awaiting_offer pc))
  | awaiting_offer pc, fulfilled =>
      in_try task (
        lift (emit (set_local_description pc)) ;;
        set_stage task (awaiting_local_description pc))
  | awaiting_local_description pc, fulfilled =>
      in_try task (
        lift (emit (fetch (OPENAI_REALTIME_URL +:+ "?model=" +:+ MODEL))) ;;
        set_stage task (awaiting_sdp_response pc))
  | awaiting_sdp_response pc, fetch_response ok code =>
      in_try task (
        if ok then set_stage task (awaiting_answer_text pc)
        else throw (JsError ("SDP exchange failed: " +:+ Json.of_N code)))
  | awaiting_answer_text pc, answer_text sdp =>
      in_try task (
        lift (emit (set_remote_description pc)) ;;
        set_stage task (awaiting_remote_description pc))
  | awaiting_remote_description pc, fulfilled =>
      in_try task (
        timer <- lift (set_timer CONNECTION_TIMEOUT_MS (reject_task task)) ;;
        lift (add_state_listener pc task timer) ;;
        set_stage task (awaiting_connection pc timer))
  | _, _ => eff_ret tt
  end.

(** The connectionstatechange listener, lines 175-183. *)
Definition on_connection_state_change (st : PcState) (l : nat * nat) : Eff State unit :=
  stage <- gets (stage_of (fst l)) ;;
  match st with
  | pc_connected =>
      lift (clear_timer (snd l)) ;;
      when (is_waiting stage) (
        lift (emit (console_log "Audition connection established for")) ;;
        set_stage (fst l) (finished None))
  | pc_failed | pc_disconnected =>
      lift (clear_timer (snd l)) ;;
      when (is_waiting stage)
        (audition_catch (fst l) (JsError ("Connection failed: " +:+ pc_state_name st)))
  | _ => eff_ret tt
  end.

Definition on_timeout (task : nat) : Eff State unit :=
  stage <- gets (stage_of task) ;;
  when (is_waiting stage) (audition_catch task (JsError "Connection timeout")).

(** The open listener of channel [dc], lines 121-133. *)
Definition on_channel_open (dc : nat) : Eff State unit :=
  lift (emit (console_log "Audition data channel opened")) ;;
  setStatus connected ;;
  timer <- lift (set_timer KICKOFF_DELAY_MS (trigger_response dc)) ;;
  eff_ret tt.

(** The timer callback of lines 126-132. *)
Definition on_kickoff (dc : nat) : Eff State unit :=
  r <- gets (fun s => ready_state dc (browser s)) ;;
  if decide (r = rs_open) then lift (send dc response_create) else eff_ret tt.

Definition on_channel_message (data : option ServerEvent) : Eff State unit :=
  try_catch
    match data with
    | Some ev => handleServerEvent ev
    | None => throw (JsError "SyntaxError")
    end
    (fun _ => lift (emit (console_error "Failed to parse audition event:"))).

Definition on_channel_close : Eff State unit :=
  lift (emit (console_log "Audition data channel closed")) ;;
  setStatus disconnected ;;
  setActivePersona None.

(** endAudition, lines 197-203. *)
Definition endAudition : Eff State unit :=
  cleanup ;;
  setStatus disconnected ;;
  setActivePersona None ;;
  setIsAgentSpeaking false ;;
  setError None.

Inductive Event :=
| call_startAudition (persona : PersonaType)
| call_endAudition
| settle (task : nat) (v : Settlement)
| timer_fired (timer : nat)
| connection_state_change (pc : nat) (st : PcState)
| channel_opened (dc : nat)
| channel_message (dc : nat) (data : option ServerEvent)
| channel_closed (dc : nat)
| track_received (pc stream : nat).

Definition set_connection_state (st : PcState) (p : PeerConnection) : PeerConnection :=
  {| pc_isClosed := pc_isClosed p; connectionState := st;
     ontrack := ontrack p; listeners := listeners p |}.

(** One turn of the event loop, under the same delivery rules as for the
    main connection. *)
Definition step (e : Event) : Eff State unit :=
  match e with
  | call_startAudition persona => startAudition persona
  | call_endAudition => endAudition
  | settle task v =>
      stage <- gets (stage_of task) ;;
      resume task stage v
  | timer_fired timer =>
      t <- gets (fun s => timers (browser s) !! timer) ;;
      match t with
      | Some t =>
          if timer_pending t then
            lift (modify (fun b => with_timers (alter retire_timer timer (timers b)) b)) ;;
            match timer_action t with
            | reject_task task => on_timeout task
            | trigger_response dc => on_kickoff dc
            end
          else eff_ret tt
      | None => eff_ret tt
      end
  | connection_state_change pc st =>
      p <- gets (fun s => peers (browser s) !! pc) ;;
      match p with
      | Some p =>
          if pc_isClosed p then eff_ret tt
          else
            lift (update_peer pc (set_connection_state st)) ;;
            for_each (listeners p) (on_connection_state_change st)
      | None => eff_ret tt
      end
  | channel_opened dc =>
      r <- gets (fun s => channels (browser s) !! dc) ;;
      match r with
      | Some rs_connecting => lift (set_ready_state dc rs_open) ;; on_channel_open dc
      | _ => eff_ret tt
      end
  | channel_message dc data =>
      r <- gets (fun s => channels (browser s) !! dc) ;;
      match r with
      | Some rs_open => on_channel_message data
      | _ => eff_ret tt
      end
  | channel_closed dc =>
      r <- gets (fun s => channels (browser s) !! dc) ;;
      match r with
      | Some rs_closed | None => eff_ret tt
      | Some _ => lift (set_ready_state dc rs_closed) ;; on_channel_close
      end
  | track_received pc stream =>
      p <- gets (fun s => peers (browser s) !! pc) ;;
      match p with
      | Some p =>
          match pc_isClosed p, ontrack p with
          | false, Some audio => lift (set_src_object audio (Some stream))
          | _, _ => eff_ret tt
          end
      | None => eff_ret tt
      end
  end.

Definition run (evs : list Event) (s : State) : State :=
  foldl (fun s e => exec_state (step e) s) s evs.

End Audition.

(** ** Scenarios: concrete runs used as test inputs *)

Module Scenario.
Import Browser Negotiation.

Definition all_observers : Connection.Options :=
  {| Connection.has_onTranscript := true;
     Connection.has_onUserTranscript := true;
     Connection.has_onError := true |}.

(** A negotiation of task [t] on peer connection [pc] in which every
    awaited promise is fulfilled, up to the wait for the transport. *)
Definition negotiation (t : nat) : list Connection.Event :=
  [ Connection.settle t (fetch_response true 200);
    Connection.settle t (json_token_body "ek_token");
    Connection.settle t (media_granted 1);
    Connection.settle t fulfilled;
    Connection.settle t fulfilled;
    Connection.settle t (fetch_response true 200);
    Connection.settle t (answer_text "v=0");
    Connection.settle t fulfilled ].

(** The host registers its callbacks and connects; the transport comes up
    and the channel opens. *)
Definition waiting : Connection.State :=
  Connection.run
    (Connection.call_setNavigationCallbacks Connection.host_callbacks
       :: Connection.call_connect "instructions" shimmer :: negotiation 0)
    (Connection.initial all_observers).

Definition established : Connection.State :=
  Connection.run
    [Connection.connection_state_change 0 pc_connected; Connection.channel_opened 0]
    waiting.

(** The same, without navigation callbacks. *)
Definition established_without_callbacks : Connection.State :=
  Connection.run
    (Connection.call_connect "instructions" shimmer :: negotiation 0
       ++ [Connection.connection_state_change 0 pc_connected; Connection.channel_opened 0])
    (Connection.initial all_observers).

Definition function_call (name call_id : string) : OutputItem :=
  {| item_id := "item_" +:+ call_id; item_type := item_function_call;
     item_name := Some name; item_call_id := Some call_id;
     item_arguments := Some "{}" |}.

Definition spoken_message : OutputItem :=
  {| item_id := "item_msg"; item_type := item_message;
     item_name := None; item_call_id := None; item_arguments := None |}.



Definition slide_two : Coordinator.SlideMetadata :=
  {| Coordinator.id := "demo"; Coordinator.title := "Demo";
     Coordinator.slideNumber := 2; Coordinator.totalSlides := 3 |}.

Definition overview : list (string * string) :=
  [("intro", "Introduction"); ("demo", "Demo"); ("end", "Wrap-up")].





(** The host calls disconnect while the token request of connect is in
    flight; the negotiation then runs to completion. *)
Definition disconnected_while_connecting : Connection.State :=
  Connection.run
    (Connection.call_connect "instructions" shimmer
       :: Connection.call_disconnect
       :: negotiation 0 ++ [Connection.connection_state_change 0 pc_connected])
    (Connection.initial all_observers).

(** The awaits of an audition, task [t], every promise fulfilled. *)
Definition audition_token (t : nat) : list Audition.Event :=
  [ Audition.settle t (fetch_response true 200);
    Audition.settle t (json_token_body "ek_token") ].

Definition audition_media (t : nat) : list Audition.Event :=
  [ Audition.settle t (media_granted 1) ].

Definition audition_exchange (t pc dc : nat) : list Audition.Event :=
  [ Audition.settle t fulfilled;
    Audition.settle t fulfilled;
    Audition.settle t (fetch_response true 200);
    Audition.settle t (answer_text "v=0");
    Audition.settle t fulfilled;
    Audition.connection_state_change pc pc_connected;
    Audition.channel_opened dc ].

(** One audition, established. *)
Definition auditioning : Audition.State :=
  Audition.run
    (Audition.call_startAudition guide
       :: audition_token 0 ++ audition_media 0 ++ audition_exchange 0 0 0)
    Audition.initial.

(** A second audition is requested while the token request of the first
    is in flight; both negotiations then run to completion. *)
Definition two_auditions : Audition.State :=
  Audition.run
    (Audition.call_startAudition guide
       :: Audition.call_startAudition coach
       :: audition_token 0 ++ audition_token 1
       ++ audition_media 0 ++ audition_media 1
       ++ audition_exchange 0 0 0 ++ audition_exchange 1 1 1)
    Audition.initial.

End Scenario.

(** * Relations between states, and the blocks of cleanup *)

(** Whichever way [m] completes, the state it ends in is related by [R]
    to the state it started from. *)
Definition respects {S A} (R : relation S) (m : Eff S A) : Prop :=
  forall s, R s (snd (m s)).

(** [t'] extends [t] by allowed actions only. *)
Definition grows (allowed : Browser.Effect -> bool) (t t' : list Browser.Effect) : Prop :=
  exists l, t' = (t ++ l)%list /\ forallb allowed l = true.

Definition store_grows (allowed : Browser.Effect -> bool) : relation Browser.Store :=
  fun b b' => grows allowed (Browser.trace b) (Browser.trace b').

Definition emits_only (allowed : Browser.Effect -> bool) : relation Connection.State :=
  fun s s' =>
    grows allowed (Browser.trace (Connection.browser s))
      (Browser.trace (Connection.browser s')).

Definition not_navigation (e : Browser.Effect) : bool :=
  negb (Connection.is_navigation e).

(** The has-greeted flag is left as it was. *)
Definition keeps_flag : relation Coordinator.State :=
  fun s s' => Coordinator.hasGreetedRef s' = Coordinator.hasGreetedRef s.

(** Stopping the tracks [l] of a stream, one after the other. *)
Definition stop_all (l : list nat) (ts : list bool) : list bool :=
  foldl (fun ts t => <[t := false]> ts) ts l.

Section Resources.
Import Browser Connection.

(** The four blocks of [cleanup], in the order of the source. *)
Definition release_channel : Eff State unit :=
  eff_bind (gets dataChannelRef) (fun dc =>
    match dc with
    | Some dc => eff_bind (lift (close_channel dc)) (fun _ => modify (with_dataChannelRef None))
    | None => eff_ret tt
    end).

Definition release_stream : Eff State unit :=
  eff_bind (gets localStreamRef) (fun ls =>
    match ls with
    | Some stream =>
        eff_bind (gets (fun s => get_tracks stream (browser s))) (fun ts =>
        eff_bind (for_each ts (fun t => lift (stop_track stream t))) (fun _ =>
        modify (with_localStreamRef None)))
    | None => eff_ret tt
    end).

Definition release_peer : Eff State unit :=
  eff_bind (gets peerConnectionRef) (fun pc =>
    match pc with
    | Some pc => eff_bind (lift (close_peer pc)) (fun _ => modify (with_peerConnectionRef None))
    | None => eff_ret tt
    end).

Definition release_sink : Eff State unit :=
  eff_bind (gets audioElementRef) (fun au =>
    match au with
    | Some audio =>
        eff_bind (lift (emit (sink_detach audio))) (fun _ =>
        eff_bind (lift (set_src_object audio None)) (fun _ =>
        modify (with_audioElementRef None)))
    | None => eff_ret tt
    end).

(** The refs and the objects they may point to are the same in both states. *)
Definition same_resources (s s' : State) : Prop :=
  peerConnectionRef s' = peerConnectionRef s
  /\ dataChannelRef s' = dataChannelRef s
  /\ localStreamRef s' = localStreamRef s
  /\ audioElementRef s' = audioElementRef s
  /\ peers (browser s') = peers (browser s)
  /\ channels (browser s') = channels (browser s)
  /\ streams (browser s') = streams (browser s)
  /\ audios (browser s') = audios (browser s).

(** The objects of the store are the same, whatever was appended to the
    trace. *)
Definition same_objects : relation Store :=
  fun b b' =>
    peers b' = peers b /\ channels b' = channels b /\ streams b' = streams b
    /\ audios b' = audios b /\ timers b' = timers b.

(** Neither the refs, nor the objects of the store, nor the tasks, nor
    the status have changed. *)
Definition undisturbed : relation State :=
  fun s s' =>
    same_objects (browser s) (browser s')
    /\ peerConnectionRef s' = peerConnectionRef s
    /\ dataChannelRef s' = dataChannelRef s
    /\ localStreamRef s' = localStreamRef s
    /\ audioElementRef s' = audioElementRef s
    /\ tasks s' = tasks s /\ status s' = status s.

End Resources.


From Stdlib Require PrimFloat.

(** ** JavaScript values, as JSON.parse produces them *)

Module Js.
Import PrimFloat.

(** Numbers are IEEE 754 doubles.  An object is the list of its own
    properties, each name occurring once. *)
#[warnings="-register-all"]
Inductive Value :=
| Null
| Bool (b : bool)
| Number (x : float)
| Str (s : string)
| Array (items : list Value)
| Object (fields : list (string * Value)).

(** The own property [k] of an object; [None] is undefined. *)
Fixpoint get_own (k : string) (fields : list (string * Value)) : option Value :=
  match fields with
  | [] => None
  | (k', v) :: rest => if String.eqb k k' then Some v else get_own k rest
  end.

(** ToBoolean: undefined, null, false, +0, -0, NaN and the empty string
    are falsy. *)
Definition truthy (v : option Value) : bool :=
  match v with
  | None => false
  | Some Null => false
  | Some (Bool b) => b
  | Some (Number x) => negb (PrimFloat.eqb x 0%float || negb (PrimFloat.eqb x x))
  | Some (Str s) => negb (String.eqb s "")
  | Some (Array _) | Some (Object _) => true
  end.

(** a || b, where [b] is defined *)
Definition or_else (a : option Value) (b : Value) : Value :=
  match a with
  | Some v => if truthy a then v else b
  | None => b
  end.

(** The message of the TypeError the engine throws; its wording is the
    engine's. *)
Definition type_error : Thrown := JsError "TypeError".

(** v.k for one of the property names the route reads (instructions,
    voice, error, message, client_secret, value, expires_at, id): none of
    them is defined on a string, a number, a boolean or an array, nor
    inherited by an object.  Reading a property of undefined or null
    throws. *)
Definition get {S} (v : option Value) (k : string) : Eff S (option Value) :=
  match v with
  | None | Some Null => throw type_error
  | Some (Object fields) => eff_ret (get_own k fields)
  | Some _ => eff_ret None
  end.

(** v?.k *)
Definition get_optional {S} (v : option Value) (k : string) : Eff S (option Value) :=
  match v with
  | None | Some Null => eff_ret None
  | Some _ => get v k
  end.

(** An object literal as JSON.stringify writes it: a property whose value
    is undefined is left out. *)
Fixpoint literal (fields : list (string * option Value)) : Value :=
  match fields with
  | [] => Object []
  | (k, Some v) :: rest =>
      match literal rest with
      | Object fs => Object ((k, v) :: fs)
      | other => other
      end
  | (_, None) :: rest => literal rest
  end.

(** await p, for a promise that the environment rejects or fulfils *)
Definition await {S A} (p : Thrown + A) : Eff S A :=
  match p with
  | inl reason => throw reason
  | inr a => eff_ret a
  end.

Arguments get {S} v k /.
Arguments get_optional {S} v k /.
Arguments await {S A} p /.

End Js.

(** ** tools.ts: the tools declared to the model *)

Module Tools.

Record Parameters := {
  parameters_type : string;
  properties : list (string * Js.Value);
  required : list string;
}.

Record Tool := {
  type : string;
  name : string;
  description : string;
  parameters : Parameters;
}.

Definition no_parameters : Parameters :=
  {| parameters_type := "object"; properties := []; required := [] |}.

Definition slideNavigationTools : list Tool :=
  [ {| type := "function";
       name := "goToNextSlide";
       description :=
         "Navigate to the next slide in the presentation. Use when naturally progressing through the content, when the user asks to continue, says "
         +:+ Json.quoted "next"
         +:+ ", or when you have finished presenting the current slide and the user is ready to move on.";
       parameters := no_parameters |};
    {| type := "function";
       name := "goToPreviousSlide";
       description :=
         "Navigate to the previous slide in the presentation. Use when the user wants to go back, says "
         +:+ Json.quoted "previous" +:+ ", " +:+ Json.quoted "go back"
         +:+ ", or asks to review earlier content.";
       parameters := no_parameters |} ].

(** A tool as the object handed to JSON.stringify. *)
Definition to_value (t : Tool) : Js.Value :=
  Js.Object
    [ ("type", Js.Str (type t));
      ("name", Js.Str (name t));
      ("description", Js.Str (description t));
      ("parameters",
       Js.Object
         [ ("type", Js.Str (parameters_type (parameters t)));
           ("properties", Js.Object (properties (parameters t)));
           ("required", Js.Array (map Js.Str (required (parameters t)))) ]) ].

End Tools.

(** ** The token endpoint: POST /api/realtime-token (route.ts) *)

Module TokenRoute.
Import PrimFloat Js.
Local Open Scope eff_scope.

(** The request the route sends to the realtime API; [body] is the object
    handed to JSON.stringify. *)
Record UpstreamRequest := {
  url : string;
  method : string;
  authorization : string;
  content_type : string;
  body : Value;
}.

(** The response of the realtime API: its status, and how the promises of
    text() and json() settle. *)
Record UpstreamResponse := {
  status : N;
  text : Thrown + string;
  json : Thrown + Value;
}.

(** Response.ok *)
Definition ok (r : UpstreamResponse) : bool :=
  (200 <=? status r)%N && (status r <=? 299)%N.

(** What the route depends on: the environment variable, how the body of
    the incoming request parses, what the realtime API answers, and
    JSON.parse ([None] is a SyntaxError). *)
Record Env := {
  OPENAI_API_KEY : option string;
  request_json : Thrown + Value;
  fetch : UpstreamRequest -> Thrown + UpstreamResponse;
  JSON_parse : string -> option Value;
}.

Inductive Action :=
| fetch_upstream (req : UpstreamRequest)
| console_error (label : string).

(** What the route answers: the status and the value serialised as body. *)
Record Response := {
  response_status : N;
  response_body : Value;
}.

Definition emit (a : Action) : Eff (list Action) unit :=
  modify (fun t => (t ++ [a])%list).

(** The statuses for which a Response may not carry a body. *)
Definition null_body_status (n : N) : bool :=
  (n =? 101)%N || (n =? 103)%N || (n =? 204)%N || (n =? 205)%N || (n =? 304)%N.

(** NextResponse.json(body, { status }): the Response constructor throws a
    RangeError for a status outside 200..599, and a TypeError for a body
    on a null-body status. *)
Definition NextResponse_json (body : Value) (status : N) : Eff (list Action) Response :=
  if negb ((200 <=? status)%N && (status <=? 599)%N) then throw (JsError "RangeError")
  else if null_body_status status then throw type_error
  else eff_ret {| response_status := status; response_body := body |}.

Definition SESSIONS_URL : string := "https://api.openai.com/v1/realtime/sessions".
Definition DEFAULT_INSTRUCTIONS : string := "You are a helpful assistant.".
Definition DEFAULT_ERROR : string := "Failed to create session".

(** The session configuration of lines 25-44. *)
#[warnings="-inexact-float"]
Definition session_config (instructions voice : Value) : Value :=
  Object
    [ ("model", Str "gpt-realtime");
      ("modalities", Array [Str "audio"; Str "text"]);
      ("instructions", instructions);
      ("voice", voice);
      ("input_audio_format", Str "pcm16");
      ("output_audio_format", Str "pcm16");
      ("input_audio_transcription", Object [("model", Str "whisper-1")]);
      ("turn_detection",
       Object [ ("type", Str "server_vad");
                ("threshold", Number 0.5%float);
                ("prefix_padding_ms", Number 300%float);
                ("silence_duration_ms", Number 500%float) ]);
      ("tools", Array (map Tools.to_value Tools.slideNavigationTools));
      ("tool_choice", Str "auto");
      ("temperature", Number 0.7%float) ].

Definition session_request (key : string) (instructions voice : Value) : UpstreamRequest :=
  {| url := SESSIONS_URL;
     method := "POST";
     authorization := "Bearer " +:+ key;
     content_type := "application/json";
     body := session_config instructions voice |}.

(** Lines 51-57: the message of the upstream error, if the text parses
    and holds one. *)
Definition error_message (env : Env) (errorText : string) : Eff (list Action) Value :=
  try_catch
    match JSON_parse env errorText with
    | Some errorData =>
        error <- get (Some errorData) "error" ;;
        message <- get_optional error "message" ;;
        eff_ret (or_else message (Str DEFAULT_ERROR))
    | None => throw (JsError "SyntaxError")
    end
    (fun _ => eff_ret (Str DEFAULT_ERROR)).

(** error instanceof Error ? error.message : 'Internal server error' *)
Definition message_of (error : Thrown) : string :=
  match error with
  | JsError m => m
  | NonError => "Internal server error"
  end.

(** The answer of lines 8-11. *)
Definition not_configured : Eff (list Action) Response :=
  NextResponse_json (Object [("error", Str "OpenAI API key not configured")]) 500.

(** Lines 15-45: the body of the incoming request is read and the
    session is requested with the key [key]. *)
Definition request_session (env : Env) (key : string) : Eff (list Action) UpstreamResponse :=
  body <- await (request_json env) ;;
  instructions <- get (Some body) "instructions" ;;
  voice <- get (Some body) "voice" ;;
  let req :=
    session_request key
      (or_else instructions (Str DEFAULT_INSTRUCTIONS))
      (default (Str "shimmer") voice) in
  emit (fetch_upstream req) ;;
  await (fetch env req).

(** Lines 47-63: the realtime API refused. *)
Definition upstream_failed (env : Env) (response : UpstreamResponse)
  : Eff (list Action) Response :=
  errorText <- await (text response) ;;
  emit (console_error "OpenAI API error:") ;;
  errorMessage <- error_message env errorText ;;
  NextResponse_json (Object [("error", errorMessage)]) (status response).

(** Lines 65-71: the session was created. *)
Definition session_created (response : UpstreamResponse) : Eff (list Action) Response :=
  data <- await (json response) ;;
  client_secret <- get (Some data) "client_secret" ;;
  token <- get client_secret "value" ;;
  expiresAt <- get client_secret "expires_at" ;;
  sessionId <- get (Some data) "id" ;;
  NextResponse_json
    (literal [("token", token); ("expiresAt", expiresAt); ("sessionId", sessionId)])
    200.

(** The catch block, lines 72-78. *)
Definition route_catch (error : Thrown) : Eff (list Action) Response :=
  emit (console_error "Realtime token error:") ;;
  NextResponse_json (Object [("error", Str (message_of error))]) 500.

(** The try statement of lines 14-78, where OPENAI_API_KEY is [key]. *)
Definition create_session (env : Env) (key : string) : Eff (list Action) Response :=
  try_catch
    (response <- request_session env key ;;
     if negb (ok response) then upstream_failed env response
     else session_created response)
    route_catch.

(** POST, lines 6-79. *)
Definition POST (env : Env) : Eff (list Action) Response :=
  match OPENAI_API_KEY env with
  | Some key => if String.eqb key "" then not_configured else create_session env key
  | None => not_configured
  end.

(** The requests among the actions of a call. *)
Definition requests (t : list Action) : list UpstreamRequest :=
  omap (fun a => match a with fetch_upstream req => Some req | _ => None end) t.

(** The property [k] of a value that is not null, as the route reads it. *)
Definition property (v : Value) (k : string) : option Value :=
  match v with
  | Object fields => get_own k fields
  | _ => None
  end.

(** What lines 51-57 make of the parsed text of an upstream error. *)
Definition upstream_message (parsed : option Value) : Value :=
  match parsed with
  | Some (Object fields) =>
      match get_own "error" fields with
      | Some (Object error) => or_else (get_own "message" error) (Str DEFAULT_ERROR)
      | _ => Str DEFAULT_ERROR
      end
  | _ => Str DEFAULT_ERROR
  end.

(** Whether the Response constructor accepts a status with a body. *)
Definition accepts_status (n : N) : bool :=
  (200 <=? n)%N && (n <=? 599)%N && negb (null_body_status n).

Arguments emit a s /.
Arguments NextResponse_json : simpl never.
Arguments error_message : simpl never.

End TokenRoute.

(** ** VoiceAgentButton.tsx *)

Module VoiceAgentButton.
Import Coordinator.
Local Open Scope eff_scope.

Section WithInstructions.

Variable buildInstructions :
  SlideMetadata -> list (string * string) -> InteractionMode -> PersonaType -> string.


End WithInstructions.


(** getTitle, lines 36-40. *)
Definition getTitle (s : State) : string :=
  if decide (status s = connecting) then "Connecting..."
  else if decide (status s = connected) then "Click to stop voice agent"
  else "Click to start voice agent".

End VoiceAgentButton.

(** ** useAuditionSession, seen from its callers *)

Module AuditionView.
Import Browser Negotiation.

(** The actions a computation of the audition hook adds to the trace. *)
Definition effects_of {A} (m : Eff Audition.State A) (s : Audition.State) : list Effect :=
  drop (length (trace (Audition.browser s)))
       (trace (Audition.browser (exec_state m s))).

Definition refs_none (s : Audition.State) : Prop :=
  Audition.peerConnectionRef s = None /\ Audition.dataChannelRef s = None
  /\ Audition.localStreamRef s = None /\ Audition.audioElementRef s = None.

(** The refs, the negotiations and the store of the audition hook, as a
    state of the main hook: the two hooks keep them in the same way. *)
Definition to_connection (s : Audition.State) : Connection.State :=
  {| Connection.status := Audition.status s;
     Connection.isAgentSpeaking := Audition.isAgentSpeaking s;
     Connection.error := Audition.error s;
     Connection.peerConnectionRef := Audition.peerConnectionRef s;
     Connection.dataChannelRef := Audition.dataChannelRef s;
     Connection.localStreamRef := Audition.localStreamRef s;
     Connection.audioElementRef := Audition.audioElementRef s;
     Connection.navigationCallbacksRef := None;
     Connection.options :=
       {| Connection.has_onTranscript := false;
          Connection.has_onUserTranscript := false;
          Connection.has_onError := false |};
     Connection.tasks := Audition.tasks s;
     Connection.browser := Audition.browser s |}.

(** The audition state [s] with the refs and the store of [k]. *)
Definition with_resources (k : Connection.State) (s : Audition.State) : Audition.State :=
  {| Audition.status := Audition.status s;
     Audition.activePersona := Audition.activePersona s;
     Audition.isAgentSpeaking := Audition.isAgentSpeaking s;
     Audition.error := Audition.error s;
     Audition.peerConnectionRef := Connection.peerConnectionRef k;
     Audition.dataChannelRef := Connection.dataChannelRef k;
     Audition.localStreamRef := Connection.localStreamRef k;
     Audition.audioElementRef := Connection.audioElementRef k;
     Audition.tasks := Audition.tasks s;
     Audition.browser := Connection.browser k |}.

End AuditionView.

(** ** LandingPage-example.tsx *)

Module LandingPage.
Local Open Scope eff_scope.

#[global] Instance PersonaType_eq_dec : EqDecision PersonaType.
Proof. solve_decision. Defined.

Record State := {
  enableVoice : bool;
  selectedMode : InteractionMode;
  selectedPersona : PersonaType;
  showModeDrawer : bool;
  showPersonaDrawer : bool;
  mounted : bool;
  audition : Audition.State;
}.

(** The page as first rendered, lines 77-90. *)
Definition initial : State :=
  {| enableVoice := true; selectedMode := dialogue; selectedPersona := guide;
     showModeDrawer := false; showPersonaDrawer := false; mounted := false;
     audition := Audition.initial |}.

Definition with_selectedPersona v s :=
  {| enableVoice := enableVoice s; selectedMode := selectedMode s; selectedPersona := v;
     showModeDrawer := showModeDrawer s; showPersonaDrawer := showPersonaDrawer s;
     mounted := mounted s; audition := audition s |}.
Definition with_showModeDrawer v s :=
  {| enableVoice := enableVoice s; selectedMode := selectedMode s;
     selectedPersona := selectedPersona s;
     showModeDrawer := v; showPersonaDrawer := showPersonaDrawer s;
     mounted := mounted s; audition := audition s |}.
Definition with_showPersonaDrawer v s :=
  {| enableVoice := enableVoice s; selectedMode := selectedMode s;
     selectedPersona := selectedPersona s;
     showModeDrawer := showModeDrawer s; showPersonaDrawer := v;
     mounted := mounted s; audition := audition s |}.
Definition with_audition v s :=
  {| enableVoice := enableVoice s; selectedMode := selectedMode s;
     selectedPersona := selectedPersona s;
     showModeDrawer := showModeDrawer s; showPersonaDrawer := showPersonaDrawer s;
     mounted := mounted s; audition := v |}.

(** Run a function of the audition hook on the page's hook instance. *)
Definition hook {A} (m : Eff Audition.State A) : Eff State A :=
  fun s => let '(c, k) := m (audition s) in (c, with_audition k s).

Definition auditionStatus (s : State) : ConnectionStatus := Audition.status (audition s).
Definition activePersona (s : State) : option PersonaType :=
  Audition.activePersona (audition s).

(** isAuditioning, line 95. *)
Definition isAuditioning (s : State) : bool :=
  bool_decide (auditionStatus s = connected) || bool_decide (auditionStatus s = connecting).


(** handleSelectPersona, lines 126-130. *)
Definition handleSelectPersona (personaId : PersonaType) : Eff State unit :=
  hook Audition.endAudition ;;
  modify (with_selectedPersona personaId) ;;
  modify (with_showPersonaDrawer false).

(** handleCloseDrawer, lines 132-135. *)
Definition handleCloseDrawer : Eff State unit :=
  hook Audition.endAudition ;;
  modify (with_showPersonaDrawer false).

(** handleEscape, lines 103-113, for the key of the keydown event. *)
Definition handleEscape (key : string) : Eff State unit :=
  if String.eqb key "Escape" then
    persona_drawer <- gets showPersonaDrawer ;;
    (if persona_drawer : bool then
       hook Audition.endAudition ;;
       modify (with_showPersonaDrawer false)
     else eff_ret tt) ;;
    mode_drawer <- gets showModeDrawer ;;
    if mode_drawer : bool then modify (with_showModeDrawer false) else eff_ret tt
  else eff_ret tt.

(** The card of one persona, lines 359-361. *)
Definition isActiveAudition (personaId : PersonaType) (s : State) : bool :=
  bool_decide (activePersona s = Some personaId).
Definition isPlaying (personaId : PersonaType) (s : State) : bool :=
  isActiveAudition personaId s && bool_decide (auditionStatus s = connected).

Definition select_disabled (personaId : PersonaType) (s : State) : bool :=
  isAuditioning s && negb (isActiveAudition personaId s).

Arguments hook {A} m s /.
Arguments auditionStatus s /.
Arguments activePersona s /.

End LandingPage.

(** ** instructions.ts: the instruction synthesizer *)

Module Instructions.
Import Coordinator.

(** The context prepared for one slide. *)
Record SlideContext := {
  visualDescription : string;
  keyPoints : list string;
  backgroundKnowledge : string;
  engagementApproach : string;
  openingHook : string;
  interactionPrompts : list string;
  transitionToNext : string;
}.

(** The line feed. *)
Definition nl : string := String (ascii_of_nat 10) EmptyString.

(** ToBoolean of a string. *)
Definition truthy (s : string) : bool := negb (String.eqb s "").

(** Array.prototype.join. *)
Fixpoint join (sep : string) (l : list string) : string :=
  match l with
  | [] => ""
  | [x] => x
  | x :: rest => x +:+ sep +:+ join sep rest
  end.

(** The template-literal text of an array index plus one. *)
Definition ordinal (i : nat) : string := Json.of_N (N.of_nat (i + 1)).

(** l.map((p, i) => `${i + 1}. ${p}`) and l.map(p => `- ${p}`) *)
Definition numbered (l : list string) : list string :=
  imap (fun i p => ordinal i +:+ ". " +:+ p) l.
Definition bulleted (l : list string) : list string :=
  map (fun p => "- " +:+ p) l.

(** slideOverview.map((s, i) => `${i + 1}. ${s.title} (${s.id})`), for an
    overview of (id, title) pairs. *)
Definition overviewLines (slideOverview : list (string * string)) : list string :=
  imap (fun i s => ordinal i +:+ ". " +:+ snd s +:+ " (" +:+ fst s +:+ ")") slideOverview.

(** The constant PRESENTATION, lines 71-90. *)
Module PRESENTATION.
Definition title : string := "Your Presentation Title".
Definition topic : string :=
  "What your presentation is about - the main subject and goal.".
Definition runningExample : string :=
  "Description of your main example or demo that appears throughout slides.".
Definition targetAudience : string := "Who this is for and what background they have.".
Definition coreFramework : string :=
  "
1. **First Concept** - Brief description
2. **Second Concept** - Brief description
3. **Third Concept** - Brief description
  ".
End PRESENTATION.

(** The table personas, lines 98-174: the fields the builders read
    beside the name. *)
Definition voiceCharacteristics (persona : PersonaType) : string :=
  match persona with
  | guide =>
      "- Warm and encouraging, never condescending
- Conversational - like chatting with a helpful colleague
- Patient with confusion, treats questions as valuable
- Uses " +:+ Json.dq +:+ "we" +:+ Json.dq +:+ " language to create partnership"
  | coach =>
      "- Direct and challenging, keeps momentum high
- High-energy, pushes you to think before giving answers
- Celebrates wins enthusiastically, then raises the bar
- Comfortable with productive discomfort"
  | expert =>
      "- Clear, precise, and professional
- Structured communication - organizes thoughts logically
- Thorough when depth is warranted, concise otherwise
- Values accuracy, corrects misconceptions directly but kindly"
  | peer =>
      "- Casual and exploratory, thinks out loud
- Comfortable with uncertainty - it's okay not to know
- Collaborative - figuring this out together
- Curious, follows interesting threads"
  end.

Definition communicationTweaks (persona : PersonaType) : string :=
  match persona with
  | guide =>
      "- Default to encouragement when someone is unsure"
  | coach =>
      "- Push for answers before providing them"
  | expert =>
      "- Organize explanations with clear structure when needed"
  | peer =>
      "- It's fine to think out loud and express uncertainty"
  end.

Definition illustrativePhrases (persona : PersonaType) : list string :=
  match persona with
  | guide =>
      [ "That's a great point...";
        "Let's explore this together...";
        "What do you think?" ]
  | coach =>
      [ "Good - now why?";
        "Push deeper.";
        "There it is!" ]
  | expert =>
      [ "The key distinction is...";
        "There are three aspects here...";
        "Precisely." ]
  | peer =>
      [ "Hm, interesting...";
        "I wonder if...";
        "What do you reckon?" ]
  end.

(** personaConfig.illustrativePhrases[i] inside a template literal. *)
Definition illustrativePhrase (persona : PersonaType) (i : nat) : string :=
  default "undefined" (illustrativePhrases persona !! i).

(** buildAuditionInstructions, lines 193-225. *)
Definition buildAuditionInstructions (persona : PersonaType) : string :=
  "## Your Role

You are "
    +:+ persona_name (getPersonaConfig persona)
    +:+ ", auditioning to be the user's guide through an interactive tutorial called " +:+ Json.dq
    +:+ PRESENTATION.title
    +:+ "." +:+ Json.dq +:+ "

## Your Personality

"
    +:+ voiceCharacteristics persona
    +:+ "

## The Presentation

"
    +:+ PRESENTATION.topic
    +:+ "

"
    +:+ PRESENTATION.coreFramework
    +:+ "

"
    +:+ (if truthy PRESENTATION.runningExample
       then "The running example throughout is: " +:+ PRESENTATION.runningExample else "")
    +:+ "

## Your Task

You're auditioning! The user is deciding which guide persona to learn with. Your job:

1. **Start immediately** with a brief, engaging introduction of yourself and your teaching style
2. **Give them a taste** of how you'd guide them through this material - mention something specific from the presentation
3. **Be yourself** - let your personality shine through so they can decide if you're the right fit
4. **Keep it short** - about 15-20 seconds of talking, then invite them to ask questions or make their choice

Remember: This is a quick audition, not the full presentation. Be punchy and memorable. Show, don't tell, what learning with you would be like.

If they ask questions, answer briefly in your style. If they seem ready to decide, wish them well (whether they pick you or not).".

(** The titles of the neighbouring slides, lines 255-260: the entry of
    the overview before, and after, the current slide, if there is one. *)
Definition previousSlide (currentSlide : SlideMetadata)
    (slideOverview : list (string * string)) : option string :=
  if (1 <? slideNumber currentSlide)%Z
  then snd <$> slideOverview !! Z.to_nat (slideNumber currentSlide - 2)
  else None.

Definition nextSlide (currentSlide : SlideMetadata)
    (slideOverview : list (string * string)) : option string :=
  if (slideNumber currentSlide <? totalSlides currentSlide)%Z
  then if (slideNumber currentSlide <? 0)%Z then None
       else snd <$> slideOverview !! Z.to_nat (slideNumber currentSlide)
  else None.

(** Lines 325 and 326. *)
Definition previousSlideLine (previousSlide : option string) : string :=
  match previousSlide with
  | Some t =>
      if truthy t then "**Previous Slide:** " +:+ Json.dq +:+ t +:+ Json.dq
      else "**Previous Slide:** None (this is the first slide)"
  | None => "**Previous Slide:** None (this is the first slide)"
  end.

Definition nextSlideLine (nextSlide : option string) : string :=
  match nextSlide with
  | Some t =>
      if truthy t then "**Next Slide:** " +:+ Json.dq +:+ t +:+ Json.dq
      else "**Next Slide:** None (this is the last slide)"
  | None => "**Next Slide:** None (this is the last slide)"
  end.

(** The tables of lines 265-287. *)
Definition roleFraming (mode : InteractionMode) : string :=
  match mode with
  | presenter =>
      "presenting an interactive tutorial on"
  | dialogue =>
      "having a conversation with you about"
  | assistant_mode =>
      "here to help you explore"
  end.

Definition communicationStyle (mode : InteractionMode) (persona : PersonaType) : string :=
  match mode with
  | presenter =>
      "- Explain concepts simply first, then add depth if asked
- Use concrete examples from the "
      +:+ (if truthy PRESENTATION.runningExample then "running example" else "presentation")
      +:+ " throughout
- Acknowledge complexity without overwhelming
- Keep responses concise - typically 2-4 sentences for explanations
"
      +:+ communicationTweaks persona
  | dialogue =>
      "- Draw out the user's thinking before explaining - ask what they know or think first
- Use concrete examples from the "
      +:+ (if truthy PRESENTATION.runningExample then "running example" else "presentation")
      +:+ " throughout
- Acknowledge complexity without overwhelming
- Keep turns short to maintain back-and-forth rhythm - 1-3 sentences, then pass the conversation back
"
      +:+ communicationTweaks persona
  | assistant_mode =>
      "- When asked, explain concepts thoroughly - go as deep as the user wants
- Use concrete examples from the "
      +:+ (if truthy PRESENTATION.runningExample then "running example" else "presentation")
      +:+ " throughout
- Acknowledge complexity without overwhelming
- Match response depth to question depth - brief for simple questions, thorough for complex ones
"
      +:+ communicationTweaks persona
  end.

(** The tables of lines 335-351 and 376-380. *)
Definition keyPointsLabel (mode : InteractionMode) : string :=
  match mode with
  | presenter =>
      "Key Points to Cover"
  | dialogue =>
      "Key Points to Explore Together"
  | assistant_mode =>
      "Key Points (Reference)"
  end.

Definition openingHookLabel (mode : InteractionMode) : string :=
  match mode with
  | presenter =>
      "Opening Hook"
  | dialogue =>
      "Conversation Starter"
  | assistant_mode =>
      "Opening (If User Is Silent)"
  end.

Definition transitionLabel (mode : InteractionMode) : string :=
  match mode with
  | presenter =>
      "Transition to Next Slide"
  | dialogue =>
      "Natural Transition Point"
  | assistant_mode =>
      "Transition (When User Is Ready)"
  end.

Definition noContextFallback (mode : InteractionMode) : string :=
  match mode with
  | presenter =>
      "No detailed context available for this slide. Present the content naturally based on the slide title and your knowledge of the topic."
  | dialogue =>
      "No detailed context available for this slide. Start a conversation about the slide title - ask what the user thinks or knows about the topic."
  | assistant_mode =>
      "No detailed context available for this slide. Wait for the user to ask questions or comment on what they see."
  end.

(** The tables of lines 386-448, 460-492, 497-516 and 540-544. *)
Definition workingWithContexts (mode : InteractionMode) (persona : PersonaType) : string :=
  match mode with
  | presenter =>
      "## Working with Slide Contexts

Each slide has pre-planned engagement: an opening hook, key points, interaction prompts, and transition. Your job is to execute this plan well, not improvise over it.

**How to use the slide context:**
- Start with the opening hook (adapt wording to feel natural, but keep the intent)
- Cover the key points conversationally
- Use the interaction prompts to check understanding
- Use the transition when the user is ready to move on

**When to deviate from the plan:**
- User asks an unexpected question - answer it, then return to the plan
- User seems confused - slow down and clarify before continuing
- User wants to skip ahead - respect their pace
- Something feels unnatural - adjust wording, keep the approach

**When NOT to deviate:**
- Don't abandon the planned engagement to " +:+ Json.dq +:+ "mix things up" +:+ Json.dq +:+ " - variety is already baked into the slide contexts
- Don't skip the opening hook to " +:+ Json.dq +:+ "get to content faster" +:+ Json.dq +:+ " - the hook creates engagement"
  | dialogue =>
      "## Working with Slide Contexts

Each slide provides material for conversation: topics to explore, questions to ask, and context for discussion. The slide context is your conversation fuel, not a script to execute.

**How to use the slide context:**
- Use the opening hook as a conversation starter - pose it as a question or prompt
- Treat key points as topics to explore together, not boxes to check
- The interaction prompts are your primary tool - use them liberally
- Let the user's responses determine the order and depth of coverage
- Transition naturally when the conversation reaches a resting point

**Conversation rhythm:**
- Ask, then listen. React to what they say before continuing.
- Build on their responses - e.g. " +:+ Json.dq
      +:+ illustrativePhrase persona 0
      +:+ Json.dq +:+ "
- If they give a short answer, probe deeper - e.g. " +:+ Json.dq
      +:+ illustrativePhrase persona 1
      +:+ Json.dq +:+ "
- If they go on a tangent, go with it - you can weave back to key points later

**When the user is quiet:**
- They might be thinking - give them a moment
- Then offer a gentle prompt - e.g. " +:+ Json.dq
      +:+ illustrativePhrase persona 2
      +:+ Json.dq
  | assistant_mode =>
      "## Working with Slide Contexts

Each slide provides reference material for when the user has questions. The slide context helps you give informed, relevant answers. You are not presenting - you're available to help.

**How to use the slide context:**
- Don't proactively present or explain - wait for the user to engage
- When they ask a question, draw on key points and background knowledge for your answer
- If they seem stuck, you can offer a gentle prompt, but don't lecture
- The opening hook can be used if there's a long awkward silence, but keep it brief

**Your role:**
- Answer questions thoroughly and thoughtfully
- Point out interesting things on screen if asked " +:+ Json.dq +:+ "what should I look at?" +:+ Json.dq +:+ "
- Let them drive the pace - they might spend 10 seconds or 10 minutes on a slide
- If they want to move on, help them navigate

**When to speak unprompted:**
- Almost never - this is their exploration
- Exception: If they've been silent for a very long time and seem stuck, offer minimal help
- Exception: Acknowledge UI interactions briefly (" +:+ Json.dq +:+ "Nice, you found the toggle" +:+ Json.dq +:+ ")"
  end.

Definition engagementGuidelines (mode : InteractionMode) (persona : PersonaType) : string :=
  match mode with
  | presenter =>
      "## Engagement Guidelines

1. **Reference the visual, don't describe everything.** The user can see the screen. Say " +:+ Json.dq +:+ "As you can see here..." +:+ Json.dq +:+ " rather than exhaustively describing UI elements.

2. **Check understanding periodically.** Use the planned interaction prompts, or variations like " +:+ Json.dq +:+ "Does that make sense?" +:+ Json.dq +:+ " or " +:+ Json.dq +:+ "Any questions before we continue?" +:+ Json.dq +:+ "

3. **Handle silences by continuing.** If the user is quiet, use an interaction prompt or continue to the next point. Keep the momentum going."
  | dialogue =>
      "## Engagement Guidelines

1. **Reference the visual, don't describe everything.** The user can see the screen. Point to what's interesting rather than exhaustively describing UI elements.

2. **Questions are primary.** Ask before explaining. Let their answers guide what you explore next. A good question is worth more than a good explanation.

3. **React before continuing.** When they answer, acknowledge it - e.g. " +:+ Json.dq
      +:+ illustrativePhrase persona 0
      +:+ Json.dq +:+ " - before building on it. Don't just move to the next topic.

4. **Silences are thinking time.** Give them space (a few seconds). If they stay quiet, offer a gentle prompt.

5. **Follow tangents.** If they're curious about something off-script, explore it. You can weave back to key points later. Curiosity is the goal."
  | assistant_mode =>
      "## Engagement Guidelines

1. **Reference the visual, don't describe everything.** The user can see the screen. If they ask what to look at, point out specific elements.

2. **Wait for signals.** Questions, comments, or explicit requests to explain. Don't fill silence with unsolicited explanations.

3. **Go deep when asked.** Unlike presenter mode, you can give longer, more thorough answers if they want detail. Follow their lead on depth.

4. **Silences are fine.** They're exploring at their own pace. Only speak if they've been stuck for a while or seem frustrated.

5. **Be genuinely helpful.** When they do ask, give your full attention. This is your moment to add value."
  end.

Definition navigationBehavior (mode : InteractionMode) : string :=
  match mode with
  | presenter =>
      "**When to Navigate:**
- User explicitly asks to go forward, back, or to a specific topic
- User indicates they're done: " +:+ Json.dq +:+ "Got it" +:+ Json.dq +:+ ", " +:+ Json.dq +:+ "Makes sense, what's next?" +:+ Json.dq +:+ ", " +:+ Json.dq +:+ "Let's move on" +:+ Json.dq +:+ "
- You can suggest moving on after covering the key points: " +:+ Json.dq +:+ "Ready to see what's next?" +:+ Json.dq +:+ " or " +:+ Json.dq +:+ "Should we continue?" +:+ Json.dq +:+ "
- Wait for confirmation before actually navigating"
  | dialogue =>
      "**When to Navigate:**
- User explicitly asks to go forward, back, or to a specific topic
- User indicates they're done: " +:+ Json.dq +:+ "Got it" +:+ Json.dq +:+ ", " +:+ Json.dq +:+ "Makes sense" +:+ Json.dq +:+ ", " +:+ Json.dq +:+ "What else is there?" +:+ Json.dq +:+ "
- The conversation naturally reaches a resting point and you've touched on the key points
- Never rush - interesting tangents are welcome and valuable
- When transitioning, frame it as continuing the conversation: " +:+ Json.dq +:+ "This connects to something interesting on the next slide..." +:+ Json.dq
  | assistant_mode =>
      "**When to Navigate:**
- Only when user explicitly asks: " +:+ Json.dq +:+ "Next" +:+ Json.dq +:+ ", " +:+ Json.dq +:+ "Go back" +:+ Json.dq +:+ ", " +:+ Json.dq +:+ "Show me the next slide" +:+ Json.dq +:+ "
- Never suggest moving on - they control the pace entirely
- If they ask " +:+ Json.dq +:+ "what's next?" +:+ Json.dq +:+ ", describe it and let them decide whether to go
- Even if they've been on a slide for a long time, don't prompt them to move"
  end.

Definition pacingReminder (mode : InteractionMode) : string :=
  match mode with
  | presenter =>
      "- Keep responses conversational and moderate length - enough to explain, not so much that you lose them"
  | dialogue =>
      "- Keep turns short to maintain rhythm - pass the conversation back frequently"
  | assistant_mode =>
      "- Match response length to question depth - brief for simple, thorough for complex"
  end.

(** The sections of the prompt, in the order in which buildInstructions
    appends them: lines 289-332, 353-383, 450-457, 494, 518-537 and
    546-552. *)
Definition roleAndState (currentSlide : SlideMetadata)
    (slideOverview : list (string * string)) (mode : InteractionMode)
    (persona : PersonaType) : string :=
  "## Role & Persona

You are "
    +:+ persona_name (getPersonaConfig persona)
    +:+ ", a knowledgeable guide "
    +:+ roleFraming mode
    +:+ " " +:+ Json.dq
    +:+ PRESENTATION.title
    +:+ "." +:+ Json.dq +:+ "

**Voice Characteristics:**
"
    +:+ voiceCharacteristics persona
    +:+ "

**Communication Style:**
"
    +:+ communicationStyle mode persona
    +:+ "

---

## Presentation Context

**Topic:** "
    +:+ PRESENTATION.topic
    +:+ "

"
    +:+ (if truthy PRESENTATION.runningExample
       then "**Running Example:** " +:+ PRESENTATION.runningExample else "")
    +:+ "

**Target Audience:** "
    +:+ PRESENTATION.targetAudience
    +:+ "

**Core Framework:**
"
    +:+ PRESENTATION.coreFramework
    +:+ "

---

## Slide Overview

"
    +:+ join nl (overviewLines slideOverview)
    +:+ "

---

## Current State

**Current Slide:** "
    +:+ of_Z (slideNumber currentSlide)
    +:+ " of "
    +:+ of_Z (totalSlides currentSlide)
    +:+ "
**Slide ID:** "
    +:+ id currentSlide
    +:+ "
**Slide Title:** " +:+ Json.dq
    +:+ title currentSlide
    +:+ Json.dq +:+ "
"
    +:+ previousSlideLine (previousSlide currentSlide slideOverview)
    +:+ "
"
    +:+ nextSlideLine (nextSlide currentSlide slideOverview)
    +:+ "

---

## Current Slide Context

".

Definition slideContextSection (slideContext : option SlideContext)
    (mode : InteractionMode) : string :=
  match slideContext with
  | Some slideContext =>
      "### What the User Sees
"
      +:+ visualDescription slideContext
      +:+ "

### "
      +:+ keyPointsLabel mode
      +:+ "
"
      +:+ join nl (numbered (keyPoints slideContext))
      +:+ "

### Background Knowledge
"
      +:+ backgroundKnowledge slideContext
      +:+ "

### Engagement Approach
"
      +:+ engagementApproach slideContext
      +:+ "

### "
      +:+ openingHookLabel mode
      +:+ "
"
      +:+ openingHook slideContext
      +:+ "

### Interaction Prompts
"
      +:+ join nl (bulleted (interactionPrompts slideContext))
      +:+ "

### "
      +:+ transitionLabel mode
      +:+ "
"
      +:+ transitionToNext slideContext
      +:+ "
"
  | None =>
      noContextFallback mode
      +:+ "
"
  end.

Definition workingSection (mode : InteractionMode) (persona : PersonaType) : string :=
  "
---

"
    +:+ workingWithContexts mode persona
    +:+ "

---

".

Definition toolUsageSection (mode : InteractionMode) : string :=
  "

---

## Tool Usage Guidelines

**Available Tools:**
- `goToNextSlide()` - Navigate to the next slide
- `goToPreviousSlide()` - Navigate to the previous slide

"
    +:+ navigationBehavior mode
    +:+ "

**Context Updates:**
- You may receive `[Context Update]` messages indicating user actions (button clicks, toggles, etc.)
- These are informational - acknowledge them naturally if relevant to the conversation
- Example: If user clicks " +:+ Json.dq +:+ "Run Tests" +:+ Json.dq +:+ ", you might say " +:+ Json.dq +:+ "Great, let's see what happens..." +:+ Json.dq +:+ "

---

".

Definition remindersSection (mode : InteractionMode) : string :=
  "## Important Reminders

"
    +:+ pacingReminder mode
    +:+ "
- When the user interacts with the UI, acknowledge it naturally
- If asked a question you're unsure about, it's okay to say you're not certain
- Always be ready to go back and revisit earlier slides if the user wants
".

(** buildInstructions, lines 248-555. *)
Definition buildInstructions (currentSlide : SlideMetadata)
    (slideOverview : list (string * string)) (slideContext : option SlideContext)
    (mode : InteractionMode) (persona : PersonaType) : string :=
  roleAndState currentSlide slideOverview mode persona
  +:+ slideContextSection slideContext mode
  +:+ workingSection mode persona
  +:+ engagementGuidelines mode persona
  +:+ toolUsageSection mode
  +:+ remindersSection mode.


End Instructions.

(** ** Sample inputs *)

Module Samples.
Import PrimFloat Js TokenRoute.

(** The realtime API creates the session. *)
Definition created : UpstreamResponse :=
  {| status := 200;
     text := inr "";
     json := inr (Object [ ("id", Str "sess_1");
                           ("client_secret",
                            Object [ ("value", Str "ek_1");
                                     ("expires_at", Number 1700000000%float) ]) ]) |}.

(** The realtime API refuses the key. *)
Definition refused : UpstreamResponse :=
  {| status := 401; text := inr "refused"; json := inl (JsError "SyntaxError") |}.

Definition refusal : Value :=
  Object [("error", Object [("message", Str "Incorrect API key provided")])].

Definition client_body : Value :=
  Object [("instructions", Str "Be brief."); ("voice", Str "sage")].

Definition serving : Env :=
  {| OPENAI_API_KEY := Some "sk-test";
     request_json := inr client_body;
     fetch := fun _ => inr created;
     JSON_parse := fun _ => None |}.

Definition refusing : Env :=
  {| OPENAI_API_KEY := Some "sk-test";
     request_json := inr client_body;
     fetch := fun _ => inr refused;
     JSON_parse := fun _ => Some refusal |}.

Definition unconfigured : Env :=
  {| OPENAI_API_KEY := Some "";
     request_json := inr client_body;
     fetch := fun _ => inr created;
     JSON_parse := fun _ => None |}.

End Samples.

(** ** More relations and observations used by the proofs *)

(** The status is connected afterwards only if it was before. *)
Definition stays_unconnected : relation Connection.State :=
  fun s s' => Connection.status s' = connected -> Connection.status s = connected.

(** The text [needle] occurs in the text [hay]. *)
Definition occurs_in (needle hay : string) : Prop :=
  exists before after, hay = before +:+ needle +:+ after.

(** The same, as a test. *)
Fixpoint starts_with (needle hay : string) : bool :=
  match needle, hay with
  | EmptyString, _ => true
  | String a needle', String b hay' => Ascii.eqb a b && starts_with needle' hay'
  | String _ _, EmptyString => false
  end.

Fixpoint contains (needle hay : string) : bool :=
  starts_with needle hay
  || match hay with
     | EmptyString => false
     | String _ hay' => contains needle hay'
     end.

(** * Properties *)

Local Open Scope list_scope.

#[local] Arguments alter : simpl never.
#[local] Arguments insert : simpl never.
#[local] Arguments lookup : simpl never.

(** ** Facts about the hook's synchronous functions *)

Section ConnectionSync.
Import Browser Negotiation Connection.

Lemma channel_of_Some s dc :
  channel_of s = Some dc <->
  dataChannelRef s = Some dc /\ ready_state dc (browser s) = rs_open.
Proof.
  unfold channel_of. destruct (dataChannelRef s) as [d|].
  - case_decide; split; [intros [= ->]; done | intros [[= ->] _]; done
                        | discriminate | intros [[= ->] ?]; done].
  - split; [discriminate | intros [? _]; discriminate].
Qed.

Lemma log_log l1 l2 s : log l2 (log l1 s) = log (l1 ++ l2) s.
Proof. unfold log. simpl. rewrite <- app_assoc. reflexivity. Qed.

Lemma log_nil s : log [] s = s.
Proof.
  unfold log. simpl. rewrite app_nil_r.
  destruct s as [? ? ? ? ? ? ? ? ? ? []]. reflexivity.
Qed.

Lemma trace_log l s : trace (browser (log l s)) = trace (browser s) ++ l.
Proof. reflexivity. Qed.

(** A computation that only logs [l] has exactly the effects [l]. *)
Lemma effects_of_log {A} (m : Eff State A) l s c :
  m s = (c, log l s) -> effects_of m s = l.
Proof.
  intros H. unfold effects_of. simpl. rewrite H. simpl. by rewrite drop_app_length.
Qed.

Lemma completion_of {A} (m : Eff State A) s c s' :
  m s = (c, s') -> completion m s = c.
Proof. intros H. simpl. by rewrite H. Qed.

Lemma sendEvent_open ev s dc :
  channel_of s = Some dc ->
  sendEvent ev s = (Normal tt, log [channel_send dc ev] s).
Proof.
  intros [Hd Hr]%channel_of_Some. unfold sendEvent. simpl. rewrite Hd. simpl.
  rewrite Hr. simpl. rewrite Hr. reflexivity.
Qed.

Lemma sendEvent_closed ev s :
  channel_of s = None ->
  sendEvent ev s =
  (Normal tt, log [console_warn "Data channel not open, cannot send event:"] s).
Proof.
  unfold channel_of, sendEvent. simpl. destruct (dataChannelRef s) as [d|]; [|reflexivity].
  simpl. case_decide; [discriminate|reflexivity].
Qed.

(** sendEvent never throws, and only logs. *)
Lemma sendEvent_logs ev s :
  exists l, sendEvent ev s = (Normal tt, log l s).
Proof.
  destruct (channel_of s) as [dc|] eqn:H.
  - eexists. by apply sendEvent_open.
  - eexists. by apply sendEvent_closed.
Qed.

(** handleFunctionCall on an open channel: the callback, the output item
    and the trigger, in this order. *)
Lemma handleFunctionCall_open name callId args s dc :
  channel_of s = Some dc ->
  handleFunctionCall name callId args s =
  (Normal tt,
   log (console_log "Function call:" :: tool_action (navigationCallbacksRef s) name
        ++ [channel_send dc (conversation_item_create
              (function_call_output callId (tool_result (navigationCallbacksRef s) name)));
            channel_send dc response_create]) s).
Proof.
  intros Hdc. unfold handleFunctionCall, tool_action, tool_result. simpl.
  destruct (navigationCallbacksRef s) eqn:Hcb; repeat case_decide; simpl;
    rewrite ?Hcb; simpl;
    (rewrite sendEvent_open with (dc := dc) by exact Hdc); simpl;
    (rewrite sendEvent_open with (dc := dc) by exact Hdc);
    unfold log; simpl; rewrite <- ?app_assoc; reflexivity.
Qed.

Lemma handleFunctionCall_never_throws name callId args s :
  completion (handleFunctionCall name callId args) s = Normal tt.
Proof.
  unfold handleFunctionCall. simpl.
  destruct (navigationCallbacksRef s) eqn:Hcb; repeat case_decide; simpl;
    rewrite ?Hcb; simpl;
    match goal with
    | |- context [sendEvent ?ev ?s1] =>
        destruct (sendEvent_logs ev s1) as [l1 ->]; simpl
    end;
    match goal with
    | |- context [sendEvent ?ev ?s1] =>
        destruct (sendEvent_logs ev s1) as [l2 ->]; reflexivity
    end.
Qed.

End ConnectionSync.

(** ** The tool bridge and the hint channel *)

Section ToolBridge.
Import Browser Negotiation Connection.

Lemma sent_app l1 l2 : sent (l1 ++ l2) = sent l1 ++ sent l2.
Proof. unfold sent. by rewrite map_app, concat_app. Qed.

Lemma navigation_app l1 l2 :
  filter is_navigation (l1 ++ l2) = filter is_navigation l1 ++ filter is_navigation l2.
Proof. apply filter_app. Qed.

Lemma sent_tool_action cb name : sent (tool_action cb name) = [].
Proof. unfold tool_action. repeat case_decide; destruct cb; reflexivity. Qed.

Lemma navigation_tool_action cb name :
  filter is_navigation (tool_action cb name) = tool_action cb name.
Proof. unfold tool_action. repeat case_decide; destruct cb; reflexivity. Qed.

(** The loop of the response.done case: every function-call item is
    answered in turn, on the state the previous answers left. *)
Lemma harvest_open output : forall s dc,
  channel_of s = Some dc ->
  exists l,
    for_each output (fun item =>
      if decide (item_type item = item_function_call)
      then handleFunctionCall (item_name item) (item_call_id item) (item_arguments item)
      else eff_ret tt) s = (Normal tt, log l s)
    /\ sent l = flat_map (answer (navigationCallbacksRef s)) output.
Proof.
  induction output as [|item output IH]; intros s dc Hdc.
  - exists []. by rewrite log_nil.
  - cbn [for_each]. simpl. unfold answer at 1, is_function_call. 
    destruct (decide (item_type item = item_function_call)) as [Hty|Hty].
    + rewrite (handleFunctionCall_open _ _ _ _ dc Hdc).
      match goal with |- context [log ?l0 s] => set (l1 := l0) end.
      destruct (IH (log l1 s) dc Hdc) as (l2 & -> & Hsent).
      exists (l1 ++ l2). split; [by rewrite log_log|].
      rewrite sent_app, Hsent. subst l1.
      rewrite bool_decide_eq_true_2 by done.
      change (console_log "Function call:" :: ?x) with ([console_log "Function call:"] ++ x).
      rewrite !sent_app, sent_tool_action. reflexivity.
    + simpl. destruct (IH s dc Hdc) as (l2 & -> & Hsent).
      exists l2. split; [done|]. rewrite bool_decide_eq_false_2 by done. exact Hsent.
Qed.

Lemma response_done_open output s dc :
  channel_of s = Some dc ->
  exists l,
    handleServerEvent (response_done output) s
    = (Normal tt, log (set_is_agent_speaking false :: l) (with_isAgentSpeaking false s))
    /\ sent l = flat_map (answer (navigationCallbacksRef s)) output.
Proof.
  intros Hdc. unfold handleServerEvent. simpl.
  match goal with |- context [for_each _ _ ?s1] => 
    destruct (harvest_open output s1 dc Hdc) as (l & -> & Hsent) end.
  exists l. split; [|exact Hsent].
  unfold log. simpl. rewrite <- app_assoc. reflexivity.
Qed.

Lemma count_outputs cb output :
  length (filter is_call_output (flat_map (answer cb) output))
  = length (filter is_function_call output).
Proof.
  induction output as [|item output IH]; [done|].
  cbn [flat_map]. rewrite filter_app, length_app, IH, filter_cons. unfold answer.
  destruct (is_function_call item); reflexivity.
Qed.

Lemma count_triggers cb output :
  length (filter is_trigger (flat_map (answer cb) output))
  = length (filter is_function_call output).
Proof.
  induction output as [|item output IH]; [done|].
  cbn [flat_map]. rewrite filter_app, length_app, IH, filter_cons. unfold answer.
  destruct (is_function_call item); reflexivity.
Qed.

(** Claim C1, as amended.  When a response.done event arrives while the
    control channel is open, the bridge answers every function-call item
    of the output list in order with one function-call-output item
    immediately followed by one response-create trigger: as many output
    items, and as many triggers, as there are function-call items.  The
    handler completes normally. *)
Theorem response_done_answers_each_call s dc output :
  channel_of s = Some dc ->
  completion (handleServerEvent (response_done output)) s = Normal tt
  /\ sent (effects_of (handleServerEvent (response_done output)) s)
     = flat_map (answer (navigationCallbacksRef s)) output
  /\ length (filter is_call_output
               (sent (effects_of (handleServerEvent (response_done output)) s)))
     = length (filter is_function_call output)
  /\ length (filter is_trigger
               (sent (effects_of (handleServerEvent (response_done output)) s)))
     = length (filter is_function_call output).
Proof.
  intros Hdc. destruct (response_done_open output s dc Hdc) as (l & Heq & Hsent).
  assert (Heff : sent (effects_of (handleServerEvent (response_done output)) s)
                 = flat_map (answer (navigationCallbacksRef s)) output).
  { unfold effects_of. simpl. rewrite Heq. simpl. rewrite drop_app_length.
    change (set_is_agent_speaking false :: l) with ([set_is_agent_speaking false] ++ l).
    rewrite sent_app. exact Hsent. }
  split; [by rewrite (completion_of _ _ _ _ Heq)|].
  split; [exact Heff|]. rewrite Heff. split; [apply count_outputs|apply count_triggers].
Qed.

Lemma response_done_answers_each_call_witness :
  channel_of Scenario.established = Some 0
  /\ sent (effects_of (handleServerEvent
             (response_done [Scenario.function_call "goToNextSlide" "c1";
                             Scenario.spoken_message;
                             Scenario.function_call "goToPreviousSlide" "c2"]))
             Scenario.established)
     = [conversation_item_create (function_call_output (Some "c1") navigated_next);
        response_create;
        conversation_item_create (function_call_output (Some "c2") navigated_previous);
        response_create].
Proof.
  split; [vm_compute; reflexivity|].
  refine (eq_trans (proj1 (proj2 (response_done_answers_each_call
                                    Scenario.established 0 _ _))) _);
    vm_compute; reflexivity.
Defined.

(** Claim C1 as stated fails: a response with two function-call items is
    answered with two response-create triggers, not one. *)
Lemma two_calls_two_triggers :
  sent (effects_of (handleServerEvent
          (response_done [Scenario.function_call "goToNextSlide" "c1";
                          Scenario.function_call "goToPreviousSlide" "c2"]))
          Scenario.established)
  = [conversation_item_create (function_call_output (Some "c1") navigated_next);
     response_create;
     conversation_item_create (function_call_output (Some "c2") navigated_previous);
     response_create]
  /\ length (filter is_trigger
        (sent (effects_of (handleServerEvent
           (response_done [Scenario.function_call "goToNextSlide" "c1";
                           Scenario.function_call "goToPreviousSlide" "c2"]))
           Scenario.established))) <> 1.
Proof. split; [vm_compute; reflexivity | vm_compute; discriminate]. Qed.

(** The payloads, character by character. *)
Lemma navigated_next_text :
  navigated_next
  = "{" +:+ Json.quoted "success" +:+ ":true," +:+ Json.quoted "action" +:+ ":"
    +:+ Json.quoted "navigated_next" +:+ "}".
Proof. reflexivity. Qed.

Lemma navigated_previous_text :
  navigated_previous
  = "{" +:+ Json.quoted "success" +:+ ":true," +:+ Json.quoted "action" +:+ ":"
    +:+ Json.quoted "navigated_previous" +:+ "}".
Proof. reflexivity. Qed.

Lemma navigation_not_available_text :
  navigation_not_available
  = "{" +:+ Json.quoted "success" +:+ ":false," +:+ Json.quoted "error" +:+ ":"
    +:+ Json.quoted "Navigation not available" +:+ "}".
Proof. reflexivity. Qed.

(** Claim C5, as amended.  Dispatch never throws, in any state.  When the
    control channel is open it sends exactly one function-call-output
    item carrying the originating callId, followed by one response-create
    trigger.  With callbacks registered, the advance tool invokes goToNext
    exactly once and answers success/navigated_next (the retreat tool:
    goToPrevious, navigated_previous); with no callbacks registered the
    two tools invoke nothing and answer success false with the error text
    "Navigation not available"; any other name invokes nothing and
    answers an object whose only field is error, "Unknown function: "
    followed by the name. *)
Theorem tool_bridge_dispatch s dc name callId args :
  channel_of s = Some dc ->
  (forall s', completion (handleFunctionCall name callId args) s' = Normal tt)
  /\ sent (effects_of (handleFunctionCall name callId args) s)
     = [conversation_item_create
          (function_call_output callId (tool_result (navigationCallbacksRef s) name));
        response_create]
  /\ filter is_navigation (effects_of (handleFunctionCall name callId args) s)
     = tool_action (navigationCallbacksRef s) name
  /\ (forall cb, navigationCallbacksRef s = Some cb ->
        (name = Some "goToNextSlide" ->
           tool_action (navigationCallbacksRef s) name = [go_to_next]
           /\ tool_result (navigationCallbacksRef s) name
              = "{" +:+ Json.quoted "success" +:+ ":true," +:+ Json.quoted "action"
                +:+ ":" +:+ Json.quoted "navigated_next" +:+ "}")
        /\ (name = Some "goToPreviousSlide" ->
           tool_action (navigationCallbacksRef s) name = [go_to_previous]
           /\ tool_result (navigationCallbacksRef s) name
              = "{" +:+ Json.quoted "success" +:+ ":true," +:+ Json.quoted "action"
                +:+ ":" +:+ Json.quoted "navigated_previous" +:+ "}"))
  /\ (navigationCallbacksRef s = None ->
        name = Some "goToNextSlide" \/ name = Some "goToPreviousSlide" ->
        tool_action (navigationCallbacksRef s) name = []
        /\ tool_result (navigationCallbacksRef s) name
           = "{" +:+ Json.quoted "success" +:+ ":false," +:+ Json.quoted "error"
             +:+ ":" +:+ Json.quoted "Navigation not available" +:+ "}")
  /\ (name <> Some "goToNextSlide" -> name <> Some "goToPreviousSlide" ->
        tool_action (navigationCallbacksRef s) name = []
        /\ tool_result (navigationCallbacksRef s) name
           = Json.stringify
               [("error", Json.JString ("Unknown function: " +:+ name_text name))]).
Proof.
  intros Hdc. pose proof (handleFunctionCall_open name callId args s dc Hdc) as Heq.
  split; [intros s'; apply handleFunctionCall_never_throws|].
  rewrite (effects_of_log _ _ _ _ Heq).
  split.
  { change (console_log "Function call:" :: ?x) with ([console_log "Function call:"] ++ x).
    by rewrite !sent_app, sent_tool_action. }
  split.
  { change (console_log "Function call:" :: ?x) with ([console_log "Function call:"] ++ x).
    by rewrite !navigation_app, navigation_tool_action, app_nil_r. }
  unfold tool_action, tool_result, TOOL_NAMES.GO_TO_NEXT_SLIDE,
    TOOL_NAMES.GO_TO_PREVIOUS_SLIDE.
  split; [intros cb Hcb; rewrite Hcb; split; intros ->; split; reflexivity|].
  split; [intros Hcb [-> | ->]; rewrite Hcb; split; reflexivity|].
  intros H1 H2. rewrite !decide_False by done. split; reflexivity.
Qed.

Lemma tool_bridge_dispatch_witness :
  channel_of Scenario.established = Some 0
  /\ sent (effects_of (handleFunctionCall (Some "goToNextSlide") (Some "c1") (Some "{}"))
             Scenario.established)
     = [conversation_item_create
          (function_call_output (Some "c1")
             ("{" +:+ Json.quoted "success" +:+ ":true," +:+ Json.quoted "action"
              +:+ ":" +:+ Json.quoted "navigated_next" +:+ "}"));
        response_create]
  /\ filter is_navigation
       (effects_of (handleFunctionCall (Some "goToNextSlide") (Some "c1") (Some "{}"))
          Scenario.established)
     = [go_to_next].
Proof.
  split; [vm_compute; reflexivity|].
  destruct (tool_bridge_dispatch Scenario.established 0 (Some "goToNextSlide")
              (Some "c1") (Some "{}") ltac:(vm_compute; reflexivity))
    as (_ & Hsent & Hnav & _).
  split; [rewrite Hsent | rewrite Hnav]; vm_compute; reflexivity.
Defined.

(** Claim C5 as stated fails: without registered callbacks the payload is
    not the object with error text "navigation unavailable". *)
Lemma unregistered_payload_differs :
  sent (effects_of (handleFunctionCall (Some "goToNextSlide") (Some "c1") (Some "{}"))
          Scenario.established_without_callbacks)
  = [conversation_item_create
       (function_call_output (Some "c1")
          (Json.stringify [("success", Json.JBool false);
                           ("error", Json.JString "Navigation not available")]));
     response_create]
  /\ Json.stringify [("success", Json.JBool false);
                     ("error", Json.JString "Navigation not available")]
     <> Json.stringify [("success", Json.JBool false);
                        ("error", Json.JString "navigation unavailable")].
Proof. split; [vm_compute; reflexivity | vm_compute; discriminate]. Qed.

End ToolBridge.

Section HintChannel.
Import Browser Negotiation Connection.




(** Claim C7.  In every state whose status is not connected, sendHint
    returns normally and leaves the state untouched, and sendTextMessage
    returns normally having done nothing but log a warning: neither
    writes to a channel. *)
Theorem not_connected_is_noop s text :
  status s <> connected ->
  sendHint text s = (Normal tt, s)
  /\ sendTextMessage text s = (Normal tt, log [console_warn "Not connected"] s)
  /\ sent (effects_of (sendHint text) s) = []
  /\ sent (effects_of (sendTextMessage text) s) = [].
Proof.
  intros Hst.
  assert (H1 : sendHint text s = (Normal tt, s))
    by (unfold sendHint; simpl; by rewrite decide_True).
  assert (H2 : sendTextMessage text s = (Normal tt, log [console_warn "Not connected"] s))
    by (unfold sendTextMessage; simpl; by rewrite decide_True).
  split; [exact H1|]. split; [exact H2|]. split.
  - unfold effects_of. simpl. rewrite H1. simpl. by rewrite drop_all.
  - by rewrite (effects_of_log _ _ _ _ H2).
Qed.

Lemma not_connected_is_noop_witness :
  status Scenario.waiting <> connected
  /\ sendHint "User clicked Process." Scenario.waiting = (Normal tt, Scenario.waiting)
  /\ sent (effects_of (sendTextMessage "hello") Scenario.waiting) = [].
Proof.
  assert (H : status Scenario.waiting <> connected) by (vm_compute; discriminate).
  split; [exact H|].
  destruct (not_connected_is_noop Scenario.waiting "User clicked Process." H)
    as (H1 & _).
  destruct (not_connected_is_noop Scenario.waiting "hello" H) as (_ & _ & _ & H4).
  split; [exact H1 | exact H4].
Defined.



End HintChannel.


(** ** Computations that respect a preorder on states *)

Section Respects.
Context {S : Type} (R : relation S) `{!PreOrder R}.

Lemma respects_ret {A} (a : A) : respects R (eff_ret a).
Proof. intros s. simpl. reflexivity. Qed.

Lemma respects_throw {A} e : respects R (throw e : Eff S A).
Proof. intros s. simpl. reflexivity. Qed.

Lemma respects_gets {A} (f : S -> A) : respects R (gets f).
Proof. intros s. simpl. reflexivity. Qed.

Lemma respects_modify f : (forall s, R s (f s)) -> respects R (modify f).
Proof. intros H s. simpl. apply H. Qed.

Lemma respects_bind {A B} (m : Eff S A) (k : A -> Eff S B) :
  respects R m -> (forall a, respects R (k a)) -> respects R (eff_bind m k).
Proof.
  intros Hm Hk s. simpl. specialize (Hm s). destruct (m s) as [[a|e] s1]; simpl in *.
  - etransitivity; [exact Hm | apply Hk].
  - exact Hm.
Qed.

Lemma respects_try_catch {A} (m : Eff S A) h :
  respects R m -> (forall e, respects R (h e)) -> respects R (try_catch m h).
Proof.
  intros Hm Hh s. simpl. specialize (Hm s). destruct (m s) as [[a|e] s1]; simpl in *.
  - exact Hm.
  - etransitivity; [exact Hm | apply Hh].
Qed.

Lemma respects_when b (m : Eff S unit) : respects R m -> respects R (when b m).
Proof. intros Hm. destruct b; simpl; [exact Hm | refine (respects_ret _)]. Qed.

Lemma respects_for_each {A} (l : list A) (f : A -> Eff S unit) :
  (forall x, respects R (f x)) -> respects R (for_each l f).
Proof.
  intros Hf. induction l as [|x l IH]; simpl.
  - apply respects_ret.
  - apply respects_bind; [apply Hf | intros _; exact IH].
Qed.

End Respects.

(** Decompose a goal [respects R m] along the structure of [m]. *)
Ltac respects_step :=
  lazymatch goal with
  | |- respects _ (eff_bind _ _) => refine (respects_bind _ _ _ _ _); [|intros ?]
  | |- respects _ (eff_ret _) => refine (respects_ret _ _)
  | |- respects _ (gets _) => refine (respects_gets _ _)
  | |- respects _ (throw _) => refine (respects_throw _ _)
  | |- respects _ (try_catch _ _) => refine (respects_try_catch _ _ _ _ _); [|intros ?]
  | |- respects _ (when _ _) => refine (respects_when _ _ _ _)
  | |- respects _ (for_each _ _) => refine (respects_for_each _ _ _ _); intros ?
  | |- respects _ (if ?x then _ else _) => destruct x
  | |- respects _ (match ?x with _ => _ end) => destruct x
  end.

(** ** Traces only grow, and only by what a computation emits *)

Section Growth.
Import Browser.

Variable allowed : Effect -> bool.

#[global] Instance grows_preorder : PreOrder (grows allowed).
Proof.
  split.
  - intros t. exists []. by rewrite app_nil_r.
  - intros t1 t2 t3 (l1 & -> & H1) (l2 & -> & H2). exists (l1 ++ l2).
    split; [by rewrite app_assoc|]. rewrite forallb_app, H1, H2. done.
Qed.

#[global] Instance store_grows_preorder : PreOrder (store_grows allowed).
Proof.
  split.
  - intros b. unfold store_grows. reflexivity.
  - intros b1 b2 b3. unfold store_grows. intros. etransitivity; eauto.
Qed.

Lemma emit_grows e : allowed e = true -> respects (store_grows allowed) (emit e).
Proof. intros He b. exists [e]. simpl. by rewrite He. Qed.

Lemma silent_grows (f : Store -> Store) :
  (forall b, trace (f b) = trace b) -> respects (store_grows allowed) (modify f).
Proof. intros Hf. apply respects_modify. intros b. exists []. by rewrite Hf, app_nil_r. Qed.

(** What the browser primitives emit. *)
Lemma new_peer_connection_grows : respects (store_grows allowed) new_peer_connection.
Proof. intros b. exists []. simpl. by rewrite app_nil_r. Qed.

Lemma create_audio_grows : respects (store_grows allowed) create_audio.
Proof. intros b. exists []. simpl. by rewrite app_nil_r. Qed.

Lemma new_stream_grows n : respects (store_grows allowed) (new_stream n).
Proof. intros b. exists []. simpl. by rewrite app_nil_r. Qed.

Lemma update_peer_grows pc f : respects (store_grows allowed) (update_peer pc f).
Proof. by apply silent_grows. Qed.

Lemma set_ready_state_grows dc r : respects (store_grows allowed) (set_ready_state dc r).
Proof. by apply silent_grows. Qed.

Lemma set_src_object_grows a v : respects (store_grows allowed) (set_src_object a v).
Proof. by apply silent_grows. Qed.

Lemma set_autoplay_grows a v : respects (store_grows allowed) (set_autoplay a v).
Proof. by apply silent_grows. Qed.

Lemma add_track_grows pc st t : respects (store_grows allowed) (add_track pc st t).
Proof. unfold add_track. repeat respects_step. Qed.

Lemma create_data_channel_grows pc : respects (store_grows allowed) (create_data_channel pc).
Proof.
  unfold create_data_channel. repeat respects_step.
  intros b. exists []. simpl. by rewrite app_nil_r.
Qed.

Lemma close_peer_grows pc :
  allowed (peer_close pc) = true -> respects (store_grows allowed) (close_peer pc).
Proof.
  intros H. unfold close_peer. repeat respects_step;
    [by apply emit_grows | apply update_peer_grows].
Qed.

Lemma send_grows dc ev :
  allowed (channel_send dc ev) = true -> respects (store_grows allowed) (send dc ev).
Proof. intros H. unfold send. repeat respects_step. by apply emit_grows. Qed.

Lemma close_channel_grows dc :
  allowed (channel_close dc) = true -> respects (store_grows allowed) (close_channel dc).
Proof.
  intros H. unfold close_channel. repeat respects_step;
    first [by apply emit_grows | apply set_ready_state_grows].
Qed.

Lemma stop_track_grows st t :
  allowed (track_stop st t) = true -> respects (store_grows allowed) (stop_track st t).
Proof.
  intros H. unfold stop_track. repeat respects_step;
    [by apply emit_grows | by apply silent_grows].
Qed.

Lemma set_timer_grows ms a :
  (forall id, allowed (set_timeout id ms) = true) -> respects (store_grows allowed) (set_timer ms a).
Proof. intros H b. eexists [_]. simpl. split; [reflexivity|]. by rewrite H. Qed.

Lemma clear_timer_grows t :
  allowed (clear_timeout t) = true -> respects (store_grows allowed) (clear_timer t).
Proof.
  intros H. unfold clear_timer. repeat respects_step;
    [by apply emit_grows | by apply silent_grows].
Qed.

End Growth.

(** ** What each turn of the hook's event loop may emit *)

Section ConnectionGrowth.
Import Browser Negotiation Connection.

Variable allowed : Effect -> bool.

#[global] Instance emits_only_preorder : PreOrder (emits_only allowed).
Proof.
  split.
  - intros s. unfold emits_only. reflexivity.
  - intros s1 s2 s3. unfold emits_only. intros. etransitivity; eauto.
Qed.

Lemma lift_respects {A} (m : Eff Store A) :
  respects (store_grows allowed) m -> respects (emits_only allowed) (lift m).
Proof.
  intros Hm s. specialize (Hm (browser s)). unfold emits_only. simpl.
  destruct (m (browser s)) as [c b]. exact Hm.
Qed.

Lemma field_respects (f : State -> State) :
  (forall s, browser (f s) = browser s) -> respects (emits_only allowed) (modify f).
Proof.
  intros Hf. apply respects_modify. intros s. unfold emits_only. rewrite Hf. reflexivity.
Qed.

Lemma emits_only_effects {A} (m : Eff State A) s :
  respects (emits_only allowed) m -> forallb allowed (effects_of m s) = true.
Proof.
  intros Hm. destruct (Hm s) as (l & Hl & Hall). unfold effects_of. simpl.
  rewrite Hl. by rewrite drop_app_length.
Qed.

End ConnectionGrowth.

(** Solve [respects (emits_only allowed) m] for a concrete [allowed] by
    walking through [m]; what is left are the computations that emit
    something [allowed] rejects. *)
Ltac emits_store :=
  first
    [ apply emit_grows; reflexivity
    | apply new_peer_connection_grows
    | apply create_audio_grows
    | apply new_stream_grows
    | apply update_peer_grows
    | apply set_ready_state_grows
    | apply set_src_object_grows
    | apply set_autoplay_grows
    | apply add_track_grows
    | apply create_data_channel_grows
    | apply close_peer_grows; reflexivity
    | apply send_grows; reflexivity
    | apply close_channel_grows; reflexivity
    | apply stop_track_grows; reflexivity
    | apply set_timer_grows; intros; reflexivity
    | apply clear_timer_grows; reflexivity
    | apply silent_grows; intros; reflexivity ].

Ltac emits_step :=
  first
    [ respects_step
    | apply lift_respects; emits_store
    | apply field_respects; intros; reflexivity
    | progress unfold Connection.setStatus, Connection.setIsAgentSpeaking,
        Connection.setError, Connection.onTranscript, Connection.onUserTranscript,
        Connection.onError, Connection.setNavigationCallbacks, Connection.sendEvent,
        Connection.cleanup, Connection.disconnect, Connection.sendTextMessage,
        Connection.sendHint, Connection.updateInstructions, Connection.connect,
        Connection.connect_catch, Connection.in_try, Connection.set_stage,
        Connection.on_connection_state_change, Connection.on_timeout,
        Connection.on_channel_open, Connection.on_channel_close, Browser.set_ontrack,
        Browser.add_state_listener ].

Section Dispatch.
Import Browser Negotiation Connection.

Lemma no_navigation l :
  forallb not_navigation l = true -> filter is_navigation l = [].
Proof.
  induction l as [|e l IH]; [done|]. simpl. intros [He Hl]%andb_prop.
  rewrite filter_cons, IH by done. unfold not_navigation in He.
  destruct (is_navigation e); [discriminate | reflexivity].
Qed.

Lemma connect_catch_no_navigation task e :
  respects (emits_only not_navigation) (connect_catch task e).
Proof. repeat emits_step. Qed.

Lemma resume_no_navigation task stage v :
  respects (emits_only not_navigation) (resume task stage v).
Proof.
  unfold resume.
  destruct stage, v; try apply connect_catch_no_navigation; repeat emits_step.
Qed.

(** Every server event but response.done is handled without a call into
    the navigation callbacks. *)
Lemma handleServerEvent_no_navigation ev :
  (forall output, ev <> response_done output) ->
  respects (emits_only not_navigation) (handleServerEvent ev).
Proof.
  intros Hev. unfold handleServerEvent. destruct ev; try (by repeat emits_step).
  by destruct (Hev output).
Qed.

Lemma step_no_navigation e :
  is_response_done e = false ->
  respects (emits_only not_navigation) (step e).
Proof.
  intros He. destruct e; simpl; try (by repeat emits_step).
  - refine (respects_bind _ _ _ _ _); [by repeat emits_step|intros stage].
    apply resume_no_navigation.
  - unfold on_channel_message. repeat emits_step.
    apply handleServerEvent_no_navigation. intros output ->. discriminate.
Qed.

Lemma run_snoc evs e s : run (evs ++ [e]) s = exec_state (step e) (run evs s).
Proof. unfold run. by rewrite foldl_app. Qed.

Lemma run_no_navigation evs : forall s,
  forallb (fun e => negb (is_response_done e)) evs = true ->
  filter is_navigation (trace (browser (run evs s)))
  = filter is_navigation (trace (browser s)).
Proof.
  induction evs as [|e evs IH]; intros s; [done|].
  simpl. intros [He Hevs]%andb_prop. change (run (e :: evs) s) with (run evs (exec_state (step e) s)).
  rewrite IH by done.
  destruct (step_no_navigation e ltac:(by destruct (is_response_done e)) s) as (l & Hl & Hall).
  simpl. rewrite Hl, filter_app, (no_navigation l Hall). by rewrite app_nil_r.
Qed.

(** Claim C2.  After any sequence of events, the turn of an event other
    than a delivered response.done invokes no navigation callback; a
    delivered response.output_item.done leaves the whole state as it
    was; and a sequence without response.done invokes none at all.  The
    callbacks are reached only from the response.done case. *)
Theorem navigation_only_on_response_done (history : list Event) (s0 : State) (e : Event) :
  is_response_done e = false ->
  filter is_navigation (effects_of (step e) (run history s0)) = []
  /\ (forall dc item,
        step (channel_message dc (Some (response_output_item_done item))) (run history s0)
        = (Normal tt, run history s0))
  /\ (forallb (fun e => negb (is_response_done e)) history = true ->
        filter is_navigation (trace (browser (run history s0)))
        = filter is_navigation (trace (browser s0))).
Proof.
  intros He. split; [|split].
  - apply no_navigation, emits_only_effects, step_no_navigation, He.
  - intros dc item. simpl.
    destruct (channels (browser (run history s0)) !! dc) as [[]|]; reflexivity.
  - apply run_no_navigation.
Qed.

Lemma navigation_only_on_response_done_witness :
  is_response_done
    (channel_message 0 (Some (response_output_item_done
                                (Scenario.function_call "goToNextSlide" "c1")))) = false
  /\ filter is_navigation
       (effects_of
          (step (channel_message 0 (Some (response_output_item_done
                                            (Scenario.function_call "goToNextSlide" "c1")))))
          (run [connection_state_change 0 pc_connected; channel_opened 0]
               Scenario.waiting)) = [].
Proof.
  split; [reflexivity|].
  exact (proj1 (navigation_only_on_response_done
                  [connection_state_change 0 pc_connected; channel_opened 0]
                  Scenario.waiting
                  (channel_message 0 (Some (response_output_item_done
                                              (Scenario.function_call "goToNextSlide" "c1"))))
                  eq_refl)).
Defined.

End Dispatch.

(** ** The session coordinator *)

Section SessionCoordinator.
Import Browser Coordinator.

Variable build :
  SlideMetadata -> list (string * string) -> InteractionMode -> PersonaType -> string.

Lemma trace_logged l s : trace (logged l s) = trace s ++ l.
Proof. reflexivity. Qed.




End SessionCoordinator.



(** ** The greeting *)

Section Greeting.
Import Browser Coordinator.

Variable build :
  SlideMetadata -> list (string * string) -> InteractionMode -> PersonaType -> string.

#[global] Instance keeps_flag_preorder : PreOrder keeps_flag.
Proof.
  split.
  - intros s. reflexivity.
  - intros s1 s2 s3 H1 H2. unfold keeps_flag in *. congruence.
Qed.










End Greeting.


(** ** Calls that arrive while a negotiation is in flight *)

Section StatusGuard.
Import Browser Negotiation Connection.

(** connect is ignored unless the status is disconnected: it logs a
    warning, starts no negotiation and changes nothing else. *)
Lemma connect_ignored s instructions voice :
  status s <> disconnected ->
  connect instructions voice s
  = (Normal tt, log [console_warn "Already connected or connecting"] s).
Proof. intros H. unfold connect. simpl. by rewrite decide_True. Qed.

(** The statuses set along a trace. *)
Lemma statuses_of_cancelled_connect :
  omap (fun e => match e with set_status v => Some v | _ => None end)
       (trace (browser (exec_state (step (channel_opened 0))
                          Scenario.disconnected_while_connecting)))
  = [connecting; disconnected; connected].
Proof. vm_compute. reflexivity. Qed.

(** Claim C6, on the failing input.  connect is called, disconnect is
    called while the token request is in flight, and the negotiation runs
    on: it creates the transport and the channel although the status is
    disconnected, and when the channel opens the status goes from
    disconnected straight to connected. *)
Theorem disconnect_while_connecting_skips_connecting :
  status Scenario.disconnected_while_connecting = disconnected
  /\ stage_of 0 Scenario.disconnected_while_connecting = finished None
  /\ open_peers (browser Scenario.disconnected_while_connecting) = 1
  /\ live_tracks (browser Scenario.disconnected_while_connecting) = 1
  /\ status (exec_state (step (channel_opened 0)) Scenario.disconnected_while_connecting)
     = connected.
Proof. vm_compute. repeat split; reflexivity. Qed.

End StatusGuard.

Section AuditionExclusion.
Import Browser Negotiation Audition.

(** Restarting over an established audition releases all it held before
    the new negotiation starts. *)
Lemma restart_releases_established_audition :
  status Scenario.auditioning = connected
  /\ open_peers (browser Scenario.auditioning) = 1
  /\ live_tracks (browser Scenario.auditioning) = 1
  /\ open_channels (browser Scenario.auditioning) = 1
  /\ status (exec_state (startAudition coach) Scenario.auditioning) = connecting
  /\ activePersona (exec_state (startAudition coach) Scenario.auditioning) = Some coach
  /\ open_peers (browser (exec_state (startAudition coach) Scenario.auditioning)) = 0
  /\ live_tracks (browser (exec_state (startAudition coach) Scenario.auditioning)) = 0
  /\ open_channels (browser (exec_state (startAudition coach) Scenario.auditioning)) = 0.
Proof. vm_compute. repeat split; reflexivity. Qed.

(** Claim C9, on the failing input.  A second audition is requested while
    the first is still connecting, before its token request settled: the
    cleanup finds the refs empty, the first negotiation runs on, and in the
    end two peer connections, two capture tracks and two channels are
    open, the first of each referenced by no ref. *)
Theorem second_audition_while_connecting_leaves_two :
  status Scenario.two_auditions = connected
  /\ open_peers (browser Scenario.two_auditions) = 2
  /\ live_tracks (browser Scenario.two_auditions) = 2
  /\ open_channels (browser Scenario.two_auditions) = 2
  /\ peerConnectionRef Scenario.two_auditions = Some 1
  /\ localStreamRef Scenario.two_auditions = Some 1
  /\ dataChannelRef Scenario.two_auditions = Some 1.
Proof. vm_compute. repeat split; reflexivity. Qed.

End AuditionExclusion.

(** ** Cleanup releases what the refs hold *)

Section Release.
Import Browser Negotiation Connection.

Lemma filter_length_zero {A} (P : A -> Prop) `{Hdec : !forall x, Decision (P x)}
    (l : list A) :
  length (filter P l) = 0 <-> forall x, x ∈ l -> ~ P x.
Proof.
  induction l as [|x l IH].
  - split; [intros _ y Hy; by apply elem_of_nil in Hy | done].
  - rewrite filter_cons. destruct (decide (P x)) as [Hx|Hx]; simpl.
    + split; [discriminate|]. intros Hall. destruct (Hall x); [left | done].
    + rewrite IH. split.
      * intros Hall y [->|Hy]%elem_of_cons; [done | by apply Hall].
      * intros Hall y Hy. apply Hall. by right.
Qed.

Lemma stop_all_lookup l : forall ts k,
  stop_all l ts !! k = if decide (k ∈ l) then (fun _ => false) <$> ts !! k else ts !! k.
Proof.
  induction l as [|t l IH]; intros ts k; simpl.
  - destruct (decide (k ∈ [])) as [Hin%elem_of_nil|]; done.
  - rewrite IH. destruct (decide (k = t)) as [->|Hne].
    + rewrite (decide_True (P := t ∈ t :: l)) by left.
      destruct (decide (t < length ts)) as [Hlt|Hge].
      * rewrite list_lookup_insert_eq by done.
        destruct (lookup_lt_is_Some_2 ts t Hlt) as [b ->]. by case_decide.
      * rewrite list_insert_ge by lia. rewrite (lookup_ge_None_2 ts t) by lia.
        by case_decide.
    + rewrite list_lookup_insert_ne by done.
      destruct (decide (k ∈ l)) as [Hin|Hnin].
      * by rewrite decide_True by (by right).
      * rewrite decide_False; [done|]. intros [?|?]%elem_of_cons; done.
Qed.

Lemma stop_all_dead ts : true ∉ stop_all (seq 0 (length ts)) ts.
Proof.
  intros [k Hk]%list_elem_of_lookup. rewrite stop_all_lookup in Hk.
  destruct (ts !! k) as [b|] eqn:E.
  - rewrite decide_True in Hk; [simpl in Hk; congruence|].
    apply elem_of_seq. apply lookup_lt_Some in E. lia.
  - by case_decide.
Qed.

Lemma state_eta s :
  with_browser
    (with_trace (trace (browser s)) (with_streams (streams (browser s)) (browser s))) s = s.
Proof. destruct s as [? ? ? ? ? ? ? ? ? ? []]. reflexivity. Qed.

(** The loop of cleanup over the tracks of [stream]. *)
Lemma stop_tracks_eq stream l : forall s,
  for_each l (fun t => lift (stop_track stream t)) s
  = (Normal tt,
     with_browser
       (with_trace (trace (browser s) ++ map (track_stop stream) l)
          (with_streams (alter (stop_all l) stream (streams (browser s))) (browser s)))
       s).
Proof.
  induction l as [|t l IH]; intros s.
  - simpl. rewrite app_nil_r. unfold stop_all. simpl.
    rewrite (list_alter_id (fun ts => ts)) by done. by rewrite state_eta.
  - cbn [for_each]. simpl. rewrite IH. simpl.
    rewrite list_alter_alter_eq, <- app_assoc. reflexivity.
Qed.

Lemma cleanup_blocks :
  cleanup
  = eff_bind release_channel (fun _ =>
    eff_bind release_stream (fun _ =>
    eff_bind release_peer (fun _ => release_sink))).
Proof. reflexivity. Qed.

Ltac unfold_setters :=
  unfold with_status, with_isAgentSpeaking, with_error, with_peerConnectionRef,
    with_dataChannelRef, with_localStreamRef, with_audioElementRef,
    with_navigationCallbacksRef, with_tasks, with_browser, with_peers, with_channels,
    with_streams, with_audios, with_timers, with_trace in *;
  simpl in *.

Ltac open_state s :=
  destruct s as [sts spk err pcRef dcRef lsRef auRef nav opts tks
                   [prs chs strs aus tms tr]];
  simpl in *.

Lemma release_channel_spec s :
  exists chs tr,
    release_channel s
    = (Normal tt,
       with_dataChannelRef None
         (with_browser (with_trace tr (with_channels chs (browser s))) s))
    /\ (channels_owned s ->
        forall i r, chs !! i = Some r -> channel_is_live r = false).
Proof.
  unfold release_channel, channels_owned, ready_state. open_state s.
  destruct dcRef as [dc|]; simpl.
  - unfold ready_state. simpl. destruct (chs !! dc) as [r0|] eqn:Er; simpl.
    + destruct r0; simpl; (unfold_setters; eexists _, _; split; [reflexivity|]); intros Hown i r Hi;
        try (apply list_lookup_insert_Some in Hi as [(-> & <- & _)|[Hne Hi]]; [done|]);
        (destruct (channel_is_live r) eqn:El; [|done]);
        specialize (Hown i r Hi El); simplify_eq; done.
    + unfold_setters; eexists _, _; split; [reflexivity|]. intros Hown i r Hi.
      destruct (channel_is_live r) eqn:El; [|done].
      specialize (Hown i r Hi El). simplify_eq.
  - unfold_setters. eexists _, _. split; [reflexivity|].
    intros Hown i r Hi. destruct (channel_is_live r) eqn:El; [|done].
    specialize (Hown i r Hi El). congruence.
Qed.

Lemma release_stream_spec s :
  exists strs tr,
    release_stream s
    = (Normal tt,
       with_localStreamRef None
         (with_browser (with_trace tr (with_streams strs (browser s))) s))
    /\ (streams_owned s -> forall i ts, strs !! i = Some ts -> true ∉ ts).
Proof.
  unfold release_stream, streams_owned.
  destruct (localStreamRef s) as [stream|] eqn:Els; simpl; rewrite Els; simpl.
  - rewrite stop_tracks_eq. open_state s. subst. unfold_setters. eexists _, _. split; [reflexivity|].
    intros Hown i ts Hi Hlive. unfold get_tracks in Hi. simpl in Hi.
    rewrite list_lookup_alter in Hi. case_decide as Heq.
    + subst i. destruct (strs !! stream) as [ts0|] eqn:E; [|done].
      simpl in Hi. injection Hi as <-. by apply stop_all_dead in Hlive.
    + specialize (Hown i ts Hi Hlive). congruence.
  - open_state s. subst. unfold_setters. eexists _, _. split; [reflexivity|].
    intros Hown i ts Hi Hlive. specialize (Hown i ts Hi Hlive). congruence.
Qed.

Lemma release_peer_spec t s :
  exists prs tr,
    release_peer s
    = (Normal tt,
       with_peerConnectionRef None
         (with_browser (with_trace tr (with_peers prs (browser s))) s))
    /\ (peers_owned t s -> forall i p, prs !! i = Some p -> pc_isClosed p = true).
Proof.
  unfold release_peer, peers_owned. open_state s.
  destruct pcRef as [pc|]; simpl.
  - unfold_setters. eexists _, _. split; [reflexivity|].
    intros Hown i p Hi. rewrite list_lookup_alter in Hi. case_decide as Heq.
    + destruct (prs !! pc) as [p0|]; [|done].
      simpl in Hi. by injection Hi as <-.
    + destruct (pc_isClosed p) eqn:Ec; [done|].
      destruct (Hown i p Hi Ec) as [? _]. congruence.
  - unfold_setters. eexists _, _. split; [reflexivity|].
    intros Hown i p Hi. destruct (pc_isClosed p) eqn:Ec; [done|].
    destruct (Hown i p Hi Ec) as [? _]. congruence.
Qed.

Lemma release_sink_spec s :
  exists aus tr,
    release_sink s
    = (Normal tt,
       with_audioElementRef None
         (with_browser (with_trace tr (with_audios aus (browser s))) s))
    /\ (audios_owned s -> forall i a, aus !! i = Some a -> srcObject a = None).
Proof.
  unfold release_sink, audios_owned. open_state s.
  destruct auRef as [audio|]; simpl.
  - unfold_setters. eexists _, _. split; [reflexivity|].
    intros Hown i a Hi. rewrite list_lookup_alter in Hi. case_decide as Heq.
    + destruct (aus !! audio) as [a0|]; [|done].
      simpl in Hi. by injection Hi as <-.
    + destruct (srcObject a) eqn:Esrc; [|done].
      specialize (Hown i a Hi ltac:(by rewrite Esrc)). congruence.
  - unfold_setters. eexists _, _. split; [reflexivity|].
    intros Hown i a Hi. destruct (srcObject a) eqn:Esrc; [|done].
    specialize (Hown i a Hi ltac:(by rewrite Esrc)). congruence.
Qed.

(** cleanup never throws; from a state whose refs own the store it leaves
    the refs empty and nothing live, and touches nothing else. *)
Lemma cleanup_spec t s :
  refs_own_store t s ->
  exists s',
    cleanup s = (Normal tt, s')
    /\ refs_own_store t s' /\ refs_none s'
    /\ status s' = status s /\ error s' = error s /\ tasks s' = tasks s
    /\ options s' = options s
    /\ timers (browser s') = timers (browser s).
Proof.
  intros (Hch & Hst & Hpc & Hau). rewrite cleanup_blocks. simpl.
  destruct (release_channel_spec s) as (chs & tr1 & -> & H1).
  match goal with |- context [release_stream ?s1] =>
    destruct (release_stream_spec s1) as (strs & tr2 & -> & H2) end.
  match goal with |- context [release_peer ?s1] =>
    destruct (release_peer_spec t s1) as (prs & tr3 & -> & H3) end.
  match goal with |- context [release_sink ?s1] =>
    destruct (release_sink_spec s1) as (aus & tr4 & -> & H4) end.
  eexists. split; [reflexivity|]. simpl in *.
  split; [|by repeat split].
  split; [|split; [|split]].
  - intros i r Hi Hlive. simpl in Hi. rewrite (H1 Hch i r Hi) in Hlive. done.
  - intros i ts Hi Hlive. simpl in Hi. by destruct (H2 Hst i ts Hi).
  - intros i p Hi Hopen. simpl in Hi. rewrite (H3 Hpc i p Hi) in Hopen. done.
  - intros i a Hi [x Hx]. simpl in Hi. rewrite (H4 Hau i a Hi) in Hx. done.
Qed.

End Release.

(** ** A negotiation that the host does not interrupt *)

Section Negotiating.
Import Browser Negotiation Connection.

Lemma elem_of_concat {A} (x : A) (ls : list (list A)) :
  x ∈ concat ls <-> exists l, l ∈ ls /\ x ∈ l.
Proof.
  rewrite list_elem_of_In, in_concat. split.
  - intros (l & Hl & Hx). exists l. by rewrite !list_elem_of_In.
  - intros (l & Hl & Hx). exists l. by rewrite <- !list_elem_of_In.
Qed.

(** With empty refs, the refs own the store exactly when nothing is live. *)
Lemma idle_owns t s : idle s -> refs_own_store t s.
Proof.
  intros (_ & _ & _ & Hch & Hst & Hpc & Hau).
  unfold live_channels, live_tracks, open_peers, attached_sinks in *.
  rewrite filter_length_zero in Hch. rewrite filter_length_zero in Hst.
  rewrite filter_length_zero in Hpc. rewrite filter_length_zero in Hau.
  split; [|split; [|split]].
  - intros i r Hi Hlive. destruct (Hch r); [by eapply list_elem_of_lookup_2 | done].
  - intros i ts Hi Hlive. destruct (Hst true); [|done].
    apply elem_of_concat. exists ts. split; [by eapply list_elem_of_lookup_2 | done].
  - intros i p Hi Hopen. destruct (Hpc p); [by eapply list_elem_of_lookup_2 | done].
  - intros i a Hi Hsrc. destruct (Hau a); [by eapply list_elem_of_lookup_2 | done].
Qed.

Lemma released_counts t s :
  refs_none s -> refs_own_store t s ->
  live_channels (browser s) = 0 /\ open_channels (browser s) = 0
  /\ live_tracks (browser s) = 0 /\ open_peers (browser s) = 0
  /\ attached_sinks (browser s) = 0.
Proof.
  intros (Hpcr & Hdcr & Hlsr & Haur) (Hch & Hst & Hpc & Hau).
  unfold live_channels, open_channels, live_tracks, open_peers, attached_sinks.
  rewrite !filter_length_zero. repeat split.
  - intros r [i Hi]%list_elem_of_lookup Hlive. specialize (Hch i r Hi Hlive). congruence.
  - intros r [i Hi]%list_elem_of_lookup Hopen.
    assert (Hlive : channel_is_live r = true) by (by destruct r).
    specialize (Hch i r Hi Hlive). congruence.
  - intros x (ts & [i Hi]%list_elem_of_lookup & Hx)%elem_of_concat ->.
    specialize (Hst i ts Hi Hx). congruence.
  - intros p [i Hi]%list_elem_of_lookup Hopen. destruct (Hpc i p Hi Hopen). congruence.
  - intros a [i Hi]%list_elem_of_lookup Hsrc. specialize (Hau i a Hi Hsrc). congruence.
Qed.

Lemma refs_own_store_same t s s' :
  same_resources s s' -> refs_own_store t s -> refs_own_store t s'.
Proof.
  intros (H1 & H2 & H3 & H4 & H5 & H6 & H7 & H8) (Hch & Hst & Hpc & Hau).
  unfold refs_own_store, channels_owned, streams_owned, peers_owned, audios_owned.
  rewrite H1, H2, H3, H4, H5, H6, H7, H8. done.
Qed.

Lemma refs_none_same s s' : same_resources s s' -> refs_none s -> refs_none s'.
Proof.
  intros (H1 & H2 & H3 & H4 & _). unfold refs_none. by rewrite H1, H2, H3, H4.
Qed.

Lemma stage_of_set t st tasks0 :
  t < length tasks0 -> default (finished None) (<[t := st]> tasks0 !! t) = st.
Proof. intros H. by rewrite list_lookup_insert_eq. Qed.

(** The negotiation [t] moves to stage [st']. *)
Lemma negotiating_moves t s s' st' :
  refs_own_store t s' ->
  tasks s' = <[t := st']> (tasks s) ->
  others_finished t s ->
  t < length (tasks s) ->
  facts_at t st' s' ->
  negotiating t s' /\ stage_of t s' = st'.
Proof.
  intros Hown Htasks Hothers Hlt Hfacts.
  assert (Hstage : stage_of t s' = st')
    by (unfold stage_of; rewrite Htasks; by apply stage_of_set).
  split; [|exact Hstage]. split; [exact Hown|]. split; [|split].
  - intros t' Hne. destruct (Hothers t' Hne) as [f Hf]. exists f.
    unfold stage_of in *. rewrite Htasks, list_lookup_insert_ne by done. exact Hf.
  - unfold stage_facts. by rewrite Hstage.
  - by rewrite Htasks, length_insert.
Qed.

(** The negotiation [t] stays where it is. *)
Lemma negotiating_stays t s s' :
  refs_own_store t s' ->
  tasks s' = tasks s ->
  others_finished t s ->
  t < length (tasks s) ->
  facts_at t (stage_of t s) s' ->
  negotiating t s'.
Proof.
  intros Hown Htasks Hothers Hlt Hfacts.
  assert (Hstage : forall t', stage_of t' s' = stage_of t' s)
    by (intros t'; unfold stage_of; by rewrite Htasks).
  split; [exact Hown|]. split; [|split].
  - intros t' Hne. rewrite Hstage. by apply Hothers.
  - unfold stage_facts. by rewrite Hstage.
  - by rewrite Htasks.
Qed.

(** The catch block: whatever the refs own is released, and the
    negotiation ends as failed with the error it surfaced. *)
Lemma connect_catch_spec t e s :
  refs_own_store t s -> others_finished t s -> t < length (tasks s) ->
  exists s',
    connect_catch t e s = (Normal tt, s')
    /\ negotiating t s'
    /\ stage_of t s' = finished (Some (as_error e)).
Proof.
  intros Hown Hothers Hlt. unfold connect_catch, onError. simpl.
  destruct (has_onError (options s)); simpl;
    (match goal with |- context [cleanup ?s1] =>
       destruct (cleanup_spec t s1)
         as (s2 & Hc & Hown2 & Hnone2 & Hst2 & Herr2 & Htk2 & _);
         [apply (refs_own_store_same t s); [repeat split; reflexivity | exact Hown]|]
     end);
    rewrite Hc; simpl;
    (eexists; split; [reflexivity|]);
    (apply (negotiating_moves t s);
      [ apply (refs_own_store_same t s2); [repeat split; reflexivity | exact Hown2]
      | simpl; by rewrite Htk2
      | exact Hothers
      | exact Hlt
      | simpl; split; [apply (refs_none_same s2); [repeat split; reflexivity | exact Hnone2]|];
        split; [by rewrite Hst2 | by rewrite Herr2] ]).
Qed.

Lemma add_tracks_spec pc stream l : forall s,
  exists c, for_each l (fun t => lift (add_track pc stream t)) s = (c, s).
Proof.
  induction l as [|t l IH]; intros s; simpl; [by eexists|].
  destruct (peer_is_closed pc (browser s)); simpl.
  - eexists. f_equal. by destruct s.
  - assert (Hs : with_browser (browser s) s = s) by (by destruct s). rewrite Hs. apply IH.
Qed.

(** The segment after the token body: the transport and the audio element. *)
Lemma segment_create_transport t s token :
  negotiating t s ->
  stage_of t s = awaiting_token_body ->
  negotiating t (exec_state (resume t awaiting_token_body (json_token_body token)) s).
Proof.
  intros (Hown & Hothers & Hfacts & Hlt) Hstage.
  unfold stage_facts in Hfacts. rewrite Hstage in Hfacts. simpl in Hfacts.
  destruct Hfacts as (Hpcr & Hdcr & Hlsr & Haur).
  destruct Hown as (Hch & Hst & Hpc & Hau).
  unfold resume, in_try. simpl.
  eapply proj1, (negotiating_moves t s); [|reflexivity|done|done|by split].
  unfold refs_own_store, channels_owned, streams_owned, peers_owned, audios_owned.
  simpl. split; [|split; [|split]].
  - intros i r Hi Hlive. specialize (Hch i r Hi Hlive). congruence.
  - intros i ts Hi Hlive. specialize (Hst i ts Hi Hlive). congruence.
  - intros i p Hi Hopen. rewrite list_lookup_alter in Hi. case_decide as Heq.
    + subst i. rewrite list_lookup_middle in Hi by done. simpl in Hi.
      injection Hi as <-. simpl. split; [done|]. split.
      * by intros a [= <-].
      * intros l Hl. by apply elem_of_nil in Hl.
    + apply lookup_snoc_Some in Hi as [[_ Hi]|[-> _]]; [|done].
      destruct (Hpc i p Hi Hopen) as [Hc _]. congruence.
  - intros i a Hi Hsrc. rewrite list_lookup_alter in Hi. case_decide as Heq.
    + subst i. rewrite list_lookup_middle in Hi by done. simpl in Hi.
      injection Hi as <-. simpl in Hsrc. by destruct Hsrc.
    + apply lookup_snoc_Some in Hi as [[_ Hi]|[-> _]]; [|done].
      specialize (Hau i a Hi Hsrc). congruence.
Qed.

(** The segment after getUserMedia: the stream, its tracks, the channel. *)
Lemma segment_capture t s pc n :
  negotiating t s ->
  stage_of t s = awaiting_user_media pc ->
  negotiating t (exec_state (resume t (awaiting_user_media pc) (media_granted n)) s).
Proof.
  intros (Hown & Hothers & Hfacts & Hlt) Hstage.
  unfold stage_facts in Hfacts. rewrite Hstage in Hfacts. simpl in Hfacts.
  destruct Hfacts as (Hdcr & Hlsr).
  destruct Hown as (Hch & Hst & Hpc & Hau).
  unfold resume, in_try. simpl.
  match goal with |- context [for_each ?l ?f ?s1] =>
    set (s_a := s1);
    destruct (add_tracks_spec pc (length (streams (browser s))) l s_a) as [c Hloop]
  end.
  assert (Hown_a : refs_own_store t s_a).
  { subst s_a. unfold refs_own_store, channels_owned, streams_owned, peers_owned,
      audios_owned. simpl. split; [|split; [|split]]; [exact Hch| |exact Hpc|exact Hau].
    intros i ts Hi Hlive.
    apply lookup_snoc_Some in Hi as [[_ Hi]|[-> _]]; [|done].
    specialize (Hst i ts Hi Hlive). congruence. }
  assert (Hcatch : forall e,
    negotiating t (connect_catch t e s_a).2).
  { intros e. destruct (connect_catch_spec t e s_a Hown_a) as (s' & -> & Hneg & _);
      [exact Hothers | exact Hlt | exact Hneg]. }
  rewrite Hloop. destruct c as [[]|e]; simpl; [|apply Hcatch].
  match goal with |- context [peer_is_closed pc ?b] =>
    destruct (peer_is_closed pc b) eqn:Hclosed end; simpl; [apply Hcatch|].
  eapply proj1, (negotiating_moves t s); [|reflexivity|done|done|done].
  unfold refs_own_store, channels_owned, streams_owned, peers_owned, audios_owned.
  destruct Hown_a as (_ & Hst_a & _ & _).
  simpl. split; [|split; [|split]]; [|exact Hst_a|exact Hpc|exact Hau].
  intros i r Hi Hlive.
  apply lookup_snoc_Some in Hi as [[_ Hi]|[-> _]]; [|done].
  specialize (Hch i r Hi Hlive). congruence.
Qed.

(** The segment after setRemoteDescription: the deadline and the listener. *)
Lemma segment_arm_deadline t s pc :
  negotiating t s ->
  stage_of t s = awaiting_remote_description pc ->
  negotiating t (exec_state (resume t (awaiting_remote_description pc) fulfilled) s).
Proof.
  intros (Hown & Hothers & Hfacts & Hlt) Hstage.
  destruct Hown as (Hch & Hst & Hpc & Hau).
  unfold resume, in_try. simpl.
  eapply proj1, (negotiating_moves t s); [|reflexivity|done|done|].
  - unfold refs_own_store, channels_owned, streams_owned, peers_owned, audios_owned.
    simpl. split; [|split; [|split]]; [exact Hch|exact Hst| |exact Hau].
    intros i p Hi Hopen. rewrite list_lookup_alter in Hi. case_decide as Heq.
    + subst i. destruct (peers (browser s) !! pc) as [p0|] eqn:Ep; [|done].
      simpl in Hi. injection Hi as <-. simpl in *.
      destruct (Hpc pc p0 Ep Hopen) as (H1 & H2 & H3). split; [done|]. split; [done|].
      intros l [Hl|Hl%list_elem_of_singleton]%elem_of_app; [by apply H3 | by subst l].
    + by apply Hpc.
  - simpl. by rewrite list_lookup_middle.
Qed.

(** Facts about a stage carry over to a state with the same refs,
    status, error and timers. *)
Lemma facts_at_same t st s s' :
  same_resources s s' ->
  status s' = status s -> error s' = error s ->
  timers (browser s') = timers (browser s) ->
  facts_at t st s -> facts_at t st s'.
Proof.
  intros Hsame Hst Herr Htm. pose proof (refs_none_same s s' Hsame) as Hnone.
  destruct Hsame as (H1 & H2 & H3 & H4 & _).
  destruct st as [| | | | | | | | | |[err|]]; simpl; rewrite ?H2, ?H3, ?Hst, ?Herr, ?Htm;
    try done.
  intros (? & ? & ?). by split; [apply Hnone|].
Qed.

(** Every continuation of the negotiation keeps the invariant. *)
Lemma resume_spec t s v :
  negotiating t s ->
  negotiating t (exec_state (resume t (stage_of t s) v) s).
Proof.
  intros Hneg. pose proof Hneg as (Hown & Hothers & Hfacts & Hlt).
  assert (Hcatch : forall e, negotiating t (connect_catch t e s).2).
  { intros e. by destruct (connect_catch_spec t e s Hown Hothers Hlt) as (s' & -> & ? & _). }
  assert (Hmove : forall st' s',
    same_resources s s' ->
    status s' = status s -> error s' = error s ->
    timers (browser s') = timers (browser s) ->
    tasks s' = <[t := st']> (tasks s) ->
    facts_at t st' s ->
    negotiating t s').
  { intros st' s' Hsame Hst Herr Htm Htk Hf.
    eapply proj1, (negotiating_moves t s); [|exact Htk|done|done|].
    - by apply (refs_own_store_same t s).
    - by apply (facts_at_same t st' s). }
  unfold stage_facts in Hfacts.
  destruct (stage_of t s) eqn:Est; destruct v;
    lazymatch goal with
    | |- negotiating _ (exec_state (resume _ awaiting_token_body (json_token_body _)) _) =>
        by apply segment_create_transport
    | |- negotiating _ (exec_state (resume _ (awaiting_user_media _) (media_granted _)) _) =>
        by apply segment_capture
    | |- negotiating _ (exec_state (resume _ (awaiting_remote_description _) fulfilled) _) =>
        by apply segment_arm_deadline
    | _ =>
        cbn [resume];
        lazymatch goal with
        | |- negotiating _ (exec_state (eff_ret _) _) => exact Hneg
        | |- negotiating _ (exec_state (connect_catch _ _) _) => apply Hcatch
        | _ =>
            unfold in_try; simpl; try (destruct ok; simpl);
            first
              [ apply Hcatch
              | eapply Hmove; [repeat split; reflexivity | reflexivity.. | done] ]
        end
    end.
Qed.

(** Facts about a stage that waits on no deadline do not depend on the timers. *)
Lemma facts_at_no_deadline t st s s' :
  same_resources s s' ->
  status s' = status s -> error s' = error s ->
  is_waiting st = false ->
  facts_at t st s -> facts_at t st s'.
Proof.
  intros Hsame Hst Herr Hw. pose proof (refs_none_same s s' Hsame) as Hnone.
  destruct Hsame as (H1 & H2 & H3 & H4 & _).
  destruct st as [| | | | | | | | | |[err|]]; simpl; rewrite ?H2, ?H3, ?Hst, ?Herr;
    try done.
  intros (? & ? & ?). by split; [apply Hnone|].
Qed.

(** One connectionstatechange listener of the negotiation [t]. *)
Lemma listener_spec t s st l :
  negotiating t s -> fst l = t ->
  exists s', on_connection_state_change st l s = (Normal tt, s') /\ negotiating t s'.
Proof.
  intros Hneg Hl. pose proof Hneg as (Hown & Hothers & Hfacts & Hlt).
  destruct l as [task timer]. simpl in Hl. subst task.
  unfold on_connection_state_change. simpl.
  unfold stage_facts in Hfacts.
  destruct st; try (by eexists); simpl;
    match goal with |- context [with_browser ?b s] => set (s1 := with_browser b s) end;
    (assert (Hown1 : refs_own_store t s1)
       by (apply (refs_own_store_same t s); [repeat split; reflexivity | done]));
    destruct (is_waiting (stage_of t s)) eqn:Hw; simpl.
  - eexists. split; [reflexivity|].
    eapply proj1, (negotiating_moves t s); [|reflexivity|done|done|done].
    apply (refs_own_store_same t s); [repeat split; reflexivity | done].
  - eexists. split; [reflexivity|].
    apply (negotiating_stays t s); [done|reflexivity|done|done|].
    apply (facts_at_no_deadline t _ s); [repeat split; reflexivity|done..].
  - destruct (connect_catch_spec t (JsError ("Connection failed: " +:+ "disconnected"))
                s1 Hown1 Hothers Hlt) as (s' & Hc & Hneg' & _). by exists s'.
  - eexists. split; [reflexivity|].
    apply (negotiating_stays t s); [done|reflexivity|done|done|].
    apply (facts_at_no_deadline t _ s); [repeat split; reflexivity|done..].
  - destruct (connect_catch_spec t (JsError ("Connection failed: " +:+ "failed"))
                s1 Hown1 Hothers Hlt) as (s' & Hc & Hneg' & _). by exists s'.
  - eexists. split; [reflexivity|].
    apply (negotiating_stays t s); [done|reflexivity|done|done|].
    apply (facts_at_no_deadline t _ s); [repeat split; reflexivity|done..].
Qed.

Lemma listeners_spec t st ls : forall s,
  negotiating t s -> (forall l, l ∈ ls -> fst l = t) ->
  negotiating t (exec_state (for_each ls (on_connection_state_change st)) s).
Proof.
  induction ls as [|l ls IH]; intros s Hneg Hls; [done|].
  cbn [for_each]. simpl.
  destruct (listener_spec t s st l Hneg) as (s' & -> & Hneg'); [apply Hls; by left|].
  apply IH; [done|]. intros l' Hl'. apply Hls. by right.
Qed.

#[global] Instance same_objects_preorder : PreOrder same_objects.
Proof.
  split.
  - intros b. by repeat split.
  - intros b1 b2 b3 (?&?&?&?&?) (?&?&?&?&?). repeat split; congruence.
Qed.

#[global] Instance undisturbed_preorder : PreOrder undisturbed.
Proof.
  split.
  - intros s. split; [reflexivity | by repeat split].
  - intros s1 s2 s3 (Hb1&?&?&?&?&?&?) (Hb2&?&?&?&?&?&?).
    split; [by etransitivity | repeat split; congruence].
Qed.

Lemma emit_same_objects e : respects same_objects (emit e).
Proof. intros b. by repeat split. Qed.

Lemma send_same_objects dc ev : respects same_objects (send dc ev).
Proof. unfold send. repeat respects_step; apply emit_same_objects. Qed.

Lemma lift_undisturbed {A} (m : Eff Store A) :
  respects same_objects m -> respects undisturbed (lift m).
Proof.
  intros Hm s. specialize (Hm (browser s)). simpl.
  destruct (m (browser s)) as [c b]. split; [exact Hm | by repeat split].
Qed.

Ltac undisturbed_step :=
  first
    [ respects_step
    | apply lift_undisturbed; first [apply emit_same_objects | apply send_same_objects]
    | apply respects_modify; intros ?; split; [reflexivity | by repeat split]
    | progress unfold setIsAgentSpeaking, setError, onTranscript, onUserTranscript,
        onError, sendEvent, handleFunctionCall ].

Lemma on_channel_message_undisturbed data :
  respects undisturbed (on_channel_message data).
Proof.
  unfold on_channel_message, handleServerEvent.
  destruct data as [[]|]; repeat undisturbed_step.
Qed.

(** The facts about a stage only read the refs, the status, the error and
    the timers. *)
Lemma facts_at_refs t st s s' :
  peerConnectionRef s' = peerConnectionRef s ->
  dataChannelRef s' = dataChannelRef s ->
  localStreamRef s' = localStreamRef s ->
  audioElementRef s' = audioElementRef s ->
  status s' = status s -> error s' = error s ->
  timers (browser s') = timers (browser s) ->
  facts_at t st s -> facts_at t st s'.
Proof.
  intros H1 H2 H3 H4 Hst Herr Htm.
  destruct st as [| | | | | | | | | |[err|]]; simpl; unfold refs_none;
    by rewrite ?H1, ?H2, ?H3, ?H4, ?Hst, ?Herr, ?Htm.
Qed.

Lemma settle_spec t s task v :
  negotiating t s -> negotiating t (exec_state (step (settle task v)) s).
Proof.
  intros Hneg. simpl. destruct (decide (task = t)) as [->|Hne].
  - by apply resume_spec.
  - pose proof Hneg as (_ & Hothers & _). destruct (Hothers task Hne) as [f ->].
    exact Hneg.
Qed.

Lemma timer_fired_spec t s timer :
  negotiating t s -> negotiating t (exec_state (step (timer_fired timer)) s).
Proof.
  intros Hneg. pose proof Hneg as (Hown & Hothers & Hfacts & Hlt). simpl.
  destruct (timers (browser s) !! timer) as [tm|] eqn:Etm; [|done]. simpl.
  destruct (timer_pending tm) eqn:Epending; [|done]. simpl.
  match goal with |- context [with_browser ?b s] => set (s1 := with_browser b s) end.
  assert (Hown1 : refs_own_store t s1)
    by (apply (refs_own_store_same t s); [repeat split; reflexivity | done]).
  assert (Hquiet : is_waiting (stage_of t s) = true -> timer_action tm = reject_task t ->
                   False \/ True) by auto.
  assert (Hstay : (is_waiting (stage_of t s) = true -> timer_action tm <> reject_task t) ->
                  negotiating t s1).
  { intros Hother. apply (negotiating_stays t s); [done|reflexivity|done|done|].
    unfold stage_facts in Hfacts.
    destruct (is_waiting (stage_of t s)) eqn:Hw.
    - destruct (stage_of t s) eqn:Est; try discriminate. simpl in *.
      rewrite list_lookup_alter_ne; [done|]. intros ->.
      rewrite Etm in Hfacts. injection Hfacts as ->. by apply Hother.
    - apply (facts_at_no_deadline t _ s); [repeat split; reflexivity|done..]. }
  destruct (timer_action tm) as [task|dc] eqn:Eaction.
  - unfold on_timeout. simpl.
    change (stage_of task s1) with (stage_of task s).
    destruct (is_waiting (stage_of task s)) eqn:Hw; simpl.
    + assert (task = t) as ->.
      { destruct (decide (task = t)) as [|Hne]; [done|].
        destruct (Hothers task Hne) as [f Hf]. rewrite Hf in Hw. discriminate. }
      by destruct (connect_catch_spec t (JsError "Connection timeout") s1 Hown1)
        as (s' & -> & ? & _).
    + apply Hstay. intros Hw' [= ->]. congruence.
  - simpl. apply Hstay. intros _. discriminate.
Qed.

Lemma connection_state_change_spec t s pc st :
  negotiating t s -> negotiating t (exec_state (step (connection_state_change pc st)) s).
Proof.
  intros Hneg. pose proof Hneg as (Hown & Hothers & Hfacts & Hlt). simpl.
  destruct (peers (browser s) !! pc) as [p|] eqn:Ep; [|done]. simpl.
  destruct (pc_isClosed p) eqn:Eclosed; [done|]. simpl.
  destruct Hown as (Hch & Hst & Hpc & Hau).
  apply listeners_spec; [|by apply (Hpc pc p Ep Eclosed)].
  apply (negotiating_stays t s); [|reflexivity|done|done|].
  - split; [exact Hch|]. split; [exact Hst|]. split; [|exact Hau].
    intros i q Hi Hopen. simpl in Hi. rewrite list_lookup_alter in Hi.
    case_decide as Heq; [|by apply Hpc].
    subst i. rewrite Ep in Hi. simpl in Hi. injection Hi as <-. by apply (Hpc pc p).
  - unfold stage_facts in Hfacts. by apply (facts_at_refs t _ s).
Qed.

Lemma channel_opened_spec t s dc :
  negotiating t s -> negotiating t (exec_state (step (channel_opened dc)) s).
Proof.
  intros Hneg. pose proof Hneg as (Hown & Hothers & Hfacts & Hlt). simpl.
  destruct (channels (browser s) !! dc) as [[]|] eqn:Edc; try done. simpl.
  destruct Hown as (Hch & Hst & Hpc & Hau).
  pose proof (Hch dc rs_connecting Edc eq_refl) as Href.
  apply (negotiating_stays t s); [|reflexivity|done|done|].
  - split; [|by split]. intros i r Hi Hlive. simpl in Hi.
    apply list_lookup_insert_Some in Hi as [(-> & _ & _)|[_ Hi]]; [done | by apply (Hch i r)].
  - unfold stage_facts in Hfacts.
    destruct (stage_of t s) as [| | | | | | | | | |[err|]]; simpl in *; try done.
    destruct Hfacts as ((_ & Hnone & _) & _). congruence.
Qed.

Lemma channel_message_spec t s dc data :
  negotiating t s -> negotiating t (exec_state (step (channel_message dc data)) s).
Proof.
  intros Hneg. pose proof Hneg as (Hown & Hothers & Hfacts & Hlt). simpl.
  destruct (channels (browser s) !! dc) as [[]|] eqn:Edc; try done. simpl.
  destruct Hown as (Hch & Hst & Hpc & Hau).
  pose proof (Hch dc rs_open Edc eq_refl) as Href.
  destruct (on_channel_message_undisturbed data s)
    as ((Hp & Hc & Hs & Ha & Htm) & H1 & H2 & H3 & H4 & Htk & Hstatus).
  apply (negotiating_stays t s); [|done|done|done|].
  - apply (refs_own_store_same t s); [by repeat split | apply Hneg].
  - unfold stage_facts in Hfacts.
    destruct (stage_of t s) as [| | | | | | | | | |[err|]]; simpl in *;
      unfold refs_none in *; rewrite ?H1, ?H2, ?H3, ?H4, ?Htm; try done;
      destruct_and?; congruence.
Qed.

Lemma channel_closed_spec t s dc :
  negotiating t s -> negotiating t (exec_state (step (channel_closed dc)) s).
Proof.
  intros Hneg. pose proof Hneg as (Hown & Hothers & Hfacts & Hlt). simpl.
  destruct Hown as (Hch & Hst & Hpc & Hau).
  assert (Hgoal : negotiating t
    (exec_state (eff_bind (lift (set_ready_state dc rs_closed)) (fun _ => on_channel_close)) s)).
  { simpl. apply (negotiating_stays t s); [|reflexivity|done|done|].
    - split; [|by split]. intros i r Hi Hlive. simpl in Hi.
      apply list_lookup_insert_Some in Hi as [(-> & <- & _)|[_ Hi]];
        [done | by apply (Hch i r)].
    - unfold stage_facts in Hfacts.
      destruct (stage_of t s) as [| | | | | | | | | |[err|]]; simpl in *; try done.
      by destruct Hfacts as (? & ? & ?). }
  destruct (channels (browser s) !! dc) as [[]|] eqn:Edc; done.
Qed.

Lemma track_received_spec t s pc stream :
  negotiating t s -> negotiating t (exec_state (step (track_received pc stream)) s).
Proof.
  intros Hneg. pose proof Hneg as (Hown & Hothers & Hfacts & Hlt). simpl.
  destruct (peers (browser s) !! pc) as [p|] eqn:Ep; [|done]. simpl.
  destruct (pc_isClosed p) eqn:Eclosed; [done|].
  destruct (ontrack p) as [audio|] eqn:Eon; [|done]. simpl.
  destruct Hown as (Hch & Hst & Hpc & Hau).
  destruct (Hpc pc p Ep Eclosed) as (_ & Hsink & _). specialize (Hsink audio Eon).
  apply (negotiating_stays t s); [|reflexivity|done|done|].
  - split; [done|]. split; [done|]. split; [done|].
    intros i a Hi Hsrc. simpl in Hi. rewrite list_lookup_alter in Hi.
    case_decide as Heq; [by subst i | by apply (Hau i a)].
  - unfold stage_facts in Hfacts. by apply (facts_at_refs t _ s).
Qed.

(** Whatever the browser delivers, the invariant is kept. *)
Lemma step_spec t s e :
  is_host_call e = false ->
  negotiating t s -> negotiating t (exec_state (step e) s).
Proof.
  destruct e; try discriminate; intros _ Hneg.
  - by apply settle_spec.
  - by apply timer_fired_spec.
  - by apply connection_state_change_spec.
  - by apply channel_opened_spec.
  - by apply channel_message_spec.
  - by apply channel_closed_spec.
  - by apply track_received_spec.
Qed.

Lemma run_spec t evs : forall s,
  forallb (fun e => negb (is_host_call e)) evs = true ->
  negotiating t s -> negotiating t (run evs s).
Proof.
  induction evs as [|e evs IH]; intros s Hevs Hneg; [done|].
  simpl in Hevs. apply andb_prop in Hevs as [He Hevs].
  change (run (e :: evs) s) with (run evs (exec_state (step e) s)).
  apply IH; [done|]. apply step_spec; [by destruct (is_host_call e) | done].
Qed.

(** connect on an idle hook starts the negotiation. *)
Lemma connect_starts s instructions voice :
  idle s ->
  negotiating (length (tasks s)) (exec_state (connect instructions voice) s).
Proof.
  intros Hidle. pose proof (idle_owns (length (tasks s)) s Hidle) as Hown.
  destruct Hidle as (Hst & Hnone & Hfin & _).
  unfold connect, in_try. simpl. rewrite Hst. simpl.
  split; [|split; [|split]].
  - apply (refs_own_store_same _ s); [repeat split; reflexivity | done].
  - intros t' Hne. unfold stage_of. simpl.
    destruct (Hfin t') as [f Hf]. unfold stage_of in Hf.
    destruct (decide (t' < length (tasks s))) as [Hlt|Hge].
    + rewrite lookup_app_l by done. by exists f.
    + rewrite lookup_ge_None_2; [by eexists|]. rewrite length_app. simpl. lia.
  - unfold stage_facts, stage_of. simpl. rewrite list_lookup_middle by done. simpl.
    by apply (refs_none_same s); [repeat split|].
  - simpl. rewrite length_app. simpl. lia.
Qed.

End Negotiating.

(** ** A failed connect leaves nothing open *)

Section ConnectFailure.
Import Browser Negotiation Connection.

Lemma idle_initial o : idle (initial o).
Proof.
  split; [done|]. split; [done|]. split; [|done].
  intros t. exists None. unfold stage_of, initial. cbn [tasks]. by rewrite lookup_nil.
Qed.




End ConnectFailure.



(** * Further properties of the code *)

(** ** Teardown *)

Section Teardown.
Import Browser Negotiation Connection.

(** cleanup never throws and leaves the four refs empty. *)
Lemma cleanup_empties s :
  exists s', cleanup s = (Normal tt, s') /\ refs_none s'.
Proof.
  rewrite cleanup_blocks. simpl.
  destruct (release_channel_spec s) as (chs & tr1 & -> & _).
  match goal with |- context [release_stream ?s1] =>
    destruct (release_stream_spec s1) as (strs & tr2 & -> & _) end.
  match goal with |- context [release_peer ?s1] =>
    destruct (release_peer_spec 0 s1) as (prs & tr3 & -> & _) end.
  match goal with |- context [release_sink ?s1] =>
    destruct (release_sink_spec s1) as (aus & tr4 & -> & _) end.
  eexists. split; [reflexivity|]. by repeat split.
Qed.

(** With nothing in the refs, cleanup does nothing. *)
Lemma cleanup_nothing_held s : refs_none s -> cleanup s = (Normal tt, s).
Proof.
  intros (H1 & H2 & H3 & H4). unfold cleanup. simpl.
  rewrite H2. simpl. rewrite H3. simpl. rewrite H1. simpl. rewrite H4. reflexivity.
Qed.

(** Property X2.
    cleanup returns normally in every state, leaves the four refs empty,
    and is idempotent: a second cleanup changes nothing and performs no
    action. *)
Theorem cleanup_is_idempotent s :
  completion cleanup s = Normal tt
  /\ refs_none (exec_state cleanup s)
  /\ cleanup (exec_state cleanup s) = (Normal tt, exec_state cleanup s).
Proof.
  destruct (cleanup_empties s) as (s' & H & Hnone). simpl. rewrite H. simpl.
  split; [reflexivity|]. split; [exact Hnone|]. by apply cleanup_nothing_held.
Qed.

(** Property X1.
    disconnect at any moment of a negotiation started on an idle hook,
    or of the connection it established: it returns normally; the status
    is disconnected, the speaking flag and the error are reset, the four
    refs are empty; and no channel is live, no capture track is live, no
    peer connection is open and no audio element has a source. *)
Theorem disconnect_releases_everything s0 instructions voice evs :
  idle s0 ->
  forallb (fun e => negb (is_host_call e)) evs = true ->
  let s := run (call_connect instructions voice :: evs) s0 in
  completion disconnect s = Normal tt
  /\ status (exec_state disconnect s) = disconnected
  /\ isAgentSpeaking (exec_state disconnect s) = false
  /\ error (exec_state disconnect s) = None
  /\ refs_none (exec_state disconnect s)
  /\ live_channels (browser (exec_state disconnect s)) = 0
  /\ open_channels (browser (exec_state disconnect s)) = 0
  /\ live_tracks (browser (exec_state disconnect s)) = 0
  /\ open_peers (browser (exec_state disconnect s)) = 0
  /\ attached_sinks (browser (exec_state disconnect s)) = 0.
Proof.
  intros Hidle Hevs s.
  assert (Hneg : negotiating (length (tasks s0)) s).
  { subst s. change (run (call_connect instructions voice :: evs) s0)
      with (run evs (exec_state (connect instructions voice) s0)).
    apply run_spec; [exact Hevs|]. by apply connect_starts. }
  destruct Hneg as (Hown & _).
  destruct (cleanup_spec _ s Hown) as (s' & Hc & Hown' & Hnone' & _).
  unfold disconnect. simpl. rewrite Hc. simpl.
  split; [reflexivity|]. split; [reflexivity|]. split; [reflexivity|].
  split; [reflexivity|]. split; [exact Hnone'|].
  match goal with |- context [browser ?s1] =>
    assert (Hown1 : refs_own_store (length (tasks s0)) s1)
      by (apply (refs_own_store_same _ s'); [repeat split; reflexivity | exact Hown']);
    assert (Hnone1 : refs_none s1) by exact Hnone';
    destruct (released_counts _ s1 Hnone1 Hown1) as (? & ? & ? & ? & ?)
  end.
  by repeat split.
Qed.

Lemma disconnect_releases_everything_witness :
  idle (initial Scenario.all_observers)
  /\ status (exec_state disconnect Scenario.established_without_callbacks) = disconnected
  /\ refs_none (exec_state disconnect Scenario.established_without_callbacks)
  /\ live_tracks (browser (exec_state disconnect Scenario.established_without_callbacks)) = 0
  /\ open_peers (browser (exec_state disconnect Scenario.established_without_callbacks)) = 0.
Proof.
  split; [apply idle_initial|].
  destruct (disconnect_releases_everything
              (initial Scenario.all_observers) "instructions" shimmer
              (Scenario.negotiation 0
                 ++ [connection_state_change 0 pc_connected; channel_opened 0])
              (idle_initial _) ltac:(vm_compute; reflexivity))
    as (_ & Hst & _ & _ & Hnone & _ & _ & Hlt & Hop & _).
  split; [exact Hst|]. split; [exact Hnone|]. split; [exact Hlt | exact Hop].
Defined.

End Teardown.

(** ** Inbound messages and the status *)

Section Inbound.
Import Browser Negotiation Connection.

Lemma on_channel_message_returns data s :
  completion (on_channel_message data) s = Normal tt.
Proof.
  unfold on_channel_message. simpl. destruct data as [ev|]; simpl; [|reflexivity].
  by destruct (handleServerEvent ev s) as [[[]|e] s1].
Qed.

(** Property X3.
    No message on the data channel, whatever it holds (parsable or not,
    any event type, any function calls), makes the handler throw, changes
    the status, the four refs or the negotiations in flight, or touches a
    browser object: it can only change the speaking flag and the error,
    and append to the trace. *)
Theorem server_messages_leave_the_connection_alone dc data s :
  completion (step (channel_message dc data)) s = Normal tt
  /\ status (exec_state (step (channel_message dc data)) s) = status s
  /\ peerConnectionRef (exec_state (step (channel_message dc data)) s) = peerConnectionRef s
  /\ dataChannelRef (exec_state (step (channel_message dc data)) s) = dataChannelRef s
  /\ localStreamRef (exec_state (step (channel_message dc data)) s) = localStreamRef s
  /\ audioElementRef (exec_state (step (channel_message dc data)) s) = audioElementRef s
  /\ tasks (exec_state (step (channel_message dc data)) s) = tasks s
  /\ peers (browser (exec_state (step (channel_message dc data)) s)) = peers (browser s)
  /\ channels (browser (exec_state (step (channel_message dc data)) s)) = channels (browser s)
  /\ streams (browser (exec_state (step (channel_message dc data)) s)) = streams (browser s)
  /\ audios (browser (exec_state (step (channel_message dc data)) s)) = audios (browser s)
  /\ timers (browser (exec_state (step (channel_message dc data)) s)) = timers (browser s).
Proof.
  pose proof (on_channel_message_returns data s) as Hret.
  pose proof (on_channel_message_undisturbed data s) as Hund.
  simpl in *. destruct (channels (browser s) !! dc) as [[]|]; simpl; try by repeat split.
  destruct (on_channel_message data s) as [c s']. simpl in *.
  destruct Hund as ((?&?&?&?&?)&?&?&?&?&?&?). by repeat split.
Qed.

(** ** The status becomes connected only when the data channel opens *)

#[local] Instance stays_unconnected_preorder : PreOrder stays_unconnected.
Proof.
  split.
  - intros s H. exact H.
  - intros s1 s2 s3 H1 H2 H3. apply H1, H2, H3.
Qed.

Lemma lift_stays_unconnected {A} (m : Eff Store A) : respects stays_unconnected (lift m).
Proof. intros s H. simpl in *. by destruct (m (browser s)). Qed.

Lemma modify_stays_unconnected (f : State -> State) :
  (forall s, status (f s) = status s) -> respects stays_unconnected (modify f).
Proof. intros Hf s H. simpl in *. by rewrite Hf in H. Qed.

Lemma setStatus_stays_unconnected v :
  v <> connected -> respects stays_unconnected (setStatus v).
Proof. intros Hv s H. simpl in H. done. Qed.

Ltac unconnected_step :=
  first
    [ respects_step
    | apply lift_stays_unconnected
    | apply modify_stays_unconnected; intros; reflexivity
    | apply setStatus_stays_unconnected; discriminate
    | progress unfold setIsAgentSpeaking, setError, onTranscript, onUserTranscript,
        onError, setNavigationCallbacks, sendEvent, handleFunctionCall, handleServerEvent,
        cleanup, disconnect, sendTextMessage, sendHint, updateInstructions, connect,
        connect_catch, in_try, set_stage, on_connection_state_change, on_timeout,
        on_channel_close, on_channel_message ].

Lemma connect_catch_stays_unconnected task e :
  respects stays_unconnected (connect_catch task e).
Proof. repeat unconnected_step. Qed.

Lemma resume_stays_unconnected task stage v :
  respects stays_unconnected (resume task stage v).
Proof.
  destruct stage, v; cbn [resume];
    lazymatch goal with
    | |- respects _ (connect_catch _ _) => apply connect_catch_stays_unconnected
    | _ => repeat unconnected_step
    end.
Qed.

Lemma step_stays_unconnected e :
  (forall dc, e <> channel_opened dc) -> respects stays_unconnected (step e).
Proof.
  intros He. destruct e; simpl; try (by repeat unconnected_step).
  - refine (respects_bind _ _ _ _ _); [by repeat unconnected_step|intros stage].
    apply resume_stays_unconnected.
  - by destruct (He dc).
Qed.

(** Property X4.
    In one turn of the event loop the status becomes connected only
    through the open event of a data channel that was connecting: no call
    of the host, no settled promise, no timer, no change of the
    transport's connection state and no message does it. *)
Theorem connected_only_when_channel_opens e s :
  status s <> connected ->
  status (exec_state (step e) s) = connected ->
  exists dc, e = channel_opened dc /\ channels (browser s) !! dc = Some rs_connecting.
Proof.
  intros Hs Hs'.
  assert (Hcases : (exists dc, e = channel_opened dc) \/ (forall dc, e <> channel_opened dc))
    by (destruct e; first [left; eexists; reflexivity | right; intros ? [=]]).
  destruct Hcases as [[dc ->]|Hne].
  - exists dc. split; [reflexivity|]. simpl in Hs'.
    destruct (channels (browser s) !! dc) as [[]|]; simpl in Hs'; done.
  - destruct Hs. exact (step_stays_unconnected e Hne s Hs').
Qed.

Lemma connected_only_when_channel_opens_witness :
  exists dc,
    channel_opened 0 = channel_opened dc
    /\ channels (browser (run [connection_state_change 0 pc_connected] Scenario.waiting)) !! dc
       = Some rs_connecting.
Proof.
  apply (connected_only_when_channel_opens (channel_opened 0)
           (run [connection_state_change 0 pc_connected] Scenario.waiting));
    [vm_compute; discriminate | vm_compute; reflexivity].
Defined.

End Inbound.

(** ** Writing to the data channel *)

Section Outbound.
Import Browser Negotiation Connection.

(** Property X5.
    sendEvent never throws, in any state.  It writes the event, and
    nothing else, when the ref holds a channel that is open; otherwise it
    writes to no channel and only logs a warning. *)
Theorem sendEvent_writes_only_to_an_open_channel ev s :
  completion (sendEvent ev) s = Normal tt
  /\ sent (effects_of (sendEvent ev) s)
     = match channel_of s with Some _ => [ev] | None => [] end
  /\ (channel_of s = None ->
      effects_of (sendEvent ev) s
      = [console_warn "Data channel not open, cannot send event:"]).
Proof.
  destruct (channel_of s) as [dc|] eqn:Hdc.
  - pose proof (sendEvent_open ev s dc Hdc) as H.
    rewrite (completion_of _ _ _ _ H), (effects_of_log _ _ _ _ H). done.
  - pose proof (sendEvent_closed ev s Hdc) as H.
    rewrite (completion_of _ _ _ _ H), (effects_of_log _ _ _ _ H). done.
Qed.

(** Property X6.
    updateInstructions never throws.  It sends one session.update with
    the instructions when the status is connected and the channel is
    open, and sends nothing in every other state; when the status is not
    connected it does nothing but log a warning. *)
Theorem updateInstructions_pushes_only_when_connected instructions s :
  completion (updateInstructions instructions) s = Normal tt
  /\ sent (effects_of (updateInstructions instructions) s)
     = (if decide (status s = connected)
        then match channel_of s with Some _ => [session_update instructions] | None => [] end
        else [])
  /\ (status s <> connected ->
      updateInstructions instructions s = (Normal tt, log [console_warn "Not connected"] s)).
Proof.
  assert (Hnot : status s <> connected ->
            updateInstructions instructions s
            = (Normal tt, log [console_warn "Not connected"] s)).
  { intros Hst. unfold updateInstructions. simpl. by rewrite decide_True. }
  destruct (decide (status s = connected)) as [Hst|Hst].
  - assert (Heq : updateInstructions instructions s = sendEvent (session_update instructions) s).
    { unfold updateInstructions. simpl. rewrite decide_False by (intros H; by apply H). done. }
    destruct (channel_of s) as [dc|] eqn:Hdc.
    + rewrite (sendEvent_open _ _ dc Hdc) in Heq.
      rewrite (completion_of _ _ _ _ Heq), (effects_of_log _ _ _ _ Heq). done.
    + rewrite (sendEvent_closed _ _ Hdc) in Heq.
      rewrite (completion_of _ _ _ _ Heq), (effects_of_log _ _ _ _ Heq). done.
  - rewrite (completion_of _ _ _ _ (Hnot Hst)), (effects_of_log _ _ _ _ (Hnot Hst)). done.
Qed.

(** Property X8.
    The tools declared to the model (tools.ts, sent with every session
    request) are exactly the names the dispatcher acts on: with the
    host's callbacks registered and the channel open, a function call
    invokes a navigation callback if and only if its name is the name of
    a declared tool. *)
Theorem declared_tools_are_the_dispatched_ones s dc cb name callId args :
  channel_of s = Some dc ->
  navigationCallbacksRef s = Some cb ->
  map Tools.name Tools.slideNavigationTools
  = [TOOL_NAMES.GO_TO_NEXT_SLIDE; TOOL_NAMES.GO_TO_PREVIOUS_SLIDE]
  /\ (name ∈ map Tools.name Tools.slideNavigationTools
      <-> filter is_navigation (effects_of (handleFunctionCall (Some name) callId args) s)
          <> []).
Proof.
  intros Hdc Hcb. split; [reflexivity|].
  rewrite (effects_of_log _ _ _ _ (handleFunctionCall_open (Some name) callId args s dc Hdc)).
  rewrite Hcb. unfold tool_action.
  change (map Tools.name Tools.slideNavigationTools)
    with [TOOL_NAMES.GO_TO_NEXT_SLIDE; TOOL_NAMES.GO_TO_PREVIOUS_SLIDE].
  repeat case_decide; simplify_eq; simpl.
  - split; [done|]. intros _. by left.
  - split; [done|]. intros _. right. by left.
  - split; [|done]. intros Hin.
    apply elem_of_cons in Hin as [->|Hin]; [done|].
    apply elem_of_cons in Hin as [->|Hin]; [done|]. by apply elem_of_nil in Hin.
Qed.

Lemma declared_tools_are_the_dispatched_ones_witness :
  "goToPreviousSlide" ∈ map Tools.name Tools.slideNavigationTools
  <-> filter is_navigation
        (effects_of (handleFunctionCall (Some "goToPreviousSlide") (Some "c1") (Some "{}"))
           Scenario.established) <> [].
Proof.
  exact (proj2 (declared_tools_are_the_dispatched_ones Scenario.established 0
                  host_callbacks "goToPreviousSlide" (Some "c1") (Some "{}")
                  ltac:(vm_compute; reflexivity) ltac:(vm_compute; reflexivity))).
Defined.

End Outbound.

(** ** A refused token request *)

Section TokenRefusal.
Import Browser Negotiation Connection.

(** With nothing in the refs, the catch block surfaces the error, sets
    the status and ends the negotiation; it releases nothing. *)
Lemma connect_catch_nothing_held task e s :
  refs_none s ->
  exists s',
    connect_catch task e s = (Normal tt, s')
    /\ status s' = disconnected
    /\ error s' = Some (as_error e)
    /\ tasks s' = <[task := finished (Some (as_error e))]> (tasks s)
    /\ same_objects (browser s) (browser s')
    /\ trace (browser s')
       = trace (browser s) ++ surfacing (has_onError (options s)) (as_error e).
Proof.
  intros Hnone. unfold connect_catch, onError, surfacing. simpl.
  destruct (has_onError (options s)); simpl;
    (rewrite cleanup_nothing_held by exact Hnone); simpl;
    (eexists; split; [reflexivity|]); simpl; rewrite <- ?app_assoc; by repeat split.
Qed.

Lemma stage_of_tasks task s s' : tasks s' = tasks s -> stage_of task s' = stage_of task s.
Proof. unfold stage_of. by intros ->. Qed.

(** Property X7.
    connect on an idle hook whose token request is answered with a status
    that is not ok: once the error body is read, the hook is disconnected
    with the error of the body (or "Failed to get token" when the body
    has no error text); the microphone was never requested, no peer
    connection, channel, stream or audio element was created; the actions
    of the whole attempt are the two state resets, the request, and the
    surfacing of the error. *)
Theorem token_refusal_stops_before_the_microphone s0 instructions voice code f :
  idle s0 ->
  let t := length (tasks s0) in
  let s := run [ call_connect instructions voice;
                 settle t (fetch_response false code);
                 settle t (json_error_body f) ] s0 in
  status s = disconnected
  /\ error s = Some (JsError (error_or_default f))
  /\ stage_of t s = finished (Some (JsError (error_or_default f)))
  /\ peers (browser s) = peers (browser s0)
  /\ channels (browser s) = channels (browser s0)
  /\ streams (browser s) = streams (browser s0)
  /\ audios (browser s) = audios (browser s0)
  /\ trace (browser s)
     = trace (browser s0)
       ++ [set_status connecting; set_error None; fetch "/api/realtime-token"]
       ++ surfacing (has_onError (options s0)) (JsError (error_or_default f)).
Proof.
  intros (Hst & Hnone & _) t s. subst s. unfold run. cbn [foldl].
  set (s1 := exec_state (step (call_connect instructions voice)) s0).
  assert (H1 : tasks s1 = tasks s0 ++ [awaiting_token_response]
               /\ refs_none s1 /\ options s1 = options s0
               /\ same_objects (browser s0) (browser s1)
               /\ trace (browser s1)
                  = trace (browser s0)
                    ++ [set_status connecting; set_error None; fetch "/api/realtime-token"]).
  { subst s1. unfold step, connect, in_try. simpl. rewrite Hst. simpl.
    rewrite <- !app_assoc.
    split; [done|]. split; [exact Hnone|]. split; [done|]. split; [by repeat split | done]. }
  destruct H1 as (Htk1 & Hnone1 & Hopt1 & Hobj1 & Htr1). clearbody s1.
  set (s2 := exec_state (step (settle t (fetch_response false code))) s1).
  assert (H2 : s2 = with_tasks (<[t := awaiting_error_body]> (tasks s1)) s1).
  { assert (Hs1 : stage_of t s1 = awaiting_token_response)
      by (unfold stage_of; rewrite Htk1; subst t; by rewrite list_lookup_middle).
    subst s2. unfold step. simpl. by rewrite Hs1. }
  clearbody s2. subst s2.
  match goal with |- context [exec_state (step (settle t ?v)) ?s2] =>
    set (s3 := exec_state (step (settle t v)) s2) end.
  destruct (connect_catch_nothing_held t (JsError (error_or_default f))
              (with_tasks (<[t := awaiting_error_body]> (tasks s1)) s1) Hnone1)
    as (s' & Hcatch & Hst' & Herr' & Htk' & Hobj' & Htr').
  assert (H3 : s3 = s').
  { subst s3. unfold step, stage_of. simpl.
    rewrite list_lookup_insert_eq by (rewrite Htk1, length_app; simpl; lia).
    simpl. unfold in_try. simpl. by rewrite Hcatch. }
  clearbody s3. subst s3. simpl in Htk', Htr'.
  destruct Hobj1 as (? & ? & ? & ? & _), Hobj' as (? & ? & ? & ? & _). simpl in *.
  split; [exact Hst'|]. split; [exact Herr'|].
  split. { unfold stage_of. rewrite Htk'.
           by rewrite list_lookup_insert_eq
             by (rewrite length_insert, Htk1, length_app; simpl; lia). }
  split; [congruence|]. split; [congruence|]. split; [congruence|]. split; [congruence|].
  rewrite Htr', Htr1, Hopt1, <- app_assoc. reflexivity.
Qed.

Lemma token_refusal_stops_before_the_microphone_witness :
  idle (initial Scenario.all_observers)
  /\ error (run [ call_connect "instructions" shimmer;
                  settle 0 (fetch_response false 500);
                  settle 0 (json_error_body (Some "OpenAI API key not configured")) ]
               (initial Scenario.all_observers))
     = Some (JsError "OpenAI API key not configured")
  /\ peers (browser (run [ call_connect "instructions" shimmer;
                           settle 0 (fetch_response false 500);
                           settle 0 (json_error_body (Some "OpenAI API key not configured")) ]
                        (initial Scenario.all_observers))) = [].
Proof.
  split; [apply idle_initial|].
  destruct (token_refusal_stops_before_the_microphone
              (initial Scenario.all_observers) "instructions" shimmer 500
              (Some "OpenAI API key not configured") (idle_initial _))
    as (_ & Herr & _ & Hpeers & _).
  split; [exact Herr | exact Hpeers].
Defined.

End TokenRefusal.

(** ** The token endpoint *)

Section TokenEndpoint.
Import Js TokenRoute.

Lemma requests_app l1 l2 : requests (l1 ++ l2) = requests l1 ++ requests l2.
Proof. unfold requests. apply omap_app. Qed.

(** Whether the Response constructor accepts a status together with a body. *)
Lemma NextResponse_json_eq b n t :
  NextResponse_json b n t
  = if accepts_status n
    then (Normal {| response_status := n; response_body := b |}, t)
    else (Abrupt (if negb ((200 <=? n)%N && (n <=? 599)%N)
                  then JsError "RangeError" else type_error), t).
Proof.
  unfold NextResponse_json, accepts_status.
  destruct ((200 <=? n)%N && (n <=? 599)%N); simpl; [|reflexivity].
  by destruct (null_body_status n).
Qed.

Lemma error_message_eq env errorText t :
  error_message env errorText t = (Normal (upstream_message (JSON_parse env errorText)), t).
Proof.
  unfold error_message, upstream_message. simpl.
  destruct (JSON_parse env errorText) as [[| | | | |fs]|]; simpl; try reflexivity.
  by destruct (get_own "error" fs) as [[| | | | |es]|].
Qed.

Lemma upstream_message_truthy parsed : truthy (Some (upstream_message parsed)) = true.
Proof.
  unfold upstream_message.
  destruct parsed as [[| | | | |fs]|]; try reflexivity.
  destruct (get_own "error" fs) as [[| | | | |es]|]; try reflexivity.
  unfold or_else. destruct (get_own "message" es) as [m|]; [|reflexivity].
  by destruct (truthy (Some m)) eqn:Hm.
Qed.

(** The catch block always answers, with status 500. *)
Lemma route_catch_eq error t :
  route_catch error t
  = (Normal {| response_status := 500;
               response_body := Object [("error", Str (message_of error))] |},
     t ++ [console_error "Realtime token error:"]).
Proof. reflexivity. Qed.

(** Reading the body and requesting the session: either it throws before
    any request is made, or exactly one request is made. *)
Lemma request_session_cases env key t :
  (exists e, request_session env key t = (Abrupt e, t)
             /\ (request_json env = inl e
                 \/ request_json env = inr Null /\ e = type_error))
  \/ (exists b,
        request_json env = inr b /\ b <> Null
        /\ let req := session_request key
                        (or_else (property b "instructions") (Str DEFAULT_INSTRUCTIONS))
                        (default (Str "shimmer") (property b "voice")) in
           request_session env key t
           = (match fetch env req with
              | inl e => Abrupt e
              | inr response => Normal response
              end, t ++ [fetch_upstream req])).
Proof.
  unfold request_session. simpl.
  destruct (request_json env) as [e|b]; simpl.
  - left. exists e. split; [reflexivity | by left].
  - destruct b; simpl;
      try (right; eexists; split; [reflexivity|]; split; [discriminate|];
           simpl; match goal with |- context [fetch env ?r] => by destruct (fetch env r) end).
    left. eexists. split; [reflexivity|]. by right.
Qed.

Lemma upstream_failed_cases env response t :
  (exists e l, upstream_failed env response t = (Abrupt e, t ++ l) /\ requests l = [])
  \/ (exists errorText,
        text response = inr errorText
        /\ accepts_status (status response) = true
        /\ upstream_failed env response t
           = (Normal {| response_status := status response;
                        response_body :=
                          Object [("error", upstream_message (JSON_parse env errorText))] |},
              t ++ [console_error "OpenAI API error:"])).
Proof.
  unfold upstream_failed. simpl.
  destruct (text response) as [e|errorText]; simpl.
  - left. exists e, []. by rewrite app_nil_r.
  - rewrite error_message_eq. simpl. rewrite NextResponse_json_eq.
    destruct (accepts_status (status response)) eqn:Hacc.
    + right. exists errorText. done.
    + left. eexists _, [_]. done.
Qed.

Lemma session_created_cases response t :
  (exists e, session_created response t = (Abrupt e, t))
  \/ (exists data secret,
        json response = inr data /\ data <> Null
        /\ property data "client_secret" = Some secret /\ secret <> Null
        /\ session_created response t
           = (Normal {| response_status := 200;
                        response_body :=
                          literal [("token", property secret "value");
                                   ("expiresAt", property secret "expires_at");
                                   ("sessionId", property data "id")] |}, t)).
Proof.
  unfold session_created. simpl.
  destruct (json response) as [e|data]; simpl; [left; by eexists|].
  destruct data as [| | | | |ds]; simpl; try (left; by eexists).
  destruct (get_own "client_secret" ds) as [secret|] eqn:Hs; simpl; [|left; by eexists].
  destruct secret as [| | | | |cs]; simpl; try (left; by eexists);
    right; eexists (Object ds), _; (split; [reflexivity|]); (split; [discriminate|]);
    simpl; rewrite Hs; (split; [reflexivity|]); (split; [discriminate|]); reflexivity.
Qed.

End TokenEndpoint.

Section TokenEndpointAnswers.
Import Js TokenRoute.

(** Property X9.
    Whatever the environment does, POST returns a response and never
    rejects; it makes at most one request to the realtime API; and every
    response whose status is not 200 is an object with the single property
    error. *)
Theorem POST_always_answers env t :
  exists r l,
    POST env t = (Normal r, t ++ l)
    /\ length (requests l) <= 1
    /\ (response_status r <> 200%N -> exists m, response_body r = Object [("error", m)]).
Proof.
  assert (Hnot : exists r l,
            not_configured t = (Normal r, t ++ l)
            /\ length (requests l) <= 1
            /\ (response_status r <> 200%N ->
                exists m, response_body r = Object [("error", m)])).
  { eexists _, []. rewrite app_nil_r. split; [reflexivity|]. split; [simpl; lia|].
    intros _. by eexists. }
  unfold POST. destruct (OPENAI_API_KEY env) as [key|]; [|exact Hnot].
  destruct (String.eqb key ""); [exact Hnot|]. clear Hnot.
  unfold create_session. simpl.
  destruct (request_session_cases env key t) as [(e & -> & _)|(b & _ & _ & ->)].
  { rewrite route_catch_eq. eexists _, [_]. split; [reflexivity|]. split; [simpl; lia|].
    intros _. by eexists. }
  match goal with |- context [fetch env ?req] => destruct (fetch env req) as [e|response] end.
  { rewrite route_catch_eq, <- app_assoc. eexists _, [_; _].
    split; [reflexivity|]. split; [simpl; lia|]. intros _. by eexists. }
  destruct (ok response) eqn:Hok; simpl.
  - match goal with |- context [session_created response ?t1] =>
      destruct (session_created_cases response t1)
        as [(e & ->)|(data & secret & _ & _ & _ & _ & ->)] end.
    + rewrite route_catch_eq, <- app_assoc. eexists _, [_; _].
      split; [reflexivity|]. split; [simpl; lia|]. intros _. by eexists.
    + eexists _, [_]. split; [reflexivity|]. split; [simpl; lia|]. simpl. done.
  - match goal with |- context [upstream_failed env response ?t1] =>
      destruct (upstream_failed_cases env response t1)
        as [(e & l & -> & Hl)|(errorText & _ & _ & ->)] end.
    + rewrite route_catch_eq, <- !app_assoc. eexists _, ([_] ++ l ++ [_]).
      split; [reflexivity|]. split.
      * rewrite !requests_app, Hl. simpl. lia.
      * intros _. by eexists.
    + rewrite <- app_assoc. eexists _, [_; _]. split; [reflexivity|].
      split; [simpl; lia|]. intros _. by eexists.
Qed.

End TokenEndpointAnswers.

Section TokenEndpointCases.
Import PrimFloat Js TokenRoute.

(** Property X10.
    Without a key in the environment (unset or empty), or when the body
    of the incoming request cannot be read (the promise of request.json()
    rejects, or the body is null), POST answers 500 and makes no request
    to the realtime API. *)
Theorem POST_refuses_without_request env t :
  OPENAI_API_KEY env = None \/ OPENAI_API_KEY env = Some ""
  \/ (exists e, request_json env = inl e) \/ request_json env = inr Null ->
  exists r l,
    POST env t = (Normal r, t ++ l)
    /\ requests l = []
    /\ response_status r = 500%N
    /\ exists m, response_body r = Object [("error", Str m)].
Proof.
  intros H.
  assert (Hnot : exists r l,
            not_configured t = (Normal r, t ++ l) /\ requests l = []
            /\ response_status r = 500%N
            /\ exists m, response_body r = Object [("error", Str m)]).
  { eexists _, []. rewrite app_nil_r. split; [reflexivity|]. by eauto. }
  unfold POST. destruct (OPENAI_API_KEY env) as [key|] eqn:Hkey; [|exact Hnot].
  destruct (String.eqb key "") eqn:Hempty; [exact Hnot|]. clear Hnot.
  destruct H as [H|[H|H]]; [discriminate| |].
  { injection H as ->. discriminate. }
  unfold create_session. simpl.
  destruct (request_session_cases env key t) as [(e & -> & _)|(b & Hb & Hnull & _)].
  - rewrite route_catch_eq. eexists _, [_]. split; [reflexivity|]. by eauto.
  - destruct H as [[e H]|H]; congruence.
Qed.

Lemma POST_refuses_without_request_witness :
  OPENAI_API_KEY Samples.unconfigured = Some ""
  /\ exists r l,
       POST Samples.unconfigured [] = (Normal r, [] ++ l)
       /\ requests l = []
       /\ response_status r = 500%N
       /\ exists m, response_body r = Object [("error", Str m)].
Proof.
  split; [reflexivity|].
  apply POST_refuses_without_request. right; left; reflexivity.
Defined.

(** Property X11.
    With a key, and a body that is not null, POST makes exactly one
    request, to the sessions URL and with the key as bearer token.  Of the
    session configuration only two properties come from the client: the
    instructions, replaced by the default text when the property is
    missing or falsy, and the voice, replaced by "shimmer" only when the
    property is missing. *)
Theorem POST_forwards_instructions_and_voice env key b t :
  OPENAI_API_KEY env = Some key -> key <> "" ->
  request_json env = inr b -> b <> Null ->
  exists c l,
    POST env t = (c, t ++ l)
    /\ requests l
       = [session_request key
            (or_else (property b "instructions") (Str DEFAULT_INSTRUCTIONS))
            (default (Str "shimmer") (property b "voice"))].
Proof.
  intros Hkey Hne Hb Hnull. unfold POST. rewrite Hkey.
  destruct (String.eqb_spec key ""); [done|].
  unfold create_session. simpl.
  destruct (request_session_cases env key t)
    as [(e & _ & [He|[He _]])|(b' & Hb' & _ & ->)]; [congruence..|].
  assert (b' = b) as -> by congruence.
  match goal with |- context [fetch env ?req] => destruct (fetch env req) as [e|response] end.
  { rewrite route_catch_eq, <- app_assoc. eexists _, [_; _]. done. }
  destruct (ok response); simpl.
  - match goal with |- context [session_created response ?t1] =>
      destruct (session_created_cases response t1)
        as [(e & ->)|(data & secret & _ & _ & _ & _ & ->)] end.
    + rewrite route_catch_eq, <- app_assoc. eexists _, [_; _]. done.
    + eexists _, [_]. done.
  - match goal with |- context [upstream_failed env response ?t1] =>
      destruct (upstream_failed_cases env response t1)
        as [(e & l & -> & Hl)|(errorText & _ & _ & ->)] end.
    + rewrite route_catch_eq, <- !app_assoc. eexists _, ([_] ++ l ++ [_]).
      split; [reflexivity|]. rewrite !requests_app, Hl. reflexivity.
    + rewrite <- app_assoc. eexists _, [_; _]. done.
Qed.

Lemma POST_forwards_instructions_and_voice_witness :
  exists c l,
    POST Samples.serving [] = (c, [] ++ l)
    /\ requests l = [session_request "sk-test" (Str "Be brief.") (Str "sage")].
Proof.
  apply (POST_forwards_instructions_and_voice Samples.serving "sk-test" Samples.client_body);
    [reflexivity | discriminate | reflexivity | discriminate].
Defined.

(** Property X12.
    When the realtime API answers with a status outside 200..299 and its
    text can be read, POST relays the status if a Response may carry a
    body with it, and answers 500 otherwise.  The relayed error is the
    property message of the property error of the parsed text when that
    is truthy, and "Failed to create session" in every other case (the
    text does not parse, is not an object, has no such property); it is
    never falsy. *)
Theorem POST_relays_upstream_failure env key b response errorText t :
  OPENAI_API_KEY env = Some key -> key <> "" ->
  request_json env = inr b -> b <> Null ->
  fetch env (session_request key
               (or_else (property b "instructions") (Str DEFAULT_INSTRUCTIONS))
               (default (Str "shimmer") (property b "voice"))) = inr response ->
  ok response = false ->
  text response = inr errorText ->
  exists r l,
    POST env t = (Normal r, t ++ l)
    /\ response_status r = (if accepts_status (status response) then status response else 500%N)
    /\ (accepts_status (status response) = true ->
        response_body r = Object [("error", upstream_message (JSON_parse env errorText))])
    /\ truthy (Some (upstream_message (JSON_parse env errorText))) = true.
Proof.
  intros Hkey Hne Hb Hnull Hfetch Hok Htext. unfold POST. rewrite Hkey.
  destruct (String.eqb_spec key ""); [done|].
  unfold create_session. simpl.
  destruct (request_session_cases env key t)
    as [(e & _ & [He|[He _]])|(b' & Hb' & _ & ->)]; [congruence..|].
  assert (b' = b) as -> by congruence.
  rewrite Hfetch, Hok. simpl.
  unfold upstream_failed. simpl. rewrite Htext. simpl.
  rewrite error_message_eq. simpl. rewrite NextResponse_json_eq.
  destruct (accepts_status (status response)).
  - rewrite <- app_assoc. eexists _, _. split; [reflexivity|]. split; [reflexivity|].
    split; [done | apply upstream_message_truthy].
  - rewrite route_catch_eq, <- !app_assoc. eexists _, _. split; [reflexivity|].
    split; [reflexivity|]. split; [done | apply upstream_message_truthy].
Qed.

Lemma POST_relays_upstream_failure_witness :
  exists r l,
    POST Samples.refusing [] = (Normal r, [] ++ l)
    /\ response_status r = 401%N
    /\ response_body r = Object [("error", Str "Incorrect API key provided")].
Proof.
  destruct (POST_relays_upstream_failure Samples.refusing "sk-test" Samples.client_body
              Samples.refused "refused" [])
    as (r & l & H & Hst & Hbody & _);
    [reflexivity | discriminate | reflexivity | discriminate
    | reflexivity | reflexivity | reflexivity |].
  exists r, l. split; [exact H|]. split; [exact Hst | exact (Hbody eq_refl)].
Defined.

(** Property X13.
    When the realtime API answers with a status in 200..299, POST answers
    200 exactly when the body parses to a value whose property
    client_secret is neither missing nor null; the answer then holds
    token, expiresAt and sessionId, each left out when the property it is
    read from is missing.  In every other case it answers 500. *)
Theorem POST_session_created env key b response t :
  OPENAI_API_KEY env = Some key -> key <> "" ->
  request_json env = inr b -> b <> Null ->
  fetch env (session_request key
               (or_else (property b "instructions") (Str DEFAULT_INSTRUCTIONS))
               (default (Str "shimmer") (property b "voice"))) = inr response ->
  ok response = true ->
  exists r l,
    POST env t = (Normal r, t ++ l)
    /\ (forall data secret,
          json response = inr data ->
          property data "client_secret" = Some secret -> secret <> Null ->
          r = {| response_status := 200;
                 response_body :=
                   literal [("token", property secret "value");
                            ("expiresAt", property secret "expires_at");
                            ("sessionId", property data "id")] |})
    /\ ((forall data, json response = inr data ->
           property data "client_secret" = None
           \/ property data "client_secret" = Some Null) ->
        response_status r = 500%N).
Proof.
  intros Hkey Hne Hb Hnull Hfetch Hok. unfold POST. rewrite Hkey.
  destruct (String.eqb_spec key ""); [done|].
  unfold create_session. simpl.
  destruct (request_session_cases env key t)
    as [(e & _ & [He|[He _]])|(b' & Hb' & _ & ->)]; [congruence..|].
  assert (b' = b) as -> by congruence.
  rewrite Hfetch, Hok. simpl.
  match goal with |- context [session_created response ?t1] =>
    pose proof (session_created_cases response t1) as Hcases end.
  unfold session_created in *. simpl in *.
  destruct (json response) as [e|data]; simpl in *.
  { rewrite route_catch_eq, <- app_assoc. eexists _, _. split; [reflexivity|].
    split; [intros ? ? [=] | done]. }
  destruct Hcases as [(e & He)|(data' & secret & [= <-] & Hd & Hs & Hn & Heq)].
  - rewrite He. rewrite route_catch_eq, <- app_assoc. eexists _, _.
    split; [reflexivity|]. split; [|done].
    intros data' secret [= <-] Hs Hn. exfalso.
    destruct data as [| | | | |ds]; simpl in Hs; try discriminate.
    simpl in He. rewrite Hs in He. simpl in He.
    destruct secret; simpl in He; try discriminate; done.
  - rewrite Heq. eexists _, _. split; [reflexivity|]. split.
    + intros data' secret' [= <-] Hs' _.
      assert (secret' = secret) as -> by congruence. reflexivity.
    + intros Hall. destruct (Hall data eq_refl); congruence.
Qed.

Lemma POST_session_created_witness :
  exists r l,
    POST Samples.serving [] = (Normal r, [] ++ l)
    /\ r = {| response_status := 200;
              response_body :=
                Object [ ("token", Str "ek_1");
                         ("expiresAt", Number 1700000000%float);
                         ("sessionId", Str "sess_1") ] |}.
Proof.
  destruct (POST_session_created Samples.serving "sk-test" Samples.client_body
              Samples.created [])
    as (r & l & H & Hr & _);
    [reflexivity | discriminate | reflexivity | discriminate | reflexivity | reflexivity |].
  exists r, l. split; [exact H|].
  apply (Hr _ (Object [("value", Str "ek_1"); ("expires_at", Number 1700000000%float)])
           eq_refl eq_refl).
  discriminate.
Defined.

End TokenEndpointCases.

(** ** The audition hook *)

#[local] Arguments Audition.lift {A} m s /.
#[local] Arguments Audition.setStatus v s /.
#[local] Arguments Audition.setActivePersona v s /.
#[local] Arguments Audition.setIsAgentSpeaking v s /.
#[local] Arguments Audition.setError v s /.
#[local] Arguments Audition.set_stage task st s /.
#[local] Arguments Audition.cleanup : simpl never.
#[local] Arguments Audition.stage_of : simpl never.

Section AuditionTeardown.
Import Browser Negotiation AuditionView.

Lemma stop_tracks_sim stream ts : forall s,
  for_each ts (fun t => Audition.lift (stop_track stream t)) s
  = (let '(c, k) := for_each ts (fun t => Connection.lift (stop_track stream t))
                      (to_connection s) in
     (c, with_resources k s)).
Proof.
  induction ts as [|t ts IH]; intros s.
  - simpl. by destruct s.
  - cbn [for_each]. simpl. rewrite IH. simpl. reflexivity.
Qed.

(** The two hooks release what their refs hold in the same way. *)
Lemma cleanup_sim s :
  Audition.cleanup s
  = (let '(c, k) := Connection.cleanup (to_connection s) in (c, with_resources k s)).
Proof.
  unfold Audition.cleanup, Connection.cleanup. simpl.
  destruct s as [st ap spk err pcRef dcRef lsRef auRef tks b]. simpl.
  destruct dcRef as [dc|]; simpl;
    [unfold ready_state; simpl; destruct (default rs_closed (channels b !! dc)); simpl|].
  all: destruct lsRef as [stream|]; simpl.
  all: try (rewrite stop_tracks_sim;
      unfold to_connection, with_resources, Connection.with_dataChannelRef,
        Connection.with_browser, Audition.with_dataChannelRef, Audition.with_browser;
      simpl;
      match goal with |- context [for_each ?l ?f ?k] =>
        destruct (for_each l f k) as [[[]|e] [? ? ? pcRef' dcRef' lsRef' auRef' ? ? ? b']]
      end;
      simpl; [destruct pcRef' as [pc|]; simpl; destruct auRef' as [au|]; simpl|];
      reflexivity).
  all: destruct pcRef as [pc|]; simpl; destruct auRef as [au|]; simpl; reflexivity.
Qed.

End AuditionTeardown.

Section AuditionRelease.
Import Browser Negotiation AuditionView.

(** What cleanup leaves of an audition whose refs own the store. *)
Lemma audition_cleanup_spec t s :
  Connection.refs_own_store t (to_connection s) ->
  exists k,
    Audition.cleanup s = (Normal tt, with_resources k s)
    /\ Connection.refs_own_store t k /\ Connection.refs_none k.
Proof.
  intros Hown. rewrite cleanup_sim.
  destruct (cleanup_spec t (to_connection s) Hown) as (k & -> & Hown' & Hnone & _).
  by exists k.
Qed.



(** Property X14.
    endAudition on an audition whose live objects are all held by the
    refs (as for an audition that connected): it returns normally; the
    status is disconnected, no persona is active, the speaking flag and
    the error are reset, the refs are empty; and no channel is live, no
    capture track is live, no peer connection is open and no audio
    element has a source. *)
Theorem endAudition_releases_everything t s :
  Connection.refs_own_store t (to_connection s) ->
  completion Audition.endAudition s = Normal tt
  /\ Audition.status (exec_state Audition.endAudition s) = disconnected
  /\ Audition.activePersona (exec_state Audition.endAudition s) = None
  /\ Audition.isAgentSpeaking (exec_state Audition.endAudition s) = false
  /\ Audition.error (exec_state Audition.endAudition s) = None
  /\ refs_none (exec_state Audition.endAudition s)
  /\ live_channels (Audition.browser (exec_state Audition.endAudition s)) = 0
  /\ live_tracks (Audition.browser (exec_state Audition.endAudition s)) = 0
  /\ open_peers (Audition.browser (exec_state Audition.endAudition s)) = 0
  /\ attached_sinks (Audition.browser (exec_state Audition.endAudition s)) = 0.
Proof.
  intros Hown.
  destruct (audition_cleanup_spec t s Hown) as (k & Hc & Hown' & Hnone).
  destruct (released_counts t k Hnone Hown') as (Hlc & _ & Hlt & Hop & Has).
  unfold Audition.endAudition. simpl. rewrite Hc. simpl.
  destruct Hnone as (? & ? & ? & ?).
  split; [reflexivity|]. split; [reflexivity|]. split; [reflexivity|].
  split; [reflexivity|]. split; [reflexivity|]. split; [by repeat split|].
  by repeat split.
Qed.

(** Property X15.
    startAudition while the status is not disconnected, on an audition
    whose live objects are all held by the refs: the call returns
    normally with the status connecting and the new persona active, the
    old channel, capture tracks, peer connection and audio element are
    released, and the new negotiation waits for its token request. *)
Theorem startAudition_replaces_a_held_audition t s persona :
  Connection.refs_own_store t (to_connection s) ->
  Audition.status s <> disconnected ->
  completion (Audition.startAudition persona) s = Normal tt
  /\ Audition.status (exec_state (Audition.startAudition persona) s) = connecting
  /\ Audition.activePersona (exec_state (Audition.startAudition persona) s) = Some persona
  /\ Audition.error (exec_state (Audition.startAudition persona) s) = None
  /\ refs_none (exec_state (Audition.startAudition persona) s)
  /\ live_channels (Audition.browser (exec_state (Audition.startAudition persona) s)) = 0
  /\ live_tracks (Audition.browser (exec_state (Audition.startAudition persona) s)) = 0
  /\ open_peers (Audition.browser (exec_state (Audition.startAudition persona) s)) = 0
  /\ attached_sinks (Audition.browser (exec_state (Audition.startAudition persona) s)) = 0
  /\ Audition.stage_of (length (Audition.tasks s))
       (exec_state (Audition.startAudition persona) s) = awaiting_token_response.
Proof.
  intros Hown Hst.
  destruct (audition_cleanup_spec t s Hown) as (k & Hc & Hown' & Hnone).
  destruct (released_counts t k Hnone Hown') as (Hlc & _ & Hlt & Hop & Has).
  unfold Audition.startAudition, Audition.in_try. simpl.
  rewrite decide_True by exact Hst. rewrite Hc. simpl.
  destruct Hnone as (? & ? & ? & ?).
  split; [reflexivity|]. split; [reflexivity|]. split; [reflexivity|].
  split; [reflexivity|]. split; [by repeat split|].
  split; [exact Hlc|]. split; [exact Hlt|]. split; [exact Hop|]. split; [exact Has|].
  unfold Audition.stage_of. simpl.
  rewrite lookup_app_r by done. by rewrite Nat.sub_diag.
Qed.

(** The established audition of the scenarios holds all its objects. *)
Lemma auditioning_owned :
  Connection.refs_own_store 0 (to_connection Scenario.auditioning).
Proof.
  split; [|split; [|split]].
  - intros [|i] r Hi Hlive; [reflexivity|]. vm_compute in Hi. discriminate.
  - intros [|i] ts Hi Hlive; [reflexivity|]. vm_compute in Hi. discriminate.
  - intros [|i] p Hi Hopen; [|vm_compute in Hi; discriminate].
    vm_compute in Hi. injection Hi as <-. split; [reflexivity|]. split.
    + intros a [= <-]. reflexivity.
    + intros l Hl. simpl in Hl. apply list_elem_of_singleton in Hl as ->. reflexivity.
  - intros [|i] a Hi Hsrc; [reflexivity|]. vm_compute in Hi. discriminate.
Qed.

Lemma endAudition_releases_everything_witness :
  Audition.status (exec_state Audition.endAudition Scenario.auditioning) = disconnected
  /\ live_tracks (Audition.browser (exec_state Audition.endAudition Scenario.auditioning)) = 0
  /\ open_peers (Audition.browser (exec_state Audition.endAudition Scenario.auditioning)) = 0.
Proof.
  destruct (endAudition_releases_everything 0 Scenario.auditioning auditioning_owned)
    as (_ & Hst & _ & _ & _ & _ & _ & Hlt & Hop & _).
  split; [exact Hst|]. split; [exact Hlt | exact Hop].
Defined.

Lemma startAudition_replaces_a_held_audition_witness :
  Audition.status Scenario.auditioning <> disconnected
  /\ Audition.activePersona (exec_state (Audition.startAudition coach) Scenario.auditioning)
     = Some coach
  /\ live_tracks
       (Audition.browser (exec_state (Audition.startAudition coach) Scenario.auditioning)) = 0
  /\ open_peers
       (Audition.browser (exec_state (Audition.startAudition coach) Scenario.auditioning)) = 0.
Proof.
  assert (Hst : Audition.status Scenario.auditioning <> disconnected)
    by (vm_compute; discriminate).
  split; [exact Hst|].
  destruct (startAudition_replaces_a_held_audition 0 Scenario.auditioning coach
              auditioning_owned Hst)
    as (_ & _ & Hap & _ & _ & _ & Hlt & Hop & _).
  split; [exact Hap|]. split; [exact Hlt | exact Hop].
Defined.

End AuditionRelease.

Section AuditionMessages.
Import Browser Negotiation AuditionView.

Lemma audition_effects_of_unchanged {A} (m : Eff Audition.State A) s c :
  m s = (c, s) -> effects_of m s = [].
Proof. intros H. unfold effects_of. simpl. rewrite H. simpl. by rewrite drop_all. Qed.

Lemma audition_effects_of_logged {A} (m : Eff Audition.State A) s c s' l :
  m s = (c, s') ->
  trace (Audition.browser s') = trace (Audition.browser s) ++ l ->
  effects_of m s = l.
Proof.
  intros H Ht. unfold effects_of. simpl. rewrite H. simpl. rewrite Ht.
  by rewrite drop_app_length.
Qed.

Lemma audition_message_spec data s :
  exists l s',
    Audition.on_channel_message data s = (Normal tt, s')
    /\ trace (Audition.browser s') = trace (Audition.browser s) ++ l
    /\ sent l = [] /\ filter Connection.is_navigation l = []
    /\ Audition.status s' = Audition.status s
    /\ Audition.activePersona s' = Audition.activePersona s
    /\ Audition.dataChannelRef s' = Audition.dataChannelRef s
    /\ Audition.peerConnectionRef s' = Audition.peerConnectionRef s.
Proof.
  unfold Audition.on_channel_message, Audition.handleServerEvent.
  destruct data as [[]|]; simpl;
    first [ by (exists []; eexists; rewrite app_nil_r)
          | by (eexists [_], _)
          | by (eexists [_; _], _; rewrite <- app_assoc) ].
Qed.

(** Property X16.
    The audition hook never answers the server: whatever message arrives
    on the data channel (parsable or not, function calls included), the
    handler returns normally, writes nothing to any channel, invokes no
    navigation callback, and leaves the status, the active persona and
    the refs as they were. *)
Theorem audition_never_writes_back dc data s :
  completion (Audition.step (Audition.channel_message dc data)) s = Normal tt
  /\ sent (effects_of (Audition.step (Audition.channel_message dc data)) s) = []
  /\ filter Connection.is_navigation
       (effects_of (Audition.step (Audition.channel_message dc data)) s) = []
  /\ Audition.status (exec_state (Audition.step (Audition.channel_message dc data)) s)
     = Audition.status s
  /\ Audition.activePersona (exec_state (Audition.step (Audition.channel_message dc data)) s)
     = Audition.activePersona s
  /\ Audition.dataChannelRef (exec_state (Audition.step (Audition.channel_message dc data)) s)
     = Audition.dataChannelRef s
  /\ Audition.peerConnectionRef
       (exec_state (Audition.step (Audition.channel_message dc data)) s)
     = Audition.peerConnectionRef s.
Proof.
  destruct (audition_message_spec data s) as (l & s' & H & Ht & Hsent & Hnav & ? & ? & ? & ?).
  assert (Hstep : Audition.step (Audition.channel_message dc data) s = (Normal tt, s)
                  \/ Audition.step (Audition.channel_message dc data) s = (Normal tt, s')).
  { simpl. destruct (channels (Audition.browser s) !! dc) as [[]|]; simpl; auto. }
  destruct Hstep as [Hstep|Hstep].
  - rewrite (audition_effects_of_unchanged _ _ _ Hstep).
    unfold completion, exec_state. rewrite Hstep. done.
  - rewrite (audition_effects_of_logged _ _ _ _ _ Hstep Ht).
    unfold completion, exec_state. rewrite Hstep. done.
Qed.

(** Property X17.
    The first response of an audition.  When its data channel opens, the
    hook sets the status to connected and arms one timer of 100 ms; when
    that timer fires, a single response.create is written to the channel
    if it is still open, and nothing is written, and nothing thrown, if
    the channel has been closed in the meantime. *)
Theorem audition_kickoff dc timer t s :
  (channels (Audition.browser s) !! dc = Some rs_connecting ->
   Audition.status (exec_state (Audition.step (Audition.channel_opened dc)) s) = connected
   /\ timers (Audition.browser (exec_state (Audition.step (Audition.channel_opened dc)) s))
      = timers (Audition.browser s)
        ++ [{| timer_delay := 100; timer_pending := true;
               timer_action := trigger_response dc |}])
  /\ (timers (Audition.browser s) !! timer = Some t ->
      timer_pending t = true ->
      timer_action t = trigger_response dc ->
      completion (Audition.step (Audition.timer_fired timer)) s = Normal tt
      /\ sent (effects_of (Audition.step (Audition.timer_fired timer)) s)
         = if decide (ready_state dc (Audition.browser s) = rs_open)
           then [response_create] else []).
Proof.
  split.
  - intros Hdc. simpl. rewrite Hdc. simpl. done.
  - intros Ht Hpending Haction. unfold effects_of. simpl. rewrite Ht. simpl.
    rewrite Hpending. simpl. rewrite Haction. unfold Audition.on_kickoff. simpl.
    unfold ready_state. simpl.
    destruct (decide (default rs_closed (channels (Audition.browser s) !! dc) = rs_open))
      as [Hopen|Hclosed]; simpl.
    + unfold ready_state. simpl. rewrite Hopen. simpl. by rewrite drop_app_length.
    + by rewrite drop_all.
Qed.

Lemma audition_kickoff_witness :
  timers (Audition.browser Scenario.auditioning) !! 1
  = Some {| timer_delay := 100; timer_pending := true; timer_action := trigger_response 0 |}
  /\ sent (effects_of (Audition.step (Audition.timer_fired 1)) Scenario.auditioning)
     = [response_create].
Proof.
  assert (Htimer : timers (Audition.browser Scenario.auditioning) !! 1
                   = Some {| timer_delay := 100; timer_pending := true;
                             timer_action := trigger_response 0 |})
    by (vm_compute; reflexivity).
  split; [exact Htimer|].
  destruct (proj2 (audition_kickoff 0 1 _ Scenario.auditioning) Htimer eq_refl eq_refl)
    as [_ Hsent].
  rewrite decide_True in Hsent by (vm_compute; reflexivity). exact Hsent.
Defined.

End AuditionMessages.

(** ** The provider's setters and the button *)

Section ProviderSetters.
Import Browser Coordinator.

Variable build :
  SlideMetadata -> list (string * string) -> InteractionMode -> PersonaType -> string.



End ProviderSetters.


(** ** The landing page *)

Section Landing.
Import Browser Negotiation AuditionView LandingPage.

(** endAudition never throws, and leaves the hook at rest with empty refs. *)
Lemma endAudition_spec s :
  exists s',
    Audition.endAudition s = (Normal tt, s')
    /\ Audition.status s' = disconnected /\ Audition.activePersona s' = None
    /\ Audition.isAgentSpeaking s' = false /\ Audition.error s' = None
    /\ refs_none s'.
Proof.
  unfold Audition.endAudition. simpl. rewrite cleanup_sim.
  destruct (cleanup_empties (to_connection s)) as (k & -> & (? & ? & ? & ?)). simpl.
  eexists. split; [reflexivity|]. by repeat split.
Qed.



(** Property X21.
    Selecting a persona, closing the persona drawer, and the Escape key
    while that drawer is shown all end the audition: they return
    normally, the drawer is closed, the audition hook is disconnected
    with no active persona and empty refs.  Escape closes the mode drawer
    too; with the persona drawer hidden it leaves the audition as it is;
    and any other key changes nothing. *)
Theorem closing_the_persona_drawer_ends_the_audition s :
  (forall personaId,
     completion (handleSelectPersona personaId) s = Normal tt
     /\ selectedPersona (exec_state (handleSelectPersona personaId) s) = personaId
     /\ showPersonaDrawer (exec_state (handleSelectPersona personaId) s) = false
     /\ auditionStatus (exec_state (handleSelectPersona personaId) s) = disconnected
     /\ activePersona (exec_state (handleSelectPersona personaId) s) = None
     /\ refs_none (audition (exec_state (handleSelectPersona personaId) s)))
  /\ (completion handleCloseDrawer s = Normal tt
      /\ showPersonaDrawer (exec_state handleCloseDrawer s) = false
      /\ auditionStatus (exec_state handleCloseDrawer s) = disconnected
      /\ activePersona (exec_state handleCloseDrawer s) = None
      /\ refs_none (audition (exec_state handleCloseDrawer s)))
  /\ (completion (handleEscape "Escape") s = Normal tt
      /\ showPersonaDrawer (exec_state (handleEscape "Escape") s) = false
      /\ showModeDrawer (exec_state (handleEscape "Escape") s) = false
      /\ (showPersonaDrawer s = true ->
          auditionStatus (exec_state (handleEscape "Escape") s) = disconnected
          /\ activePersona (exec_state (handleEscape "Escape") s) = None
          /\ refs_none (audition (exec_state (handleEscape "Escape") s)))
      /\ (showPersonaDrawer s = false ->
          audition (exec_state (handleEscape "Escape") s) = audition s))
  /\ (forall key, key <> "Escape" -> handleEscape key s = (Normal tt, s)).
Proof.
  destruct (endAudition_spec (audition s)) as (k & Hend & ? & ? & ? & ? & ?).
  split; [|split; [|split]].
  - intros personaId. unfold handleSelectPersona. simpl. rewrite Hend. simpl. done.
  - unfold handleCloseDrawer. simpl. rewrite Hend. simpl. done.
  - unfold handleEscape. simpl.
    destruct (showPersonaDrawer s) eqn:Hp; simpl.
    + rewrite Hend. simpl. destruct (showModeDrawer s) eqn:Hm; simpl; split_and?; done.
    + destruct (showModeDrawer s) eqn:Hm; simpl; split_and?; done.
  - intros key Hkey. unfold handleEscape.
    destruct (String.eqb_spec key "Escape"); done.
Qed.

End Landing.

(** ** The instruction synthesizer *)

Section Synthesizer.
Import Coordinator Instructions.

Lemma string_app_assoc (a b c : string) : (a +:+ b) +:+ c = a +:+ b +:+ c.
Proof.
  induction a as [|x a IH]; [reflexivity|].
  change (String x ((a +:+ b) +:+ c) = String x (a +:+ b +:+ c)). by rewrite IH.
Qed.

Lemma occurs_in_head needle after : occurs_in needle (needle +:+ after).
Proof. by exists "", after. Qed.

Lemma occurs_in_tail needle before hay :
  occurs_in needle hay -> occurs_in needle (before +:+ hay).
Proof.
  intros (a & b & ->). exists (before +:+ a), b. by rewrite string_app_assoc.
Qed.

Lemma occurs_in_front needle hay after :
  occurs_in needle hay -> occurs_in needle (hay +:+ after).
Proof.
  intros (a & b & ->). exists a, (b +:+ after). by rewrite !string_app_assoc.
Qed.

Lemma starts_with_sound needle : forall hay,
  starts_with needle hay = true -> exists after, hay = needle +:+ after.
Proof.
  induction needle as [|a needle IH]; intros hay H; simpl in *.
  - by exists hay.
  - destruct hay as [|b hay]; [discriminate|].
    apply andb_prop in H as [Hab H]. apply Ascii.eqb_eq in Hab as ->.
    destruct (IH hay H) as [after ->]. by exists after.
Qed.

Lemma contains_sound needle : forall hay,
  contains needle hay = true -> occurs_in needle hay.
Proof.
  induction hay as [|b hay IH]; simpl; intros H.
  - rewrite orb_false_r in H. destruct (starts_with_sound _ _ H) as [after ->].
    apply occurs_in_head.
  - apply orb_prop in H as [H|H].
    + destruct (starts_with_sound _ _ H) as [after ->]. apply occurs_in_head.
    + destruct (IH H) as (a & c & ->). by exists (String b a), c.
Qed.

(** Peel the pieces of a concatenation until the needle is its head. *)
Ltac find_piece :=
  repeat first [ apply occurs_in_head | apply occurs_in_tail ].

(** What the section on tools says is said by the whole prompt. *)
Lemma tool_section_in_instructions currentSlide slideOverview slideContext mode persona needle :
  occurs_in needle (toolUsageSection mode) ->
  occurs_in needle (buildInstructions currentSlide slideOverview slideContext mode persona).
Proof.
  intros H. unfold buildInstructions. do 4 apply occurs_in_tail. by apply occurs_in_front.
Qed.

Lemma tool_section_names_the_tools mode :
  occurs_in "`goToNextSlide()`" (toolUsageSection mode)
  /\ occurs_in "`goToPreviousSlide()`" (toolUsageSection mode)
  /\ occurs_in "`[Context Update]`" (toolUsageSection mode).
Proof.
  unfold toolUsageSection. split; [|split].
  - apply occurs_in_front, contains_sound. vm_compute. reflexivity.
  - apply occurs_in_front, contains_sound. vm_compute. reflexivity.
  - do 2 apply occurs_in_tail. apply contains_sound. vm_compute. reflexivity.
Qed.

(** Property X22.
    The prompt names the tools and the hint tag as the rest of the code
    has them.  For every slide, overview, slide context, mode and
    persona, the instructions contain the two tool names of TOOL_NAMES
    (those declared to the model and dispatched by the hook), each
    written as a call between backquotes, and the tag that sendHint puts
    in front of every hint. *)
Theorem instructions_name_the_tools_and_the_hint_tag
    currentSlide slideOverview slideContext mode persona :
  occurs_in ("`" +:+ TOOL_NAMES.GO_TO_NEXT_SLIDE +:+ "()`")
    (buildInstructions currentSlide slideOverview slideContext mode persona)
  /\ occurs_in ("`" +:+ TOOL_NAMES.GO_TO_PREVIOUS_SLIDE +:+ "()`")
       (buildInstructions currentSlide slideOverview slideContext mode persona)
  /\ occurs_in "`[Context Update]`"
       (buildInstructions currentSlide slideOverview slideContext mode persona)
  /\ Connection.CONTEXT_UPDATE = "[Context Update]" +:+ " ".
Proof.
  destruct (tool_section_names_the_tools mode) as (Hnext & Hprev & Htag).
  split; [|split; [|split]]; [..|reflexivity];
    by apply tool_section_in_instructions.
Qed.

Ltac peel_until_previous :=
  lazymatch goal with
  | |- occurs_in _ (_ +:+ previousSlideLine _ +:+ _) => idtac
  | _ => apply occurs_in_tail; peel_until_previous
  end.

(** Property X23.
    The prompt tells the model which slides surround the current one.
    For every input the instructions contain, each on a line of its own
    and one after the other, the line of the previous slide and the line
    of the next slide.  The previous slide is reported as none on the
    first slide (number at most 1), the next slide as none on the last
    (number at least the total); otherwise the line quotes the title of
    the entry of the overview before, or after, the current slide, when
    that entry exists and its title is not empty.  When the overview is
    too short to hold that entry, the slide is reported as the last (or
    first) one although it is not. *)
Theorem instructions_state_the_neighbouring_slides
    currentSlide slideOverview slideContext mode persona :
  occurs_in
    (nl +:+ previousSlideLine (previousSlide currentSlide slideOverview)
     +:+ nl +:+ nextSlideLine (nextSlide currentSlide slideOverview) +:+ nl)
    (buildInstructions currentSlide slideOverview slideContext mode persona)
  /\ ((slideNumber currentSlide <= 1)%Z ->
      previousSlideLine (previousSlide currentSlide slideOverview)
      = "**Previous Slide:** None (this is the first slide)")
  /\ ((totalSlides currentSlide <= slideNumber currentSlide)%Z ->
      nextSlideLine (nextSlide currentSlide slideOverview)
      = "**Next Slide:** None (this is the last slide)")
  /\ (forall entry,
        (1 < slideNumber currentSlide)%Z ->
        slideOverview !! Z.to_nat (slideNumber currentSlide - 2) = Some entry ->
        snd entry <> "" ->
        previousSlideLine (previousSlide currentSlide slideOverview)
        = "**Previous Slide:** " +:+ Json.quoted (snd entry))
  /\ (forall entry,
        (0 <= slideNumber currentSlide < totalSlides currentSlide)%Z ->
        slideOverview !! Z.to_nat (slideNumber currentSlide) = Some entry ->
        snd entry <> "" ->
        nextSlideLine (nextSlide currentSlide slideOverview)
        = "**Next Slide:** " +:+ Json.quoted (snd entry))
  /\ (length slideOverview <= Z.to_nat (slideNumber currentSlide) ->
      nextSlideLine (nextSlide currentSlide slideOverview)
      = "**Next Slide:** None (this is the last slide)")
  /\ (length slideOverview <= Z.to_nat (slideNumber currentSlide - 2) ->
      previousSlideLine (previousSlide currentSlide slideOverview)
      = "**Previous Slide:** None (this is the first slide)").
Proof.
  split.
  { unfold buildInstructions, roleAndState. apply occurs_in_front.
    peel_until_previous.
    exists "", ("
---

## Current Slide Context

").
    rewrite !string_app_assoc. reflexivity. }
  unfold previousSlide, nextSlide, previousSlideLine, nextSlideLine, truthy.
  split; [|split; [|split; [|split; [|split]]]].
  - intros H. by rewrite (proj2 (Z.ltb_ge _ _) H).
  - intros H. by rewrite (proj2 (Z.ltb_ge _ _) H).
  - intros entry H Hentry Hne. rewrite (proj2 (Z.ltb_lt _ _) H), Hentry. simpl.
    destruct (String.eqb_spec (snd entry) ""); [done|]. simpl.
    unfold Json.quoted. reflexivity.
  - intros entry [H0 H] Hentry Hne. rewrite (proj2 (Z.ltb_lt _ _) H).
    rewrite (proj2 (Z.ltb_ge _ _) H0), Hentry. simpl.
    destruct (String.eqb_spec (snd entry) ""); [done|]. simpl.
    unfold Json.quoted. reflexivity.
  - intros H. destruct (_ <? totalSlides _)%Z; [|reflexivity].
    destruct (_ <? 0)%Z; [reflexivity|]. by rewrite (lookup_ge_None_2 _ _ H).
  - intros H. destruct (1 <? _)%Z; [|reflexivity]. by rewrite (lookup_ge_None_2 _ _ H).
Qed.

Lemma instructions_state_the_neighbouring_slides_witness :
  previousSlideLine (previousSlide Scenario.slide_two Scenario.overview)
  = "**Previous Slide:** " +:+ Json.quoted "Introduction"
  /\ nextSlideLine (nextSlide Scenario.slide_two Scenario.overview)
     = "**Next Slide:** " +:+ Json.quoted "Wrap-up".
Proof.
  destruct (instructions_state_the_neighbouring_slides Scenario.slide_two Scenario.overview
              None presenter guide)
    as (_ & _ & _ & Hprev & Hnext & _).
  split.
  - apply (Hprev ("intro", "Introduction")); [reflexivity | reflexivity | discriminate].
  - apply (Hnext ("end", "Wrap-up")); [split; [discriminate | reflexivity] | reflexivity | discriminate].
Defined.

End Synthesizer.

Section ProviderPrompt.
Import Browser Coordinator Instructions.

Variable getSlideContext : string -> option SlideContext.


End ProviderPrompt.

